(** * The Debt of War: feed ingestion ([fetch_events.py])

    A shallow embedding of the classification, cost estimation, identity,
    date parsing and merge/retention logic of [fetch_events.py], together
    with the properties the specification states about them.

    Python values are modelled as follows.
    - [str] is a list of Unicode code points; comparison is the
      lexicographic order on code points, slicing is [firstn], [w in t] is
      the substring test.
    - [int] is [Z].
    - a [dict] is an insertion-ordered association list with unique keys.
    - an aware [datetime] in UTC is a record of its calendar fields; two such
      values compare field by field, as CPython does when both carry the same
      [tzinfo].
    - the event dictionaries are records with one field per key.

    Three library functions depend on tables that are not part of the
    program (the Unicode database, the locale, the interpreter version):
    [str.lower], the character equivalence used by [re.IGNORECASE], and
    [datetime.strptime].  The program is parameterised by them. *)

From Stdlib Require Import Ascii String.
From Stdlib Require Import ZArith NArith List Bool Lia.
From Stdlib Require Import Sorting.Sorted Sorting.Permutation.
Import ListNotations.

Set Implicit Arguments.

(* ------------------------------------------------------------------ *)
(** * Python strings *)

Module PyStr.

Definition char := N.
Definition str := list char.

(** A string literal of the source. *)
Definition py (s : string) : str := map N_of_ascii (list_ascii_of_string s).

Definition char_eqb (a b : char) : bool := N.eqb a b.

Fixpoint str_eqb (a b : str) : bool :=
  match a, b with
  | [], [] => true
  | x :: a', y :: b' => char_eqb x y && str_eqb a' b'
  | _, _ => false
  end.

(** [a < b], [a == b], [a > b] on strings: code point by code point, a
    proper prefix being smaller. *)
Fixpoint str_compare (a b : str) : comparison :=
  match a, b with
  | [], [] => Eq
  | [], _ :: _ => Lt
  | _ :: _, [] => Gt
  | x :: a', y :: b' =>
      match N.compare x y with
      | Eq => str_compare a' b'
      | c => c
      end
  end.

(** [a >= b] *)
Definition str_geb (a b : str) : bool :=
  match str_compare a b with Lt => false | _ => true end.

(** [a >= b] as a proposition. *)
Definition str_ge (a b : str) : Prop := str_compare a b <> Lt.

(** [t.startswith(w)] *)
Fixpoint startswith (w t : str) : bool :=
  match w, t with
  | [], _ => true
  | _ :: _, [] => false
  | c :: w', d :: t' => char_eqb c d && startswith w' t'
  end.

(** [w in t] *)
Fixpoint contains (w t : str) : bool :=
  startswith w t ||
  match t with
  | [] => false
  | _ :: t' => contains w t'
  end.

(** [w] occurs in [t] as a contiguous block. *)
Definition occurs (w t : str) : Prop :=
  exists pre post, t = pre ++ w ++ post.

(** [str.isspace] on one code point (the Unicode White_Space property
    together with the four information separators, as CPython has it). *)
Definition is_space (c : char) : bool :=
  ((9 <=? c) && (c <=? 13) || (28 <=? c) && (c <=? 32) ||
   (c =? 133) || (c =? 160) || (c =? 5760) ||
   (8192 <=? c) && (c <=? 8202) || (c =? 8232) || (c =? 8233) ||
   (c =? 8239) || (c =? 8287) || (c =? 12288))%N.

Fixpoint lstrip (s : str) : str :=
  match s with
  | c :: s' => if is_space c then lstrip s' else s
  | [] => []
  end.

(** [s.strip()] *)
Definition strip (s : str) : str := rev (lstrip (rev (lstrip s))).

(** [str.lower] restricted to the ASCII letters, every other code point
    left as it is.  It agrees with Python on ASCII text and serves as the
    concrete instance on which the parameterised program is evaluated. *)
Definition ascii_lower_char (c : char) : char :=
  if ((65 <=? c) && (c <=? 90))%N then (c + 32)%N else c.

Definition ascii_lower (s : str) : str := map ascii_lower_char s.

End PyStr.

Import PyStr.

(* ------------------------------------------------------------------ *)
(** * Severity ([classify]) *)

Definition HIGH_WORDS : list str :=
  map py ["killed"; "dead"; "casualties"; "massacre"; "nuclear"; "invasion";
          "airstrike"; "missile strike"; "bombing"; "dozens"; "hundreds"]%string.

Definition MEDIUM_WORDS : list str :=
  map py ["attack"; "attacked"; "clash"; "shelling"; "drone"; "wounded";
          "offensive"]%string.

Definition LOW_WORDS : list str :=
  map py ["ceasefire"; "tension"; "protest"; "sanctions"; "warning"]%string.

(** [sum(1 for w in ws if w in t)].  The source iterates over a set; the
    sum does not depend on the order of iteration. *)
Definition count_in (ws : list str) (t : str) : Z :=
  fold_right Z.add 0%Z (map (fun _ => 1%Z) (filter (fun w => contains w t) ws)).

Section Classify.

(** [str.lower] *)
Variable str_lower : str -> str.

Definition classify (text : str) : str :=
  let t := str_lower text in
  let h := count_in HIGH_WORDS t in
  let m := count_in MEDIUM_WORDS t in
  if (h >=? 1)%Z then py "high"
  else if (m >=? 1)%Z then py "medium"
  else py "low".

(** Some keyword of [ws] occurs in the lower-cased text. *)
Definition present (ws : list str) (text : str) : Prop :=
  exists w, In w ws /\ occurs w (str_lower text).

End Classify.

(* ------------------------------------------------------------------ *)
(** * Regular expressions ([re.search] with [re.IGNORECASE]) *)

Module Re.

(** The constructs the patterns of the cost table use. *)
Inductive regex : Type :=
| Eps                            (* the empty pattern *)
| Lit (p : char)                 (* a literal character *)
| Any                            (* [.] *)
| Seq (a b : regex)              (* [ab] *)
| Alt (a b : regex)              (* [a|b] *)
| Upto (n : nat) (a : regex).    (* [a{0,n}] *)

(** A run of literal characters. *)
Fixpoint word (s : str) : regex :=
  match s with
  | [] => Eps
  | c :: s' => Seq (Lit c) (word s')
  end.

Definition newline : char := 10%N.

(** Case-insensitive comparison of a pattern character with a text
    character, restricted to the ASCII letters. *)
Definition ascii_ieq (p c : char) : bool :=
  char_eqb (ascii_lower_char p) (ascii_lower_char c).

Section Matching.

(** [ieq p c]: the text character [c] matches the pattern character [p]
    when case is ignored. *)
Variable ieq : char -> char -> bool.

(** The strings a pattern matches.  [.] matches any character but a newline
    (the patterns are compiled without [re.DOTALL]). *)
Inductive matches : regex -> str -> Prop :=
| MEps : matches Eps []
| MLit p c : ieq p c = true -> matches (Lit p) [c]
| MAny c : c <> newline -> matches Any [c]
| MSeq a b s1 s2 : matches a s1 -> matches b s2 -> matches (Seq a b) (s1 ++ s2)
| MAltL a b s : matches a s -> matches (Alt a b) s
| MAltR a b s : matches b s -> matches (Alt a b) s
| MUptoNil n a : matches (Upto n a) []
| MUptoCons n a s1 s2 :
    matches a s1 -> matches (Upto n a) s2 -> matches (Upto (S n) a) (s1 ++ s2).

(** The pattern matches somewhere in the text. *)
Definition found (r : regex) (text : str) : Prop :=
  exists pre mid post, text = pre ++ mid ++ post /\ matches r mid.

(** A backtracking matcher: [match_at r k s] tries [r] at the head of [s]
    and hands each possible rest of the text to the continuation [k]. *)
Fixpoint match_at (r : regex) (k : str -> bool) (s : str) : bool :=
  match r with
  | Eps => k s
  | Lit p =>
      match s with
      | c :: s' => ieq p c && k s'
      | [] => false
      end
  | Any =>
      match s with
      | c :: s' => negb (char_eqb c newline) && k s'
      | [] => false
      end
  | Seq a b => match_at a (match_at b k) s
  | Alt a b => match_at a k s || match_at b k s
  | Upto n a =>
      (fix upto (n : nat) (s : str) : bool :=
         match n with
         | O => k s
         | S n' => match_at a (upto n') s || k s
         end) n s
  end.

(** [re.search(r, text, re.IGNORECASE) is not None]: the pattern is tried
    at every position of the text, from left to right. *)
Fixpoint search (r : regex) (text : str) : bool :=
  match_at r (fun _ => true) text ||
  match text with
  | [] => false
  | _ :: text' => search r text'
  end.

End Matching.

End Re.

(* ------------------------------------------------------------------ *)
(** * Cost estimation ([estimate_cost]) *)

Module CostTable.
Import Re.

Definition w (s : string) : regex := word (py s).

(** [.{0,n}] *)
Definition gap (n : nat) : regex := Upto n Any.

(** The weapon cost table, in the order of the source:
    (pattern, cost in USD, label). *)
Definition WEAPON_COSTS : list (regex * Z * str) := [
  (* nuclear|nuke *)
  (Alt (w "nuclear") (w "nuke"),
     2000000000%Z, py "Nuclear weapon deployment");
  (* aircraft carrier *)
  (w "aircraft carrier",
     800000000%Z, py "Aircraft carrier operation/day");
  (* B-2|B2 bomber *)
  (Alt (w "B-2") (w "B2 bomber"),
     135000%Z, py "B-2 bomber sortie/hr");
  (* F-35|F35 *)
  (Alt (w "F-35") (w "F35"),
     36000%Z, py "F-35 sortie/hr");
  (* F-16|F16 *)
  (Alt (w "F-16") (w "F16"),
     22000%Z, py "F-16 sortie/hr");
  (* tomahawk *)
  (w "tomahawk",
     2000000%Z, py "Tomahawk cruise missile");
  (* patriot.{0,20}(missile|intercept) *)
  (Seq (w "patriot") (Seq (gap 20) (Alt (w "missile") (w "intercept"))),
     4000000%Z, py "Patriot interceptor");
  (* HIMARS|himars *)
  (Alt (w "HIMARS") (w "himars"),
     100000%Z, py "HIMARS rocket");
  (* JDAM|jdam *)
  (Alt (w "JDAM") (w "jdam"),
     30000%Z, py "JDAM guided bomb");
  (* abrams|tank.{0,10}(destroy|hit) *)
  (Alt (w "abrams")
       (Seq (w "tank") (Seq (gap 10) (Alt (w "destroy") (w "hit")))),
     10000000%Z, py "Abrams tank");
  (* drone.{0,20}(strike|attack) *)
  (Seq (w "drone") (Seq (gap 20) (Alt (w "strike") (w "attack"))),
     50000%Z, py "Drone strike est.");
  (* airstrike|air strike *)
  (Alt (w "airstrike") (w "air strike"),
     500000%Z, py "Airstrike estimated cost");
  (* artillery|shelling|shell *)
  (Alt (w "artillery") (Alt (w "shelling") (w "shell")),
     10000%Z, py "Artillery round");
  (* missile *)
  (w "missile",
     500000%Z, py "Missile (generic est.)");
  (* bomb *)
  (w "bomb",
     50000%Z, py "Bomb/munition");
  (* explosion|blast *)
  (Alt (w "explosion") (w "blast"),
     20000%Z, py "Explosive device")
].

(** The number of entries listed before the generic "missile" entry. *)
Definition specific_entries : nat := 13.

End CostTable.

Import CostTable.

Section EstimateCost.

(** The character equivalence of [re.IGNORECASE]. *)
Variable ieq : char -> char -> bool.

(** The loop of [estimate_cost] over a table: the first entry whose pattern
    is found ends it. *)
Fixpoint estimate_cost_in (table : list (Re.regex * Z * str)) (text : str)
  : Z * option str :=
  match table with
  | [] => (0%Z, None)
  | (pattern, cost, label) :: rest =>
      if Re.search ieq pattern text then (cost, Some label)
      else estimate_cost_in rest text
  end.

Definition estimate_cost (text : str) : Z * option str :=
  estimate_cost_in WEAPON_COSTS text.

End EstimateCost.

(* ------------------------------------------------------------------ *)
(** * Dates and times ([datetime]) *)

Module DateTime.

Local Open Scope Z_scope.

(** The calendar fields of a [datetime].  Every datetime the program
    compares or formats carries [tzinfo=timezone.utc]; where an offset
    matters it is kept next to the fields. *)
Record datetime : Type := mkdt {
  year : Z; month : Z; day : Z;
  hour : Z; minute : Z; second : Z; microsecond : Z
}.

(** A [date]: year, month, day. *)
Definition date : Type := (Z * Z * Z)%type.

(** A [timedelta], in microseconds. *)
Definition timedelta : Type := Z.
Definition td_hours (h : Z) : timedelta := h * 3600 * 1000000.
Definition td_days (d : Z) : timedelta := d * 86400 * 1000000.

Definition is_leap (y : Z) : bool :=
  (y mod 4 =? 0) && (negb (y mod 100 =? 0) || (y mod 400 =? 0)).

Definition DAYS_IN_MONTH (m : Z) : Z :=
  match m with
  | 1 => 31 | 2 => 28 | 3 => 31 | 4 => 30 | 5 => 31 | 6 => 30
  | 7 => 31 | 8 => 31 | 9 => 30 | 10 => 31 | 11 => 30 | 12 => 31
  | _ => -1
  end.

Definition DAYS_BEFORE_MONTH (m : Z) : Z :=
  match m with
  | 1 => 0 | 2 => 31 | 3 => 59 | 4 => 90 | 5 => 120 | 6 => 151
  | 7 => 181 | 8 => 212 | 9 => 243 | 10 => 273 | 11 => 304 | 12 => 334
  | _ => -1
  end.

Definition days_before_year (y : Z) : Z :=
  let y := y - 1 in y * 365 + y / 4 - y / 100 + y / 400.

Definition days_in_month (y m : Z) : Z :=
  if (m =? 2) && is_leap y then 29 else DAYS_IN_MONTH m.

Definition days_before_month (y m : Z) : Z :=
  DAYS_BEFORE_MONTH m + (if (m >? 2) && is_leap y then 1 else 0).

Definition ymd2ord (y m d : Z) : Z :=
  days_before_year y + days_before_month y m + d.

Definition DI400Y : Z := 146097.
Definition DI100Y : Z := 36524.
Definition DI4Y : Z := 1461.
Definition MAXORDINAL : Z := 3652059.

Definition ord2ymd (n : Z) : date :=
  let n := n - 1 in
  let n400 := n / DI400Y in
  let n := n mod DI400Y in
  let y := n400 * 400 + 1 in
  let n100 := n / DI100Y in
  let n := n mod DI100Y in
  let n4 := n / DI4Y in
  let n := n mod DI4Y in
  let n1 := n / 365 in
  let n := n mod 365 in
  let y := y + n100 * 100 + n4 * 4 + n1 in
  if (n1 =? 4) || (n100 =? 4) then (y - 1, 12, 31)
  else
    let leapyear := (n1 =? 3) && (negb (n4 =? 24) || (n100 =? 3)) in
    let m := Z.shiftr (n + 50) 5 in
    let preceding :=
      DAYS_BEFORE_MONTH m + (if (m >? 2) && leapyear then 1 else 0) in
    if preceding >? n then
      let m := m - 1 in
      let preceding :=
        preceding - (DAYS_IN_MONTH m + (if (m =? 2) && leapyear then 1 else 0)) in
      (y, m, n - preceding + 1)
    else (y, m, n - preceding + 1).

(** The values the constructor of [datetime] accepts. *)
Definition valid (d : datetime) : Prop :=
  1 <= year d <= 9999 /\ 1 <= month d <= 12 /\
  1 <= day d <= days_in_month (year d) (month d) /\
  0 <= hour d < 24 /\ 0 <= minute d < 60 /\ 0 <= second d < 60 /\
  0 <= microsecond d < 1000000.

Definition inrange (lo x hi : Z) : bool := (lo <=? x) && (x <=? hi).

Definition validb (d : datetime) : bool :=
  inrange 1 (year d) 9999 && inrange 1 (month d) 12 &&
  inrange 1 (day d) (days_in_month (year d) (month d)) &&
  inrange 0 (hour d) 23 && inrange 0 (minute d) 59 &&
  inrange 0 (second d) 59 && inrange 0 (microsecond d) 999999.

(** [d.toordinal()] *)
Definition toordinal (d : datetime) : Z := ymd2ord (year d) (month d) (day d).

(** Microseconds from the start of day 0 of the proleptic calendar to the
    wall-clock reading [d]. *)
Definition wall_micros (d : datetime) : Z :=
  ((toordinal d * 86400 + hour d * 3600 + minute d * 60 + second d) * 1000000)
  + microsecond d.

(** The instant a wall-clock reading [d] denotes when it is read at UTC
    offset [off]. *)
Definition instant_at (d : datetime) (off : timedelta) : Z := wall_micros d - off.

(** The instant of a UTC datetime. *)
Definition instant (d : datetime) : Z := instant_at d 0.

(** [d + delta]; [None] stands for [OverflowError]. *)
Definition dt_add (d : datetime) (delta : timedelta) : option datetime :=
  let total := wall_micros d + delta in
  let days := total / 86400000000 in
  let seconds := (total mod 86400000000) / 1000000 in
  let us := total mod 1000000 in
  let hh := seconds / 3600 in
  let rem := seconds mod 3600 in
  let mm := rem / 60 in
  let ss := rem mod 60 in
  if (0 <? days) && (days <=? MAXORDINAL) then
    let '(y, m, dd) := ord2ymd days in
    Some (mkdt y m dd hh mm ss us)
  else None.

(** [d - delta] *)
Definition dt_sub (d : datetime) (delta : timedelta) : option datetime :=
  dt_add d (- delta).

(** [a < b], [a == b], [a > b] for two datetimes of the same [tzinfo]:
    the field tuples are compared. *)
Definition dt_compare (a b : datetime) : comparison :=
  match year a ?= year b with Eq =>
  match month a ?= month b with Eq =>
  match day a ?= day b with Eq =>
  match hour a ?= hour b with Eq =>
  match minute a ?= minute b with Eq =>
  match second a ?= second b with Eq =>
    microsecond a ?= microsecond b
  | c => c end | c => c end | c => c end | c => c end | c => c end | c => c end.

(** [a < b] *)
Definition dt_ltb (a b : datetime) : bool :=
  match dt_compare a b with Lt => true | _ => false end.

(** [a >= b] as a proposition. *)
Definition dt_ge (a b : datetime) : Prop := dt_compare a b <> Lt.

(** [d.replace(hour=0, minute=0, second=0)] *)
Definition replace_hms0 (d : datetime) : datetime :=
  mkdt (year d) (month d) (day d) 0 0 0 (microsecond d).

(** [d.date()] *)
Definition date_of (d : datetime) : date := (year d, month d, day d).

Definition digit (n : Z) : char := Z.to_N (48 + n).

(** [n] written with exactly [k] decimal digits, as ["%0kd" % n] writes it
    when [0 <= n < 10^k]. *)
Fixpoint digits (k : nat) (n : Z) : str :=
  match k with
  | O => []
  | S k' => digit (n / 10 ^ Z.of_nat k') :: digits k' (n mod 10 ^ Z.of_nat k')
  end.

(** [str(d)] for a [date]: ["%04d-%02d-%02d"]. *)
Definition date_str (d : date) : str :=
  let '(y, m, dd) := d in
  digits 4 y ++ py "-" ++ digits 2 m ++ py "-" ++ digits 2 dd.

(** The time part of [isoformat]: the fraction is left out when the
    microsecond is zero. *)
Definition format_time (hh mm ss us : Z) : str :=
  digits 2 hh ++ py ":" ++ digits 2 mm ++ py ":" ++ digits 2 ss ++
  (if us =? 0 then [] else py "." ++ digits 6 us).

(** [d.isoformat()] for a UTC datetime. *)
Definition isoformat (d : datetime) : str :=
  date_str (date_of d) ++ py "T" ++
  format_time (hour d) (minute d) (second d) (microsecond d) ++ py "+00:00".

End DateTime.

(* ------------------------------------------------------------------ *)
(** * Encoding and hashing ([str.encode], [hashlib.md5]) *)

Module Utf8.

Local Open Scope Z_scope.

(** The UTF-8 encoding of one code point; [None] stands for
    [UnicodeEncodeError] (a surrogate) and for values that are not code
    points. *)
Definition encode_char (c : char) : option (list Z) :=
  let n := Z.of_N c in
  if n <? 128 then Some [n]
  else if n <? 2048 then
    Some [Z.lor 192 (Z.shiftr n 6); Z.lor 128 (Z.land n 63)]
  else if n <? 65536 then
    if (55296 <=? n) && (n <=? 57343) then None
    else Some [Z.lor 224 (Z.shiftr n 12);
               Z.lor 128 (Z.land (Z.shiftr n 6) 63);
               Z.lor 128 (Z.land n 63)]
  else if n <? 1114112 then
    Some [Z.lor 240 (Z.shiftr n 18);
          Z.lor 128 (Z.land (Z.shiftr n 12) 63);
          Z.lor 128 (Z.land (Z.shiftr n 6) 63);
          Z.lor 128 (Z.land n 63)]
  else None.

(** [s.encode()] *)
Fixpoint encode (s : str) : option (list Z) :=
  match s with
  | [] => Some []
  | c :: s' =>
      match encode_char c, encode s' with
      | Some b, Some bs => Some (b ++ bs)
      | _, _ => None
      end
  end.

(** The code points [str.encode] accepts. *)
Definition scalar (c : char) : Prop :=
  (c < 55296 \/ 57343 < c < 1114112)%N.

End Utf8.

Module Md5.

Local Open Scope Z_scope.

Definition mask : Z := 4294967295.
Definition wrap (x : Z) : Z := Z.land x mask.
Definition add32 (a b : Z) : Z := wrap (a + b).
Definition not32 (x : Z) : Z := Z.lxor x mask.
Definition rotl32 (x c : Z) : Z :=
  wrap (Z.lor (Z.shiftl x c) (Z.shiftr x (32 - c))).

Definition F (b c d : Z) : Z := Z.lor (Z.land b c) (Z.land (not32 b) d).
Definition G (b c d : Z) : Z := Z.lor (Z.land b d) (Z.land c (not32 d)).
Definition H (b c d : Z) : Z := Z.lxor (Z.lxor b c) d.
Definition I (b c d : Z) : Z := Z.lxor c (Z.lor b (not32 d)).

(** Per-round shift amounts. *)
Definition S : list Z := [
  7; 12; 17; 22; 7; 12; 17; 22; 7; 12; 17; 22; 7; 12; 17; 22;
  5; 9; 14; 20; 5; 9; 14; 20; 5; 9; 14; 20; 5; 9; 14; 20;
  4; 11; 16; 23; 4; 11; 16; 23; 4; 11; 16; 23; 4; 11; 16; 23;
  6; 10; 15; 21; 6; 10; 15; 21; 6; 10; 15; 21; 6; 10; 15; 21 ].

(** [K i = floor (2^32 * |sin (i + 1)|)]. *)
Definition K : list Z := [
  0xd76aa478; 0xe8c7b756; 0x242070db; 0xc1bdceee;
  0xf57c0faf; 0x4787c62a; 0xa8304613; 0xfd469501;
  0x698098d8; 0x8b44f7af; 0xffff5bb1; 0x895cd7be;
  0x6b901122; 0xfd987193; 0xa679438e; 0x49b40821;
  0xf61e2562; 0xc040b340; 0x265e5a51; 0xe9b6c7aa;
  0xd62f105d; 0x02441453; 0xd8a1e681; 0xe7d3fbc8;
  0x21e1cde6; 0xc33707d6; 0xf4d50d87; 0x455a14ed;
  0xa9e3e905; 0xfcefa3f8; 0x676f02d9; 0x8d2a4c8a;
  0xfffa3942; 0x8771f681; 0x6d9d6122; 0xfde5380c;
  0xa4beea44; 0x4bdecfa9; 0xf6bb4b60; 0xbebfbc70;
  0x289b7ec6; 0xeaa127fa; 0xd4ef3085; 0x04881d05;
  0xd9d4d039; 0xe6db99e5; 0x1fa27cf8; 0xc4ac5665;
  0xf4292244; 0x432aff97; 0xab9423a7; 0xfc93a039;
  0x655b59c3; 0x8f0ccc92; 0xffeff47d; 0x85845dd1;
  0x6fa87e4f; 0xfe2ce6e0; 0xa3014314; 0x4e0811a1;
  0xf7537e82; 0xbd3af235; 0x2ad7d2bb; 0xeb86d391 ].

Definition state : Type := (Z * Z * Z * Z)%type.

Definition init : state := (0x67452301, 0xefcdab89, 0x98badcfe, 0x10325476).

(** One of the 64 operations on a block of sixteen words [M]. *)
Definition step (M : list Z) (st : state) (i : nat) : state :=
  let '(a, b, c, d) := st in
  let iz := Z.of_nat i in
  let '(f, g) :=
    if iz <? 16 then (F b c d, iz)
    else if iz <? 32 then (G b c d, (5 * iz + 1) mod 16)
    else if iz <? 48 then (H b c d, (3 * iz + 5) mod 16)
    else (I b c d, (7 * iz) mod 16) in
  let x := add32 (add32 (add32 a f) (nth i K 0)) (nth (Z.to_nat g) M 0) in
  (d, add32 b (rotl32 x (nth i S 0)), b, c).

(** Four bytes, least significant first, as one word. *)
Definition word_le (bs : list Z) : Z :=
  nth 0 bs 0 + Z.shiftl (nth 1 bs 0) 8 + Z.shiftl (nth 2 bs 0) 16 +
  Z.shiftl (nth 3 bs 0) 24.

Fixpoint words (n : nat) (bs : list Z) : list Z :=
  match n with
  | O => []
  | Datatypes.S n' => word_le (firstn 4 bs) :: words n' (skipn 4 bs)
  end.

Definition compress (st : state) (block : list Z) : state :=
  let M := words 16 block in
  let '(a, b, c, d) := st in
  let '(a', b', c', d') := fold_left (step M) (seq 0 64) st in
  (add32 a a', add32 b b', add32 c c', add32 d d').

Fixpoint blocks (n : nat) (st : state) (bs : list Z) : state :=
  match n with
  | O => st
  | Datatypes.S n' => blocks n' (compress st (firstn 64 bs)) (skipn 64 bs)
  end.

(** [k] bytes of [x], least significant first. *)
Fixpoint bytes_le (k : nat) (x : Z) : list Z :=
  match k with
  | O => []
  | Datatypes.S k' => (x mod 256) :: bytes_le k' (x / 256)
  end.

(** The message followed by a one bit, zeros up to 56 modulo 64 and the
    bit length on eight bytes. *)
Definition pad (msg : list Z) : list Z :=
  let len := Z.of_nat (length msg) in
  msg ++ [128] ++ repeat 0 (Z.to_nat ((55 - len) mod 64)) ++
  bytes_le 8 ((8 * len) mod 2 ^ 64).

Definition digest (msg : list Z) : list Z :=
  let p := pad msg in
  let '(a, b, c, d) := blocks (length p / 64) init p in
  bytes_le 4 a ++ bytes_le 4 b ++ bytes_le 4 c ++ bytes_le 4 d.

Definition hex_digit (n : Z) : char :=
  Z.to_N (if n <? 10 then 48 + n else 87 + n).

Definition hex_byte (b : Z) : str := [hex_digit (b / 16 mod 16); hex_digit (b mod 16)].

(** [hashlib.md5(msg).hexdigest()] *)
Definition hexdigest (msg : list Z) : str := flat_map hex_byte (digest msg).

(** A lower-case hexadecimal digit. *)
Definition is_hex (c : char) : Prop :=
  (48 <= c <= 57 \/ 97 <= c <= 102)%N.

End Md5.

(* ------------------------------------------------------------------ *)
(** * Identity ([event_id]) *)

(** [hashlib.md5((title[:50] + str(date)).encode()).hexdigest()[:10]];
    [None] when the title cannot be encoded. *)
Definition event_id (title : str) (date : DateTime.date) : option str :=
  match Utf8.encode (firstn 50 title ++ DateTime.date_str date) with
  | Some bytes => Some (firstn 10 (Md5.hexdigest bytes))
  | None => None
  end.

(* ------------------------------------------------------------------ *)
(** * Date parsing ([parse_date]) *)

Import DateTime.

Definition DATE_FORMATS : list str :=
  map py ["%a, %d %b %Y %H:%M:%S %z"; "%a, %d %b %Y %H:%M:%S %Z";
          "%Y-%m-%dT%H:%M:%S%z"; "%Y-%m-%dT%H:%M:%SZ"]%string.

Section ParseDate.

(** [datetime.strptime(s, fmt)]: the calendar fields read from [s] and the
    UTC offset when the format has [%z]; [None] stands for [ValueError]. *)
Variable strptime : str -> str -> option (datetime * option timedelta).

(** The loop of [parse_date] over the formats.  [.replace(tzinfo=
    timezone.utc)] keeps the fields and drops the offset.  [now] is what
    [datetime.now(timezone.utc)] returns when no format applies. *)
Fixpoint parse_date_in (fmts : list str) (now : datetime) (s : str) : datetime :=
  match fmts with
  | [] => now
  | fmt :: rest =>
      match strptime (strip s) fmt with
      | Some (fields, _) => fields
      | None => parse_date_in rest now s
      end
  end.

Definition parse_date (now : datetime) (s : str) : datetime :=
  parse_date_in DATE_FORMATS now s.

(** The first format of [fmts] under which [s] parses, with what
    [strptime] returns for it. *)
Inductive first_parse (s : str) :
  list str -> datetime -> option timedelta -> Prop :=
| FP_here fmt rest fields off :
    strptime (strip s) fmt = Some (fields, off) ->
    first_parse s (fmt :: rest) fields off
| FP_later fmt rest fields off :
    strptime (strip s) fmt = None ->
    first_parse s rest fields off ->
    first_parse s (fmt :: rest) fields off.

(** No format of [fmts] applies to [s]. *)
Definition no_parse (s : str) (fmts : list str) : Prop :=
  forall fmt, In fmt fmts -> strptime (strip s) fmt = None.

End ParseDate.

(* ------------------------------------------------------------------ *)
(** * Dictionaries *)

Module Dict.

Section Dict.
Variable V : Type.

(** Keys in insertion order, each at most once. *)
Definition dict : Type := list (str * V).

(** [d[k] = v]: an existing key keeps its position. *)
Fixpoint set (d : dict) (k : str) (v : V) : dict :=
  match d with
  | [] => [(k, v)]
  | (k', v') :: d' =>
      if str_eqb k' k then (k', v) :: d' else (k', v') :: set d' k v
  end.

(** [d.get(k)] *)
Fixpoint get (d : dict) (k : str) : option V :=
  match d with
  | [] => None
  | (k', v') :: d' => if str_eqb k' k then Some v' else get d' k
  end.

(** [k in d] *)
Definition mem (k : str) (d : dict) : bool :=
  existsb (fun kv => str_eqb (fst kv) k) d.

(** [{k: v for k, v in pairs}] *)
Definition of_items (pairs : list (str * V)) : dict :=
  fold_left (fun d kv => set d (fst kv) (snd kv)) pairs [].

(** [d.update(other)] *)
Definition update (d other : dict) : dict :=
  fold_left (fun d kv => set d (fst kv) (snd kv)) other d.

Definition keys (d : dict) : list str := map fst d.
Definition values (d : dict) : list V := map snd d.

End Dict.

End Dict.

(* ------------------------------------------------------------------ *)
(** * Events *)

(** A feed item, as [fetch_feed] hands it over. *)
Module Item.
Record t : Type := mk {
  title : str; link : str; desc : str; pub : str; full : str; source : str
}.
End Item.

(** An event dictionary.  [is_breaking] is absent until the merge sets
    it. *)
Module Event.
Record t : Type := mk {
  id : str; title : str; source : str; url : str; description : str;
  timestamp : str; severity : str; cost_usd : Z; cost_label : option str;
  is_new : bool; is_breaking : option bool
}.

(** [e["is_breaking"] = b] *)
Definition set_is_breaking (e : t) (b : bool) : t :=
  mk (id e) (title e) (source e) (url e) (description e) (timestamp e)
     (severity e) (cost_usd e) (cost_label e) (is_new e) (Some b).

(** Two events agree on every key but [is_breaking]. *)
Definition same_but_breaking (a b : t) : Prop :=
  id a = id b /\ title a = title b /\ source a = source b /\ url a = url b /\
  description a = description b /\ timestamp a = timestamp b /\
  severity a = severity b /\ cost_usd a = cost_usd b /\
  cost_label a = cost_label b /\ is_new a = is_new b.
End Event.

(** The summary written to [meta.json]. *)
Module Meta.
Record t : Type := mk {
  last_updated : str; event_count : Z; breaking_count : Z;
  today_extra_cost : Z; high_count : Z
}.
End Meta.

(** The readings of [datetime.now(timezone.utc)] during one run, one per
    place of the program that reads the clock. *)
Module Clock.
Record t : Type := mk {
  at_start : datetime;           (* the ingestion cutoff *)
  at_item : nat -> datetime;     (* [parse_date] of the i-th item *)
  at_retention : datetime;       (* the 72 hour cutoff *)
  at_alert : datetime;           (* the 3 hour cutoff *)
  at_today : nat -> datetime;    (* the test of the i-th event in the sum *)
  at_meta : datetime             (* [last_updated] *)
}.
End Clock.

Definition CONFLICT_KEYWORDS : list str :=
  map py ["strike"; "airstrike"; "missile"; "bomb"; "bombing"; "explosion";
          "attack"; "killed"; "dead"; "casualties"; "troops"; "military";
          "war"; "conflict"; "offensive"; "shelling"; "drone"; "rocket";
          "invasion"; "assault"; "clash"; "ceasefire"; "nuclear"; "sanction";
          "Iran"; "Gaza"; "Ukraine"; "Russia"; "Israel"; "Hamas"; "Hezbollah";
          "Sudan"; "Yemen"; "Syria"; "Taliban"; "Houthi"; "North Korea"]%string.

(** [sorted(l, key=key, reverse=True)]: descending and stable, elements of
    equal key keeping their order. *)
Section Sorted.
Variable A : Type.
Variable key : A -> str.

Fixpoint insert_desc (x : A) (l : list A) : list A :=
  match l with
  | [] => [x]
  | y :: l' =>
      match str_compare (key x) (key y) with
      | Lt => y :: insert_desc x l'
      | _ => x :: l
      end
  end.

Definition sorted_reverse (l : list A) : list A := fold_right insert_desc [] l.

(** [a] comes before [b] in descending order of the key. *)
Definition descending (a b : A) : Prop := str_ge (key a) (key b).

End Sorted.

(** [sum(l)] *)
Definition sum (l : list Z) : Z := fold_right Z.add 0%Z l.

(* ------------------------------------------------------------------ *)
(** * The merge ([main]) *)

(** The pairs [(e["id"], e)] of a list of events. *)
Definition pairs (events : list Event.t) : list (str * Event.t) :=
  map (fun e => (Event.id e, e)) events.

(** [load_existing]: the stored collection keyed by id; a missing or
    unreadable file ([None]) gives the empty dictionary. *)
Definition load_existing (stored : option (list Event.t)) : Dict.dict Event.t :=
  match stored with
  | Some events => Dict.of_items (pairs events)
  | None => []
  end.

(** Lines 167-168: the candidates keyed by id, then the stored events
    whose id no candidate has. *)
Definition merge (new_events : list Event.t) (existing : Dict.dict Event.t)
  : Dict.dict Event.t :=
  let merged := Dict.of_items (pairs new_events) in
  Dict.update merged
    (Dict.of_items (filter (fun kv => negb (Dict.mem (fst kv) merged)) existing)).

(** Lines 169 and 173, before the slice: newest first, then the events at
    or after the retention cutoff. *)
Definition retained (merged : Dict.dict Event.t) (recent_cutoff : str)
  : list Event.t :=
  filter (fun e => str_geb (Event.timestamp e) recent_cutoff)
         (sorted_reverse Event.timestamp (Dict.values merged)).

Definition CAP : nat := 200.

(** Line 178. *)
Definition mark_breaking (alert_cutoff : str) (e : Event.t) : Event.t :=
  Event.set_is_breaking e
    (str_geb (Event.timestamp e) alert_cutoff &&
     str_eqb (Event.severity e) (py "high")).

(** Lines 167-178: the collection written to [events.json]. *)
Definition final_collection (new_events : list Event.t)
    (existing : Dict.dict Event.t) (recent_cutoff alert_cutoff : str)
  : list Event.t :=
  map (mark_breaking alert_cutoff)
      (firstn CAP (retained (merge new_events existing) recent_cutoff)).

(** The cutoff of the i-th test of the sum of line 184. *)
Definition today_cutoff (now : datetime) : str := isoformat (replace_hms0 now).

(** Lines 184-186; the clock is read once per event. *)
Fixpoint today_cost (at_today : nat -> datetime) (i : nat)
    (all_events : list Event.t) : Z :=
  match all_events with
  | [] => 0%Z
  | e :: rest =>
      if str_geb (Event.timestamp e) (today_cutoff (at_today i))
      then (Event.cost_usd e + today_cost at_today (S i) rest)%Z
      else today_cost at_today (S i) rest
  end.

Definition count (p : Event.t -> bool) (l : list Event.t) : Z :=
  sum (map (fun _ => 1%Z) (filter p l)).

(** Lines 184-193. *)
Definition summary (clock : Clock.t) (all_events : list Event.t) : Meta.t :=
  let today_cost := today_cost (Clock.at_today clock) 0 all_events in
  Meta.mk (isoformat (Clock.at_meta clock))
          (Z.of_nat (length all_events))
          (count (fun e => match Event.is_breaking e with
                           | Some b => b | None => false end) all_events)
          today_cost
          (count (fun e => str_eqb (Event.severity e) (py "high")) all_events).

Section Main.

Variable str_lower : str -> str.
Variable ieq : char -> char -> bool.
Variable strptime : str -> str -> option (datetime * option timedelta).

(** [any(kw.lower() in full.lower() for kw in CONFLICT_KEYWORDS)] *)
Definition relevant (full : str) : bool :=
  existsb (fun kw => contains (str_lower kw) (str_lower full)) CONFLICT_KEYWORDS.

(** The loop of lines 137-164 over the items of all feeds, in order.
    [None] stands for an exception that ends the run. *)
Fixpoint ingest (clock : Clock.t) (cutoff : datetime)
    (existing : Dict.dict Event.t) (items : list Item.t) (i : nat)
    (seen_titles : list str) (new_events : list Event.t)
  : option (list Event.t) :=
  match items with
  | [] => Some new_events
  | item :: rest =>
      let title := Item.title item in
      if str_eqb title [] || existsb (str_eqb (firstn 40 title)) seen_titles
      then ingest clock cutoff existing rest (S i) seen_titles new_events
      else if negb (relevant (Item.full item))
      then ingest clock cutoff existing rest (S i) seen_titles new_events
      else
        let ts := parse_date strptime (Clock.at_item clock i) (Item.pub item) in
        if dt_ltb ts cutoff
        then ingest clock cutoff existing rest (S i) seen_titles new_events
        else
          let seen_titles := firstn 40 title :: seen_titles in
          let '(cost, cost_label) := estimate_cost ieq (Item.full item) in
          let sev := classify str_lower (Item.full item) in
          match event_id title (date_of ts) with
          | None => None
          | Some eid =>
              let e := Event.mk eid (firstn 200 title) (Item.source item)
                         (Item.link item) (firstn 300 (Item.desc item))
                         (isoformat ts) sev cost cost_label
                         (negb (Dict.mem eid existing)) None in
              ingest clock cutoff existing rest (S i) seen_titles
                     (new_events ++ [e])
          end
  end.

(** One run: the feed items and the stored collection give the new
    collection and its summary.  [None] stands for a run ended by an
    exception, which writes nothing.  The stored records are taken as a run
    writes them, with every key and its type: [load_existing] reads the id
    alone, and a record that lacks a key read after the merge makes the
    source raise [KeyError], which has no value here. *)
Definition main (clock : Clock.t) (items : list Item.t)
    (stored : option (list Event.t)) : option (list Event.t * Meta.t) :=
  match dt_sub (Clock.at_start clock) (td_days 7) with
  | None => None
  | Some cutoff =>
  let existing := load_existing stored in
  match ingest clock cutoff existing items 0 [] [] with
  | None => None
  | Some new_events =>
  match dt_sub (Clock.at_retention clock) (td_hours 72) with
  | None => None
  | Some recent =>
  match dt_sub (Clock.at_alert clock) (td_hours 3) with
  | None => None
  | Some alert =>
  let all_events :=
    final_collection new_events existing (isoformat recent) (isoformat alert) in
  Some (all_events, summary clock all_events)
  end end end end.

End Main.

(* ------------------------------------------------------------------ *)
(** * Notions the properties are stated with *)

(** A dictionary of events whose keys are the ids of its values. *)
Definition keyed (d : Dict.dict Event.t) : Prop :=
  forall k v, In (k, v) d -> Event.id v = k.

(** The stored events that line 168 adds to the candidates. *)
Definition carried (new_events : list Event.t) (existing : Dict.dict Event.t)
  : list (str * Event.t) :=
  filter (fun kv => negb (Dict.mem (fst kv) (Dict.of_items (pairs new_events))))
         existing.

(** The candidate a run holds for an id: the last one built with it. *)
Definition candidate (new_events : list Event.t) (k : str) : option Event.t :=
  find (fun e => str_eqb (Event.id e) k) (rev new_events).

(** [a] is at least as recent as [b], by the stored timestamps. *)
Definition newest_first : Event.t -> Event.t -> Prop :=
  descending Event.timestamp.

(** A timestamp this program writes: a UTC datetime in ISO format. *)
Definition wellformed (ts : str) : Prop :=
  exists d, valid d /\ ts = isoformat d.

(* ------------------------------------------------------------------ *)
(** * A concrete instance of the library parameters *)

Module Sample.

Local Open Scope Z_scope.

(** The value of a run of decimal digits. *)
Fixpoint number (s : str) (acc : Z) : option Z :=
  match s with
  | [] => Some acc
  | c :: s' =>
      if ((48 <=? c) && (c <=? 57))%N
      then number s' (acc * 10 + (Z.of_N c - 48))
      else None
  end.

(** [s[i:j]] *)
Definition slice (i j : nat) (s : str) : str := firstn (j - i) (skipn i s).

(** A [strptime] that reads one layout only, [YYYY-MM-DDTHH:MM:SS+HH:MM]
    (or [-HH:MM], the offset below 24 hours) under the format
    ["%Y-%m-%dT%H:%M:%S%z"], and fails otherwise.  It reads less than [datetime.strptime] does and agrees with
    it on what it reads; the program is evaluated with it on concrete
    items. *)
Definition strptime (s fmt : str) : option (datetime * option timedelta) :=
  if str_eqb fmt (py "%Y-%m-%dT%H:%M:%S%z") && (length s =? 25)%nat &&
     str_eqb (slice 4 5 s) (py "-") && str_eqb (slice 7 8 s) (py "-") &&
     str_eqb (slice 10 11 s) (py "T") && str_eqb (slice 13 14 s) (py ":") &&
     str_eqb (slice 16 17 s) (py ":") && str_eqb (slice 22 23 s) (py ":")
  then
    match number (slice 0 4 s) 0, number (slice 5 7 s) 0,
          number (slice 8 10 s) 0, number (slice 11 13 s) 0,
          number (slice 14 16 s) 0, number (slice 17 19 s) 0,
          number (slice 20 22 s) 0, number (slice 23 25 s) 0 with
    | Some y, Some m, Some d, Some hh, Some mm, Some ss, Some oh, Some om =>
        let fields := mkdt y m d hh mm ss 0 in
        let off := (oh * 3600 + om * 60) * 1000000 in
        if validb fields && (oh <=? 23) && (om <=? 59) then
          if str_eqb (slice 19 20 s) (py "+") then Some (fields, Some off)
          else if str_eqb (slice 19 20 s) (py "-") then Some (fields, Some (- off))
          else None
        else None
    | _, _, _, _, _, _, _, _ => None
    end
  else None.

(** A clock that gives the same reading at every place. *)
Definition steady (now : datetime) : Clock.t :=
  Clock.mk now (fun _ => now) now now (fun _ => now) now.

(** One run with the instances above. *)
Definition run (clock : Clock.t) (items : list Item.t)
    (stored : option (list Event.t)) : option (list Event.t * Meta.t) :=
  main ascii_lower Re.ascii_ieq strptime clock items stored.

(** A feed item with the given title, text and publication time. *)
Definition item (title desc pub : string) : Item.t :=
  Item.mk (py title) (py "https://example.org/a") (py desc) (py pub)
          (py title ++ py " " ++ py desc) (py "Reuters World").

(** A run on the morning of 2 January 2024, half a second past 10:00. *)
Definition now0 : datetime := mkdt 2024 1 2 10 0 0 500000.
Definition clock0 : Clock.t := steady now0.

(** Published at midnight of the day of the run. *)
Definition midnight_item : Item.t :=
  item "Missile strike kills dozens" "A missile hit."
       "2024-01-02T00:00:00+00:00".

(** Published half an hour before the run. *)
Definition fresh_item : Item.t :=
  item "Airstrike hits depot, hundreds flee" "Drone attack reported."
       "2024-01-02T09:30:00+00:00".

(** Published five days before the run: inside the seven days of the
    ingestion cutoff, outside the 72 hours of the retention window. *)
Definition old_item : Item.t :=
  item "Shelling reported near border" "Artillery fire."
       "2023-12-28T12:00:00+00:00".

Definition items0 : list Item.t := [midnight_item; fresh_item; old_item].

(** Stored by an earlier run, 26 hours before this one. *)
Definition kept_event : Event.t :=
  Event.mk (py "0123456789") (py "Clash at checkpoint") (py "BBC World")
           (py "https://example.org/b") (py "Clash.")
           (py "2024-01-01T08:00:00+00:00") (py "medium") 0 None
           true (Some true).

(** Stored by an earlier run, more than four days before this one. *)
Definition stale_event : Event.t :=
  Event.mk (py "abcdef0123") (py "Troops massacre villagers") (py "Al Jazeera")
           (py "https://example.org/c") (py "Dozens dead.")
           (py "2023-12-29T08:00:00+00:00") (py "high") 0 None
           false (Some false).

Definition stored0 : option (list Event.t) := Some [kept_event; stale_event].

(** The candidates of the run. *)
Definition candidates0 : list Event.t :=
  Eval vm_compute in
    match dt_sub now0 (td_days 7) with
    | Some cutoff =>
        match ingest ascii_lower Re.ascii_ieq strptime clock0 cutoff
                (load_existing stored0) items0 0 [] [] with
        | Some new_events => new_events
        | None => []
        end
    | None => []
    end.

(** What the run writes. *)
Definition final0 : list Event.t :=
  Eval vm_compute in
    match run clock0 items0 stored0 with
    | Some (final, _) => final
    | None => []
    end.

Definition meta0 : Meta.t :=
  Eval vm_compute in
    match run clock0 items0 stored0 with
    | Some (_, meta) => meta
    | None => Meta.mk [] 0 0 0 0
    end.

End Sample.

(* ------------------------------------------------------------------ *)
(** * Notions for the properties of the loop and of the summary *)

(** The key of [seen_titles] an event stands for: the first 40 characters
    of its title. *)
Definition prefix40 (e : Event.t) : str := firstn 40 (Event.title e).

(** 00:00:00 of the day of [d]. *)
Definition start_of_day (d : datetime) : datetime :=
  mkdt (year d) (month d) (day d) 0 0 0 0.

Section Built.

Variable str_lower : str -> str.
Variable ieq : char -> char -> bool.
Variable strptime : str -> str -> option (datetime * option timedelta).

(** The timestamp line 145 gives the i-th item of a run. *)
Definition item_time (clock : Clock.t) (i : nat) (item : Item.t) : datetime :=
  parse_date strptime (Clock.at_item clock i) (Item.pub item).

(** The item passes the tests of lines 142-146, the one on [seen_titles]
    apart: its title is not empty, its text has a conflict keyword and its
    timestamp is not before the cutoff. *)
Definition admissible (clock : Clock.t) (cutoff : datetime) (i : nat)
    (item : Item.t) : Prop :=
  Item.title item <> [] /\
  relevant str_lower (Item.full item) = true /\
  dt_ltb (item_time clock i item) cutoff = false.

(** [e] is the event lines 149-164 build from [item], the i-th of the
    run. *)
Definition built (clock : Clock.t) (existing : Dict.dict Event.t) (i : nat)
    (item : Item.t) (e : Event.t) : Prop :=
  event_id (Item.title item) (date_of (item_time clock i item)) =
    Some (Event.id e) /\
  Event.title e = firstn 200 (Item.title item) /\
  Event.source e = Item.source item /\
  Event.url e = Item.link item /\
  Event.description e = firstn 300 (Item.desc item) /\
  Event.timestamp e = isoformat (item_time clock i item) /\
  Event.severity e = classify str_lower (Item.full item) /\
  (Event.cost_usd e, Event.cost_label e) = estimate_cost ieq (Item.full item) /\
  Event.is_new e = negb (Dict.mem (Event.id e) existing) /\
  Event.is_breaking e = None.

(** [seen_titles] holds the title prefixes of the events built so far,
    which are pairwise distinct. *)
Definition seen_inv (seen : list str) (acc : list Event.t) : Prop :=
  (forall p, In p seen <-> In p (map prefix40 acc)) /\
  NoDup (map prefix40 acc).

(** What the loop has done when it ends with [out], started on [items] at
    index [i] with [seen] and [acc]: it has added events built from
    admissible items; the title prefixes stay distinct; every admissible
    item has an event with its prefix; and an admissible item whose prefix
    is new when it is reached has the event built from it. *)
Definition loop_post (clock : Clock.t) (cutoff : datetime)
    (existing : Dict.dict Event.t) (items : list Item.t) (i : nat)
    (seen : list str) (acc out : list Event.t) : Prop :=
  (exists added,
     out = acc ++ added /\
     Forall (fun e => exists j item,
               nth_error items j = Some item /\
               admissible clock cutoff (i + j) item /\
               built clock existing (i + j) item e) added) /\
  NoDup (map prefix40 out) /\
  (forall j item,
     nth_error items j = Some item ->
     admissible clock cutoff (i + j) item ->
     In (firstn 40 (Item.title item)) (map prefix40 out)) /\
  (forall j item,
     nth_error items j = Some item ->
     admissible clock cutoff (i + j) item ->
     ~ In (firstn 40 (Item.title item)) seen ->
     (forall j' item',
        (j' < j)%nat -> nth_error items j' = Some item' ->
        admissible clock cutoff (i + j') item' ->
        firstn 40 (Item.title item') <> firstn 40 (Item.title item)) ->
     exists e, In e out /\ built clock existing (i + j) item e).

End Built.

(** A run of white space. *)
Definition blank (ws : str) : Prop := Forall (fun c => is_space c = true) ws.

(* ------------------------------------------------------------------ *)
(** * Feed items ([fetch_feed]) *)

(** The part of [fetch_feed] that follows the download and the parsing of
    the XML: the element tree is given by the texts an item element holds
    under each tag. *)
Module Feed.

Definition lt : char := 60%N.   (* < *)
Definition gt : char := 62%N.   (* > *)

(** [re.sub(r"<[^>]+>", "", s)], read from left to right.  [inside] is
    [None] outside a tag; after a [<] it holds the characters read since,
    none of them [>].  A [>] closes the tag, which is dropped, unless it
    follows the [<] at once: the pattern wants a character in between, and
    [<>] stays.  A [<] that is never closed stays with what follows it. *)
Fixpoint strip_tags_from (inside : option str) (s : str) : str :=
  match s with
  | [] =>
      match inside with
      | None => []
      | Some b => lt :: b
      end
  | c :: s' =>
      match inside with
      | None =>
          if char_eqb c lt then strip_tags_from (Some []) s'
          else c :: strip_tags_from None s'
      | Some b =>
          if char_eqb c gt then
            match b with
            | [] => lt :: gt :: strip_tags_from None s'
            | _ :: _ => strip_tags_from None s'
            end
          else strip_tags_from (Some (b ++ [c])) s'
      end
  end.

Definition strip_tags (s : str) : str := strip_tags_from None s.

(** The text begins with a match of [<[^>]+>]. *)
Definition starts_tag (s : str) : Prop :=
  exists mid post, s = lt :: mid ++ gt :: post /\ mid <> [] /\ ~ In gt mid.

(** The pattern [<[^>]+>] matches somewhere in the text. *)
Definition has_tag (s : str) : Prop :=
  exists pre rest, s = pre ++ rest /\ starts_tag rest.

(** An item element: for a tag, [None] when [item.find(tag)] finds no
    child, otherwise the [text] of the child, which may be [None]. *)
Definition element : Type := str -> option (option str).

(** [g(tag)] *)
Definition g (item : element) (tag : str) : str :=
  match item tag with
  | Some (Some text) => strip text
  | Some None => strip []
  | None => []
  end.

(** [a or b] on strings *)
Definition or_else (a b : str) : str :=
  match a with
  | [] => b
  | _ :: _ => a
  end.

Definition atom (tag : string) : str :=
  py "{http://www.w3.org/2005/Atom}" ++ py tag.

(** Lines 97-105: the dictionary built for one item element. *)
Definition item_of (feed_name : str) (item : element) : Item.t :=
  let title := or_else (g item (py "title")) (g item (atom "title")) in
  let link := or_else (g item (py "link")) (g item (atom "link")) in
  let desc := or_else (g item (py "description"))
                (or_else (g item (py "summary")) (g item (atom "summary"))) in
  let pub := or_else (g item (py "pubDate"))
               (or_else (g item (py "published")) (g item (atom "published"))) in
  let desc := strip_tags desc in
  let full := title ++ py " " ++ desc in
  Item.mk title link desc pub full feed_name.

(** What the download and the parser give for one feed: [None] when either
    raises, otherwise the [item] elements and the Atom [entry] elements of
    the document, in document order. *)
Definition document : Type := option (list element * list element).

(** [fetch_feed]: the first 30 elements, the Atom entries when there is no
    [item]; an exception gives no items. *)
Definition fetch_feed (feed_name : str) (doc : document) : list Item.t :=
  match doc with
  | None => []
  | Some (rss, entries) =>
      let items := match rss with [] => entries | _ :: _ => rss end in
      map (item_of feed_name) (firstn 30 items)
  end.

(** The names of [FEEDS], in order. *)
Definition FEEDS : list str :=
  map py ["Reuters World"; "Reuters Top"; "BBC World"; "Al Jazeera";
          "AP Top News"; "France24"; "Defense News"; "Middle East Eye"]%string.

(** The items the loop of [main] goes through: those of each feed, feed
    after feed. *)
Definition all_items (feeds : list (str * document)) : list Item.t :=
  flat_map (fun feed => fetch_feed (fst feed) (snd feed)) feeds.

End Feed.

(* ------------------------------------------------------------------ *)
(** * A concrete feed *)

Module SampleFeed.

(** An [item] element with a title, a description in markup and a
    publication time. *)
Definition element0 : Feed.element :=
  fun tag =>
    if str_eqb tag (py "title")
    then Some (Some (py "  Missile strike kills dozens "))
    else if str_eqb tag (py "description")
    then Some (Some (py "<p>A missile hit the <b>depot</b>.</p>"))
    else if str_eqb tag (py "pubDate")
    then Some (Some (py "2024-01-02T09:00:00+00:00"))
    else if str_eqb tag (py "link")
    then Some None
    else None.

(** The first feed answers with one item, the second cannot be reached,
    the others are empty. *)
Definition docs0 : list Feed.document :=
  [Some ([element0], []); None; Some ([], []); Some ([], []);
   Some ([], []); Some ([], []); Some ([], []); Some ([], [])].

Definition items0 : list Item.t := Feed.all_items (combine Feed.FEEDS docs0).

Definition cutoff0 : datetime := mkdt 2023 12 26 10 0 0 500000.

Definition candidates0 : list Event.t :=
  Eval vm_compute in
    match ingest ascii_lower Re.ascii_ieq Sample.strptime Sample.clock0 cutoff0
            (load_existing Sample.stored0) items0 0 [] [] with
    | Some new_events => new_events
    | None => []
    end.

End SampleFeed.

(* ------------------------------------------------------------------ *)
(** * A stored collection beyond the cap *)

Module SampleCap.

(** A stored event stamped [k] seconds after noon of 1 January 2024. *)
Definition event_at (k : Z) : Event.t :=
  Event.mk (digits 10 k) (py "Clash at checkpoint") (py "BBC World")
           (py "https://example.org/b") (py "Clash.")
           (isoformat (mkdt 2024 1 1 12 (k / 60) (k mod 60) 0))
           (py "medium") 0 None false (Some false).

(** 201 stored events, the oldest first, all inside the retention window
    of the run of 2 January 2024. *)
Definition stored0 : option (list Event.t) :=
  Some (map (fun k => event_at (Z.of_nat k)) (seq 0 201)).

(** What the run writes when the feeds give nothing. *)
Definition final0 : list Event.t :=
  Eval vm_compute in
    match Sample.run Sample.clock0 [] stored0 with
    | Some (final, _) => final
    | None => []
    end.

Definition meta0 : Meta.t :=
  Eval vm_compute in
    match Sample.run Sample.clock0 [] stored0 with
    | Some (_, meta) => meta
    | None => Meta.mk [] 0 0 0 0
    end.

End SampleCap.

Unset Implicit Arguments.

(* ------------------------------------------------------------------ *)
(** * Facts about strings *)

Section StrFacts.

Lemma char_eqb_eq (a b : char) : char_eqb a b = true <-> a = b.
Proof. apply N.eqb_eq. Qed.

Lemma str_eqb_eq (a b : str) : str_eqb a b = true <-> a = b.
Proof.
  revert b; induction a as [|x a IH]; intros [|y b]; simpl;
    try (split; [discriminate | congruence]); try tauto.
  rewrite andb_true_iff, char_eqb_eq, IH. split.
  - intros [-> ->]; reflexivity.
  - intros H; injection H; auto.
Qed.

Lemma str_eqb_refl (a : str) : str_eqb a a = true.
Proof. apply str_eqb_eq; reflexivity. Qed.

Lemma startswith_spec (w t : str) :
  startswith w t = true <-> exists post, t = w ++ post.
Proof.
  revert t; induction w as [|c w IH]; intros t; simpl.
  - split; [intros _; exists t; reflexivity | reflexivity].
  - destruct t as [|d t].
    + split; [discriminate | intros [post H]; discriminate].
    + rewrite andb_true_iff, char_eqb_eq, IH. split.
      * intros [-> [post ->]]. exists post; reflexivity.
      * intros [post H]. injection H as -> ->. split; [reflexivity | eauto].
Qed.

Lemma contains_spec (w t : str) : contains w t = true <-> occurs w t.
Proof.
  unfold occurs. induction t as [|d t IH].
  - simpl. rewrite orb_false_r, startswith_spec. split.
    + intros [post H]. exists [], post. exact H.
    + intros [pre [post H]]. destruct pre; simpl in H.
      * exists post; exact H.
      * discriminate.
  - cbn [contains]. rewrite orb_true_iff, startswith_spec, IH. split.
    + intros [[post H] | [pre [post H]]].
      * exists [], post; exact H.
      * exists (d :: pre), post. simpl. rewrite H. reflexivity.
    + intros [pre [post H]]. destruct pre as [|p pre]; simpl in H.
      * left. exists post; exact H.
      * right. injection H as _ H. exists pre, post; exact H.
Qed.

End StrFacts.


(* ------------------------------------------------------------------ *)
(** * The order on strings *)

Section StrOrder.

Lemma str_compare_refl (a : str) : str_compare a a = Eq.
Proof.
  induction a as [|x a IH]; simpl; [reflexivity|].
  rewrite N.compare_refl. exact IH.
Qed.

Lemma str_compare_eq (a b : str) : str_compare a b = Eq <-> a = b.
Proof.
  split; [|intros ->; apply str_compare_refl].
  revert b; induction a as [|x a IH]; intros [|y b]; simpl;
    try discriminate; [reflexivity|].
  destruct (N.compare_spec x y) as [-> | | ]; try discriminate.
  intros H. f_equal. apply IH, H.
Qed.

Lemma str_compare_antisym (a b : str) :
  str_compare b a = CompOpp (str_compare a b).
Proof.
  revert b; induction a as [|x a IH]; intros [|y b]; simpl; try reflexivity.
  rewrite (N.compare_antisym x y).
  destruct (N.compare x y); simpl; auto.
Qed.

Lemma str_compare_lt_trans (a b c : str) :
  str_compare a b = Lt -> str_compare b c = Lt -> str_compare a c = Lt.
Proof.
  revert b c; induction a as [|x a IH]; intros [|y b] [|z c]; simpl;
    try discriminate; try reflexivity.
  destruct (N.compare_spec x y) as [-> | Hxy | Hxy]; try discriminate.
  - destruct (N.compare_spec y z) as [-> | Hyz | Hyz]; try discriminate.
    + apply IH.
    + reflexivity.
  - intros _.
    destruct (N.compare_spec y z) as [-> | Hyz | Hyz]; try discriminate.
    + intros _.
      destruct (N.compare_spec x z) as [-> | ? | ?]; try reflexivity; lia.
    + intros _.
      destruct (N.compare_spec x z) as [-> | ? | ?]; try reflexivity; lia.
Qed.

Lemma str_ge_refl (a : str) : str_ge a a.
Proof. unfold str_ge. rewrite str_compare_refl. discriminate. Qed.

Lemma str_ge_trans (a b c : str) : str_ge a b -> str_ge b c -> str_ge a c.
Proof.
  unfold str_ge. intros Hab Hbc Hac.
  destruct (str_compare a b) eqn:Eab; try congruence.
  - apply str_compare_eq in Eab. subst b. congruence.
  - destruct (str_compare b c) eqn:Ebc; try congruence.
    + apply str_compare_eq in Ebc. subst c. congruence.
    + assert (Hcb : str_compare c b = Lt)
        by (rewrite (str_compare_antisym b c), Ebc; reflexivity).
      assert (Hba : str_compare b a = Lt)
        by (rewrite (str_compare_antisym a b), Eab; reflexivity).
      pose proof (str_compare_lt_trans _ _ _ Hac Hcb) as Hab'.
      rewrite (str_compare_antisym b a), Hba in Hab'. discriminate.
Qed.

Lemma str_geb_ge (a b : str) : str_geb a b = true <-> str_ge a b.
Proof.
  unfold str_geb, str_ge. destruct (str_compare a b); split;
    congruence || discriminate || auto.
Qed.

Lemma str_not_lt_ge (a b : str) : str_compare a b = Lt -> str_ge b a.
Proof.
  unfold str_ge. intros H. rewrite (str_compare_antisym a b), H. discriminate.
Qed.

End StrOrder.

(* ------------------------------------------------------------------ *)
(** * Severity *)

Section ClassifyFacts.

Variable str_lower : str -> str.

Lemma count_in_nonneg (ws : list str) (t : str) : (0 <= count_in ws t)%Z.
Proof.
  unfold count_in. induction ws as [|w ws IH]; cbn [filter map fold_right];
    [lia|].
  destruct (contains w t); cbn [map fold_right]; lia.
Qed.

Lemma count_in_pos (ws : list str) (t : str) :
  (count_in ws t >=? 1)%Z = true <-> exists w, In w ws /\ occurs w t.
Proof.
  rewrite Z.geb_le. induction ws as [|w ws IH].
  - unfold count_in; simpl. split; [lia | intros [w [[] _]]].
  - pose proof (count_in_nonneg ws t) as Hn.
    unfold count_in in *. cbn [filter].
    destruct (contains w t) eqn:E; cbn [map fold_right].
    + split; [intros _ | lia].
      exists w. split; [left; reflexivity | apply contains_spec, E].
    + rewrite IH. split.
      * intros [w' [Hin Hoc]]. exists w'. split; [right; exact Hin | exact Hoc].
      * intros [w' [[<- | Hin] Hoc]].
        -- apply contains_spec in Hoc. congruence.
        -- exists w'. split; assumption.
Qed.

Lemma classify_high (text : str) :
  present str_lower HIGH_WORDS text -> classify str_lower text = py "high".
Proof.
  intros H. unfold classify. cbv zeta.
  apply count_in_pos in H. rewrite H. reflexivity.
Qed.

Lemma classify_not_high (text : str) :
  ~ present str_lower HIGH_WORDS text ->
  (count_in HIGH_WORDS (str_lower text) >=? 1)%Z = false.
Proof.
  intros H. destruct (count_in HIGH_WORDS (str_lower text) >=? 1)%Z eqn:E;
    [|reflexivity].
  apply count_in_pos in E. contradiction.
Qed.

(** C6.  [classify] is a function of the text alone with three possible
    results, decided in order of priority by whether a high-severity
    keyword, then a medium-severity keyword, occurs in the lower-cased text:
    a high keyword gives "high" whatever else occurs, otherwise a medium
    keyword gives "medium", otherwise the result is "low".  Two texts with
    the same presence of high and medium keywords get the same result,
    however many keywords occur. *)
Theorem classify_priority (text : str) :
  (present str_lower HIGH_WORDS text -> classify str_lower text = py "high") /\
  (~ present str_lower HIGH_WORDS text ->
   present str_lower MEDIUM_WORDS text ->
   classify str_lower text = py "medium") /\
  (~ present str_lower HIGH_WORDS text ->
   ~ present str_lower MEDIUM_WORDS text ->
   classify str_lower text = py "low") /\
  (forall text',
     (present str_lower HIGH_WORDS text <-> present str_lower HIGH_WORDS text') ->
     (present str_lower MEDIUM_WORDS text <->
      present str_lower MEDIUM_WORDS text') ->
     classify str_lower text = classify str_lower text').
Proof.
  assert (Hm : forall t, ~ present str_lower HIGH_WORDS t ->
             present str_lower MEDIUM_WORDS t ->
             classify str_lower t = py "medium").
  { intros t Hh Hmed. unfold classify. cbv zeta.
    rewrite (classify_not_high _ Hh).
    apply count_in_pos in Hmed. rewrite Hmed. reflexivity. }
  assert (Hl : forall t, ~ present str_lower HIGH_WORDS t ->
             ~ present str_lower MEDIUM_WORDS t ->
             classify str_lower t = py "low").
  { intros t Hh Hmed. unfold classify. cbv zeta.
    rewrite (classify_not_high _ Hh).
    destruct (count_in MEDIUM_WORDS (str_lower t) >=? 1)%Z eqn:E;
      [|reflexivity].
    apply count_in_pos in E. contradiction. }
  split; [apply classify_high|].
  split; [apply Hm|]. split; [apply Hl|].
  intros text' Hh Hmed.
  destruct (count_in HIGH_WORDS (str_lower text) >=? 1)%Z eqn:E1.
  - apply count_in_pos in E1.
    rewrite (classify_high _ E1), (classify_high _ (proj1 Hh E1)). reflexivity.
  - assert (N1 : ~ present str_lower HIGH_WORDS text).
    { intros P. apply count_in_pos in P. congruence. }
    assert (N1' : ~ present str_lower HIGH_WORDS text') by tauto.
    destruct (count_in MEDIUM_WORDS (str_lower text) >=? 1)%Z eqn:E2.
    + apply count_in_pos in E2.
      rewrite (Hm _ N1 E2), (Hm _ N1' (proj1 Hmed E2)). reflexivity.
    + assert (N2 : ~ present str_lower MEDIUM_WORDS text).
      { intros P. apply count_in_pos in P. congruence. }
      assert (N2' : ~ present str_lower MEDIUM_WORDS text') by tauto.
      rewrite (Hl _ N1 N2), (Hl _ N1' N2'). reflexivity.
Qed.

End ClassifyFacts.

(* ------------------------------------------------------------------ *)
(** * The matcher finds what the pattern matches *)

Section MatcherFacts.

Variable ieq : char -> char -> bool.

Local Abbreviation matches := (Re.matches ieq).
Local Abbreviation match_at := (Re.match_at ieq).

Lemma matches_eps_inv (s : str) : matches Re.Eps s -> s = [].
Proof. intros H; inversion H; reflexivity. Qed.

Lemma matches_upto0_inv (a : Re.regex) (s : str) :
  matches (Re.Upto 0 a) s -> s = [].
Proof. intros H; inversion H; reflexivity. Qed.

Lemma match_at_upto_succ (n : nat) (a : Re.regex) (k : str -> bool) (s : str) :
  match_at (Re.Upto (S n) a) k s =
  match_at a (match_at (Re.Upto n a) k) s || k s.
Proof. reflexivity. Qed.

Lemma match_at_spec (r : Re.regex) :
  forall (k : str -> bool) (s : str),
    match_at r k s = true <->
    exists s1 s2, s = s1 ++ s2 /\ matches r s1 /\ k s2 = true.
Proof.
  induction r as [ | p | | a IHa b IHb | a IHa b IHb | n a IHa ]; intros k s.
  - (* Eps *)
    simpl. split.
    + intros H. exists [], s. repeat split; [constructor | exact H].
    + intros [s1 [s2 [-> [Hm Hk]]]]. apply matches_eps_inv in Hm. subst s1.
      exact Hk.
  - (* Lit *)
    simpl. destruct s as [|c s'].
    + split; [discriminate|].
      intros [s1 [s2 [Hs [Hm _]]]]. inversion Hm; subst. discriminate.
    + rewrite andb_true_iff. split.
      * intros [Hc Hk]. exists [c], s'. repeat split; [constructor; exact Hc | exact Hk].
      * intros [s1 [s2 [Hs [Hm Hk]]]]. inversion Hm; subst.
        simpl in Hs. injection Hs as -> ->. split; assumption.
  - (* Any *)
    simpl. destruct s as [|c s'].
    + split; [discriminate|].
      intros [s1 [s2 [Hs [Hm _]]]]. inversion Hm; subst. discriminate.
    + rewrite andb_true_iff, negb_true_iff. split.
      * intros [Hc Hk]. exists [c], s'. repeat split; [|exact Hk].
        constructor. intros ->. unfold char_eqb in Hc.
        rewrite N.eqb_refl in Hc. discriminate.
      * intros [s1 [s2 [Hs [Hm Hk]]]]. inversion Hm; subst.
        simpl in Hs. injection Hs as -> ->. split; [|exact Hk].
        apply N.eqb_neq. assumption.
  - (* Seq *)
    simpl. rewrite IHa. split.
    + intros [s1 [s' [-> [Ha Hb]]]]. apply IHb in Hb.
      destruct Hb as [s2 [s3 [-> [Hb Hk]]]].
      exists (s1 ++ s2), s3. rewrite app_assoc.
      repeat split; [constructor; assumption | exact Hk].
    + intros [s12 [s3 [-> [Hm Hk]]]]. inversion Hm; subst.
      exists s1, (s2 ++ s3). rewrite app_assoc. repeat split; [assumption|].
      apply IHb. exists s2, s3. repeat split; assumption.
  - (* Alt *)
    simpl. rewrite orb_true_iff, IHa, IHb. split.
    + intros [[s1 [s2 [-> [Hm Hk]]]] | [s1 [s2 [-> [Hm Hk]]]]];
        exists s1, s2; repeat split; try assumption;
        [apply Re.MAltL | apply Re.MAltR]; assumption.
    + intros [s1 [s2 [-> [Hm Hk]]]]. inversion Hm; subst;
        [left | right]; exists s1, s2; repeat split; assumption.
  - (* Upto *)
    revert s. induction n as [|n IHn]; intros s.
    + simpl. split.
      * intros H. exists [], s. repeat split; [constructor | exact H].
      * intros [s1 [s2 [-> [Hm Hk]]]]. apply matches_upto0_inv in Hm.
        subst s1. exact Hk.
    + rewrite match_at_upto_succ, orb_true_iff, IHa. split.
      * intros [[s1 [s' [-> [Ha Hu]]]] | Hk].
        -- apply IHn in Hu. destruct Hu as [s2 [s3 [-> [Hu Hk]]]].
           exists (s1 ++ s2), s3. rewrite app_assoc.
           repeat split; [constructor; assumption | exact Hk].
        -- exists [], s. repeat split; [constructor | exact Hk].
      * intros [s12 [s3 [-> [Hm Hk]]]]. inversion Hm; subst.
        -- right. exact Hk.
        -- left. exists s1, (s2 ++ s3). rewrite app_assoc.
           repeat split; [assumption|].
           apply IHn. exists s2, s3. repeat split; assumption.
Qed.

Lemma search_spec (r : Re.regex) (text : str) :
  Re.search ieq r text = true <-> Re.found ieq r text.
Proof.
  unfold Re.found. induction text as [|c text IH].
  - simpl. rewrite orb_false_r, match_at_spec. split.
    + intros [s1 [s2 [Hs [Hm _]]]]. exists [], s1, s2. split; assumption.
    + intros [pre [mid [post [Hs Hm]]]].
      destruct pre; [|discriminate]. exists mid, post. repeat split; assumption.
  - cbn [Re.search]. rewrite orb_true_iff, match_at_spec, IH. split.
    + intros [[s1 [s2 [Hs [Hm _]]]] | [pre [mid [post [Hs Hm]]]]].
      * exists [], s1, s2. split; assumption.
      * exists (c :: pre), mid, post. split; [simpl; rewrite Hs; reflexivity | assumption].
    + intros [pre [mid [post [Hs Hm]]]]. destruct pre as [|p pre].
      * left. exists mid, post. repeat split; assumption.
      * right. simpl in Hs. injection Hs as _ Hs. exists pre, mid, post.
        split; assumption.
Qed.

Lemma search_false (r : Re.regex) (text : str) :
  Re.search ieq r text = false <-> ~ Re.found ieq r text.
Proof.
  rewrite <- search_spec. destruct (Re.search ieq r text); split;
    congruence || auto.
Qed.

(* ------------------------------------------------------------------ *)
(** * Cost estimation *)

Lemma estimate_cost_in_first (table : list (Re.regex * Z * str)) (text : str) :
  forall i pattern cost label,
    nth_error table i = Some (pattern, cost, label) ->
    Re.found ieq pattern text ->
    (forall j p c l, (j < i)%nat -> nth_error table j = Some (p, c, l) ->
                     ~ Re.found ieq p text) ->
    estimate_cost_in ieq table text = (cost, Some label).
Proof.
  induction table as [|[[p0 c0] l0] table IH]; intros i pattern cost label Hn Hf Hbefore.
  - destruct i; discriminate.
  - destruct i as [|i]; simpl in Hn |- *.
    + injection Hn as -> -> ->.
      apply search_spec in Hf. rewrite Hf. reflexivity.
    + assert (H0 : Re.search ieq p0 text = false).
      { apply search_false. apply (Hbefore 0%nat p0 c0 l0); [lia | reflexivity]. }
      rewrite H0. apply (IH i pattern cost label); try assumption.
      intros j p c l Hj Hnj. apply (Hbefore (S j) p c l); [lia | exact Hnj].
Qed.

Lemma estimate_cost_in_none (table : list (Re.regex * Z * str)) (text : str) :
  (forall p c l, In (p, c, l) table -> ~ Re.found ieq p text) ->
  estimate_cost_in ieq table text = (0%Z, None).
Proof.
  induction table as [|[[p0 c0] l0] table IH]; intros Hno; simpl.
  - reflexivity.
  - assert (H0 : Re.search ieq p0 text = false).
    { apply search_false. apply (Hno p0 c0 l0). left; reflexivity. }
    rewrite H0. apply IH. intros p c l Hin. apply (Hno p c l). right; exact Hin.
Qed.

Lemma estimate_cost_in_earliest (table : list (Re.regex * Z * str)) (text : str) :
  forall i pattern cost label,
    nth_error table i = Some (pattern, cost, label) ->
    Re.found ieq pattern text ->
    exists j p c l,
      (j <= i)%nat /\ nth_error table j = Some (p, c, l) /\
      Re.found ieq p text /\
      (forall j' p' c' l', (j' < j)%nat -> nth_error table j' = Some (p', c', l') ->
                           ~ Re.found ieq p' text) /\
      estimate_cost_in ieq table text = (c, Some l).
Proof.
  induction table as [|[[p0 c0] l0] table IH]; intros i pattern cost label Hn Hf.
  - destruct i; discriminate.
  - simpl. destruct (Re.search ieq p0 text) eqn:E0.
    + exists 0%nat, p0, c0, l0.
      split; [lia|]. split; [reflexivity|].
      split; [apply search_spec, E0|]. split; [|reflexivity].
      intros j' p' c' l' Hj. lia.
    + destruct i as [|i]; simpl in Hn.
      * injection Hn as -> -> ->. apply search_spec in Hf. congruence.
      * destruct (IH i pattern cost label Hn Hf)
          as [j [p [c [l [Hj [Hnj [Hfj [Hfirst Heq]]]]]]]].
        exists (S j), p, c, l.
        split; [lia|]. split; [exact Hnj|]. split; [exact Hfj|].
        split; [|exact Heq].
        intros j' p' c' l' Hlt Hn'. destruct j' as [|j']; simpl in Hn'.
        -- injection Hn' as <- <- <-. apply search_false, E0.
        -- apply (Hfirst j' p' c' l'); [lia | exact Hn'].
Qed.

Lemma specific_labels (j : nat) (p : Re.regex) (c : Z) (l : str) :
  (j < specific_entries)%nat ->
  nth_error WEAPON_COSTS j = Some (p, c, l) ->
  l <> py "Missile (generic est.)" /\ l <> py "Bomb/munition".
Proof.
  unfold specific_entries. intros Hj Hn.
  do 13 (destruct j as [|j];
         [ injection Hn as _ _ <-; split; intro Hl; vm_compute in Hl; discriminate
         | ]).
  lia.
Qed.

Lemma generic_entries :
  nth_error WEAPON_COSTS 13 =
    Some (w "missile", 500000%Z, py "Missile (generic est.)") /\
  nth_error WEAPON_COSTS 14 = Some (w "bomb", 50000%Z, py "Bomb/munition").
Proof. split; reflexivity. Qed.

(** C1.  [estimate_cost] returns the cost and label of the first entry of
    [WEAPON_COSTS], in table order, whose pattern is found in the text with
    case ignored; with no such entry it returns cost 0 and no label.  A text
    in which one of the entries before the generic "missile" entry is found
    gets the cost and label of the earliest such entry, never the label of
    the generic "missile" or "bomb" entry, also when those patterns are
    found in it. *)
Theorem estimate_cost_first_match (text : str) :
  (forall i pattern cost label,
     nth_error WEAPON_COSTS i = Some (pattern, cost, label) ->
     Re.found ieq pattern text ->
     (forall j p c l, (j < i)%nat -> nth_error WEAPON_COSTS j = Some (p, c, l) ->
                      ~ Re.found ieq p text) ->
     estimate_cost ieq text = (cost, Some label)) /\
  ((forall p c l, In (p, c, l) WEAPON_COSTS -> ~ Re.found ieq p text) ->
   estimate_cost ieq text = (0%Z, None)) /\
  (forall i pattern cost label,
     (i < specific_entries)%nat ->
     nth_error WEAPON_COSTS i = Some (pattern, cost, label) ->
     Re.found ieq pattern text ->
     Re.found ieq (w "missile") text \/ Re.found ieq (w "bomb") text ->
     exists j p c l,
       (j <= i)%nat /\ nth_error WEAPON_COSTS j = Some (p, c, l) /\
       Re.found ieq p text /\
       estimate_cost ieq text = (c, Some l) /\
       l <> py "Missile (generic est.)" /\ l <> py "Bomb/munition").
Proof.
  split; [|split].
  - intros i pattern cost label. apply estimate_cost_in_first.
  - apply estimate_cost_in_none.
  - intros i pattern cost label Hi Hn Hf _.
    destruct (estimate_cost_in_earliest WEAPON_COSTS text i _ _ _ Hn Hf)
      as [j [p [c [l [Hj [Hnj [Hfj [_ Heq]]]]]]]].
    exists j, p, c, l. repeat split; try assumption;
      apply (specific_labels j p c l); try assumption; lia.
Qed.

End MatcherFacts.

(* ------------------------------------------------------------------ *)
(** * [isoformat] keeps the order of datetimes *)

Section IsoOrder.

Local Open Scope Z_scope.

Lemma validb_valid (d : datetime) : validb d = true <-> valid d.
Proof.
  unfold validb, valid, inrange.
  rewrite !andb_true_iff, !Z.leb_le. lia.
Qed.

Lemma days_in_month_le (y m : Z) : 1 <= m <= 12 -> 28 <= days_in_month y m <= 31.
Proof.
  intros Hm. unfold days_in_month.
  assert (m = 1 \/ m = 2 \/ m = 3 \/ m = 4 \/ m = 5 \/ m = 6 \/ m = 7 \/
          m = 8 \/ m = 9 \/ m = 10 \/ m = 11 \/ m = 12) as Hc by lia.
  destruct (is_leap y);
    repeat (destruct Hc as [-> | Hc]; [simpl; lia|]); subst; simpl; lia.
Qed.

Lemma digit_compare (x y : Z) :
  0 <= x -> 0 <= y -> N.compare (digit x) (digit y) = Z.compare x y.
Proof.
  intros Hx Hy. unfold digit.
  rewrite Z2N.inj_compare by lia.
  rewrite Z.add_compare_mono_l. reflexivity.
Qed.

Lemma digits_compare (k : nat) :
  forall (x y : Z) (r1 r2 : str),
    0 <= x < 10 ^ Z.of_nat k -> 0 <= y < 10 ^ Z.of_nat k ->
    str_compare (digits k x ++ r1) (digits k y ++ r2) =
    match x ?= y with Eq => str_compare r1 r2 | c => c end.
Proof.
  induction k as [|k IH]; intros x y r1 r2 Hx Hy.
  - simpl in Hx, Hy. assert (x = 0) by lia. assert (y = 0) by lia. subst.
    reflexivity.
  - cbn [digits app str_compare].
    set (p := 10 ^ Z.of_nat k) in *.
    assert (Hp : 0 < p) by (subst p; apply Z.pow_pos_nonneg; lia).
    assert (Hpow : 10 ^ Z.of_nat (S k) = 10 * p).
    { subst p. rewrite Nat2Z.inj_succ, Z.pow_succ_r by lia. reflexivity. }
    rewrite Hpow in Hx, Hy.
    pose proof (Z.div_mod x p ltac:(lia)) as Ex.
    pose proof (Z.div_mod y p ltac:(lia)) as Ey.
    pose proof (Z.mod_pos_bound x p Hp) as Bx.
    pose proof (Z.mod_pos_bound y p Hp) as By.
    assert (Qx : 0 <= x / p) by (apply Z.div_pos; lia).
    assert (Qy : 0 <= y / p) by (apply Z.div_pos; lia).
    rewrite digit_compare by assumption.
    destruct (Z.compare_spec (x / p) (y / p)) as [Heq | Hlt | Hgt].
    + rewrite IH by assumption.
      replace (x ?= y) with (x mod p ?= y mod p); [reflexivity|].
      destruct (Z.compare_spec (x mod p) (y mod p)) as [E | L | G];
        symmetry; [apply Z.compare_eq_iff | apply Z.compare_lt_iff
                  | apply Z.compare_gt_iff]; nia.
    + symmetry. replace (x ?= y) with Lt; [reflexivity|].
      symmetry. apply Z.compare_lt_iff. nia.
    + symmetry. replace (x ?= y) with Gt; [reflexivity|].
      symmetry. apply Z.compare_gt_iff. nia.
Qed.

Lemma str_compare_cons (c : char) (r1 r2 : str) :
  str_compare (c :: r1) (c :: r2) = str_compare r1 r2.
Proof. simpl. rewrite N.compare_refl. reflexivity. Qed.

Lemma fraction_compare (u1 u2 : Z) (tz : str) :
  0 <= u1 < 1000000 -> 0 <= u2 < 1000000 ->
  hd 0%N tz = 43%N ->
  str_compare ((if u1 =? 0 then [] else py "." ++ digits 6 u1) ++ tz)
              ((if u2 =? 0 then [] else py "." ++ digits 6 u2) ++ tz) =
  (u1 ?= u2).
Proof.
  intros H1 H2 Htz.
  destruct (Z.eqb_spec u1 0) as [-> | N1]; destruct (Z.eqb_spec u2 0) as [-> | N2].
  - simpl. apply str_compare_refl.
  - destruct tz as [|c tz]; [discriminate|]. simpl in Htz. subst c.
    change (py "." ++ digits 6 u2) with (46%N :: digits 6 u2).
    cbn [app str_compare]. change (N.compare 43 46) with Lt. cbv iota.
    symmetry. apply Z.compare_lt_iff. lia.
  - destruct tz as [|c tz]; [discriminate|]. simpl in Htz. subst c.
    change (py "." ++ digits 6 u1) with (46%N :: digits 6 u1).
    cbn [app str_compare]. change (N.compare 46 43) with Gt. cbv iota.
    symmetry. apply Z.compare_gt_iff. lia.
  - change (py "." ++ digits 6 u1) with (46%N :: digits 6 u1).
    change (py "." ++ digits 6 u2) with (46%N :: digits 6 u2).
    cbn [app]. rewrite str_compare_cons.
    rewrite digits_compare by (simpl; lia).
    rewrite str_compare_refl. destruct (u1 ?= u2); reflexivity.
Qed.

Lemma isoformat_unfold (d : datetime) :
  isoformat d =
  digits 4 (year d) ++ 45%N :: digits 2 (month d) ++ 45%N ::
  digits 2 (day d) ++ 84%N :: digits 2 (hour d) ++ 58%N ::
  digits 2 (minute d) ++ 58%N :: digits 2 (second d) ++
  (if microsecond d =? 0 then [] else py "." ++ digits 6 (microsecond d)) ++
  py "+00:00".
Proof.
  unfold isoformat, format_time, date_str, date_of.
  change (py "-") with [45%N]. change (py "T") with [84%N].
  change (py ":") with [58%N].
  repeat (rewrite <- app_assoc; cbn [app]). reflexivity.
Qed.

(** Comparing two formatted UTC datetimes as strings is comparing the
    datetimes. *)
Lemma isoformat_compare (a b : datetime) :
  valid a -> valid b ->
  str_compare (isoformat a) (isoformat b) = dt_compare a b.
Proof.
  intros Va Vb.
  pose proof Va as (Ya & Ma & Da & Ha & Mia & Sa & Ua).
  pose proof Vb as (Yb & Mb & Db & Hb & Mib & Sb & Ub).
  pose proof (days_in_month_le (year a) (month a) Ma).
  pose proof (days_in_month_le (year b) (month b) Mb).
  rewrite !isoformat_unfold. unfold dt_compare.
  rewrite digits_compare by (simpl; lia).
  destruct (year a ?= year b); try reflexivity.
  rewrite str_compare_cons, digits_compare by (simpl; lia).
  destruct (month a ?= month b); try reflexivity.
  rewrite str_compare_cons, digits_compare by (simpl; lia).
  destruct (day a ?= day b); try reflexivity.
  rewrite str_compare_cons, digits_compare by (simpl; lia).
  destruct (hour a ?= hour b); try reflexivity.
  rewrite str_compare_cons, digits_compare by (simpl; lia).
  destruct (minute a ?= minute b); try reflexivity.
  rewrite str_compare_cons, digits_compare by (simpl; lia).
  destruct (second a ?= second b); try reflexivity.
  apply fraction_compare; try assumption. reflexivity.
Qed.

Lemma isoformat_ge (a b : datetime) :
  valid a -> valid b -> (str_ge (isoformat a) (isoformat b) <-> dt_ge a b).
Proof.
  intros Va Vb. unfold str_ge, dt_ge. rewrite isoformat_compare by assumption.
  reflexivity.
Qed.

End IsoOrder.

(* ------------------------------------------------------------------ *)
(** * The calendar: ordinals, instants and [timedelta] arithmetic *)

Section Calendar.

Local Open Scope Z_scope.

Lemma dby_mono_step (y : Z) :
  days_before_year y + 365 <= days_before_year (y + 1) <= days_before_year y + 366.
Proof.
  unfold days_before_year. cbv zeta.
  replace (y + 1 - 1) with (y - 1 + 1) by lia.
  Z.div_mod_to_equations. lia.
Qed.

Lemma dby_step_leap (y : Z) :
  days_before_year (y + 1) = days_before_year y + 365 + (if is_leap y then 1 else 0).
Proof.
  unfold days_before_year, is_leap. cbv zeta.
  replace (y + 1 - 1) with (y - 1 + 1) by lia.
  destruct (Z.eqb_spec (y mod 4) 0); destruct (Z.eqb_spec (y mod 100) 0);
  destruct (Z.eqb_spec (y mod 400) 0); cbn [andb orb negb];
  Z.div_mod_to_equations; lia.
Qed.

Lemma dby_mono (y1 y2 : Z) :
  y1 <= y2 -> days_before_year y1 + 365 * (y2 - y1) <= days_before_year y2.
Proof.
  intros H. pattern y2. apply (Zlt_lower_bound_ind _ y1); [|exact H].
  clear y2 H. intros y2 IH Hle.
  destruct (Z.eq_dec y1 y2) as [-> | Hne]; [lia|].
  specialize (IH (y2 - 1) ltac:(lia)).
  pose proof (dby_mono_step (y2 - 1)) as Hs.
  replace (y2 - 1 + 1) with y2 in Hs by lia. lia.
Qed.

Ltac month_tables :=
  cbv [days_before_month days_in_month DAYS_BEFORE_MONTH DAYS_IN_MONTH
       Z.gtb Z.eqb Z.compare Pos.compare Pos.compare_cont Pos.eqb
       andb orb negb] in *.

Ltac each_month m :=
  let Hc := fresh "Hc" in
  assert (m = 1 \/ m = 2 \/ m = 3 \/ m = 4 \/ m = 5 \/ m = 6 \/ m = 7 \/
          m = 8 \/ m = 9 \/ m = 10 \/ m = 11 \/ m = 12) as Hc by lia;
  destruct Hc as [->|[->|[->|[->|[->|[->|[->|[->|[->|[->|[->| ->]]]]]]]]]]].

Lemma day_of_year_bounds (y m d : Z) :
  1 <= m <= 12 -> 1 <= d <= days_in_month y m ->
  1 <= days_before_month y m + d <= 365 + (if is_leap y then 1 else 0).
Proof.
  intros Hm Hd. each_month m; month_tables; destruct (is_leap y); lia.
Qed.

Lemma day_of_year_compare (y m1 d1 m2 d2 : Z) :
  1 <= m1 <= 12 -> 1 <= d1 <= days_in_month y m1 ->
  1 <= m2 <= 12 -> 1 <= d2 <= days_in_month y m2 ->
  (days_before_month y m1 + d1 ?= days_before_month y m2 + d2) =
  match m1 ?= m2 with Eq => d1 ?= d2 | c => c end.
Proof.
  intros Hm1 Hd1 Hm2 Hd2.
  destruct (Z.compare_spec m1 m2) as [-> | Hlt | Hgt].
  - apply Z.add_compare_mono_l.
  - apply Z.compare_lt_iff.
    each_month m1; each_month m2; try lia;
      month_tables; destruct (is_leap y); lia.
  - apply Z.compare_gt_iff.
    each_month m1; each_month m2; try lia;
      month_tables; destruct (is_leap y); lia.
Qed.

Lemma ymd2ord_compare (y1 m1 d1 y2 m2 d2 : Z) :
  1 <= m1 <= 12 -> 1 <= d1 <= days_in_month y1 m1 ->
  1 <= m2 <= 12 -> 1 <= d2 <= days_in_month y2 m2 ->
  (ymd2ord y1 m1 d1 ?= ymd2ord y2 m2 d2) =
  match y1 ?= y2 with
  | Eq => match m1 ?= m2 with Eq => d1 ?= d2 | c => c end
  | c => c
  end.
Proof.
  intros Hm1 Hd1 Hm2 Hd2. unfold ymd2ord.
  pose proof (day_of_year_bounds y1 m1 d1 Hm1 Hd1) as B1.
  pose proof (day_of_year_bounds y2 m2 d2 Hm2 Hd2) as B2.
  destruct (Z.compare_spec y1 y2) as [-> | Hlt | Hgt].
  - rewrite <- !Z.add_assoc, Z.add_compare_mono_l.
    apply day_of_year_compare; assumption.
  - apply Z.compare_lt_iff.
    pose proof (dby_step_leap y1) as S1.
    pose proof (dby_mono (y1 + 1) y2 ltac:(lia)). 
    destruct (is_leap y1); lia.
  - apply Z.compare_gt_iff.
    pose proof (dby_step_leap y2) as S2.
    pose proof (dby_mono (y2 + 1) y1 ltac:(lia)).
    destruct (is_leap y2); lia.
Qed.

Lemma mixed_radix_compare (B q1 r1 q2 r2 : Z) :
  0 <= r1 < B -> 0 <= r2 < B ->
  (q1 * B + r1 ?= q2 * B + r2) =
  match q1 ?= q2 with Eq => r1 ?= r2 | c => c end.
Proof.
  intros H1 H2.
  destruct (Z.compare_spec q1 q2) as [-> | Hlt | Hgt].
  - apply Z.add_compare_mono_l.
  - apply Z.compare_lt_iff. nia.
  - apply Z.compare_gt_iff. nia.
Qed.

Lemma dt_compare_wall (a b : datetime) :
  valid a -> valid b ->
  dt_compare a b = (wall_micros a ?= wall_micros b).
Proof.
  intros (Ya & Ma & Da & Ha & Mia & Sa & Ua) (Yb & Mb & Db & Hb & Mib & Sb & Ub).
  unfold wall_micros, toordinal, dt_compare.
  rewrite mixed_radix_compare by lia.
  replace (ymd2ord (year a) (month a) (day a) * 86400 + hour a * 3600 +
           minute a * 60 + second a)
    with (((ymd2ord (year a) (month a) (day a) * 24 + hour a) * 60 + minute a) * 60
          + second a) by lia.
  replace (ymd2ord (year b) (month b) (day b) * 86400 + hour b * 3600 +
           minute b * 60 + second b)
    with (((ymd2ord (year b) (month b) (day b) * 24 + hour b) * 60 + minute b) * 60
          + second b) by lia.
  rewrite !mixed_radix_compare by lia.
  rewrite ymd2ord_compare by assumption.
  destruct (year a ?= year b); try reflexivity.
  destruct (month a ?= month b); try reflexivity.
  destruct (day a ?= day b); try reflexivity.
  destruct (hour a ?= hour b); try reflexivity.
  destruct (minute a ?= minute b); reflexivity.
Qed.

(** A year written in the mixed radix of the leap-year cycle. *)
Lemma dby_cycle (a b c e : Z) :
  0 <= b <= 3 -> 0 <= c <= 24 -> 0 <= e <= 3 ->
  days_before_year (400 * a + 100 * b + 4 * c + e + 1) =
  146097 * a + 36524 * b + 1461 * c + 365 * e.
Proof.
  intros Hb Hc He. unfold days_before_year. cbv zeta.
  replace (400 * a + 100 * b + 4 * c + e + 1 - 1)
    with (400 * a + 100 * b + 4 * c + e) by lia.
  Z.div_mod_to_equations. lia.
Qed.

Lemma is_leap_cycle (a b c e : Z) :
  0 <= b <= 3 -> 0 <= c <= 24 -> 0 <= e <= 3 ->
  is_leap (400 * a + 100 * b + 4 * c + e + 1) =
  (e =? 3) && (negb (c =? 24) || (b =? 3)).
Proof.
  intros Hb Hc He. unfold is_leap.
  destruct (Z.eqb_spec e 3); destruct (Z.eqb_spec c 24); destruct (Z.eqb_spec b 3);
  destruct (Z.eqb_spec ((400 * a + 100 * b + 4 * c + e + 1) mod 4) 0);
  destruct (Z.eqb_spec ((400 * a + 100 * b + 4 * c + e + 1) mod 100) 0);
  destruct (Z.eqb_spec ((400 * a + 100 * b + 4 * c + e + 1) mod 400) 0);
  cbn [andb orb negb]; try reflexivity; exfalso;
  Z.div_mod_to_equations; lia.
Qed.

Lemma ord2ymd_spec (n : Z) :
  1 <= n <= MAXORDINAL ->
  exists y m d,
    ord2ymd n = (y, m, d) /\
    1 <= y <= 9999 /\ 1 <= m <= 12 /\ 1 <= d <= days_in_month y m /\
    ymd2ord y m d = n.
Proof.
  intros Hn. unfold ord2ymd, MAXORDINAL, DI400Y, DI100Y, DI4Y in *. cbv zeta.
  pose proof (Z.div_mod (n - 1) 146097 ltac:(lia)) as E1.
  pose proof (Z.mod_pos_bound (n - 1) 146097 ltac:(lia)) as B1.
  set (a := (n - 1) / 146097) in *. set (r400 := (n - 1) mod 146097) in *.
  pose proof (Z.div_mod r400 36524 ltac:(lia)) as E2.
  pose proof (Z.mod_pos_bound r400 36524 ltac:(lia)) as B2.
  set (b := r400 / 36524) in *. set (r100 := r400 mod 36524) in *.
  pose proof (Z.div_mod r100 1461 ltac:(lia)) as E3.
  pose proof (Z.mod_pos_bound r100 1461 ltac:(lia)) as B3.
  set (c := r100 / 1461) in *. set (r4 := r100 mod 1461) in *.
  pose proof (Z.div_mod r4 365 ltac:(lia)) as E4.
  pose proof (Z.mod_pos_bound r4 365 ltac:(lia)) as B4.
  set (e := r4 / 365) in *. set (r1 := r4 mod 365) in *.
  clearbody a r400 b r100 c r4 e r1.
  assert (Ha : 0 <= a <= 24) by lia.
  assert (Hb : 0 <= b <= 4) by nia.
  assert (Hc : 0 <= c <= 24) by nia.
  assert (He : 0 <= e <= 4) by nia.
  destruct ((e =? 4) || (b =? 4)) eqn:Especial.
  - (* the last day of a four-year or four-hundred-year cycle *)
    exists (a * 400 + 1 + b * 100 + c * 4 + e - 1), 12, 31.
    split; [reflexivity|].
    apply orb_true_iff in Especial. rewrite !Z.eqb_eq in Especial.
    destruct (Z.eq_dec b 4) as [Hb4 | Hb4].
    + replace (a * 400 + 1 + b * 100 + c * 4 + e - 1)
        with (400 * a + 100 * 3 + 4 * 24 + 3 + 1) by lia.
      unfold ymd2ord, days_in_month, days_before_month.
      rewrite is_leap_cycle, dby_cycle by lia.
      month_tables. lia.
    + replace (a * 400 + 1 + b * 100 + c * 4 + e - 1)
        with (400 * a + 100 * b + 4 * c + 3 + 1) by lia.
      assert (Hc24 : c <> 24 \/ b = 3) by lia.
      unfold ymd2ord, days_in_month, days_before_month.
      rewrite is_leap_cycle, dby_cycle by lia.
      replace (negb (c =? 24) || (b =? 3)) with true.
      2:{ destruct (Z.eqb_spec c 24); destruct (Z.eqb_spec b 3);
          try reflexivity. lia. }
      change (3 =? 3) with true. cbn [andb].
      change (12 =? 2) with false. change (12 >? 2) with true.
      cbn [andb DAYS_BEFORE_MONTH DAYS_IN_MONTH]. lia.
  - apply orb_false_iff in Especial. rewrite !Z.eqb_neq in Especial.
    replace (a * 400 + 1 + b * 100 + c * 4 + e)
      with (400 * a + 100 * b + 4 * c + e + 1) by lia.
    set (y := 400 * a + 100 * b + 4 * c + e + 1).
    set (leap := (e =? 3) && (negb (c =? 24) || (b =? 3))).
    assert (Hleap : is_leap y = leap)
      by (subst y leap; apply is_leap_cycle; lia).
    assert (Hdby : days_before_year y = 146097 * a + 36524 * b + 1461 * c + 365 * e)
      by (subst y; apply dby_cycle; lia).
    rewrite Z.shiftr_div_pow2 by lia. change (2 ^ 5) with 32.
    pose proof (Z.div_mod (r1 + 50) 32 ltac:(lia)) as E5.
    pose proof (Z.mod_pos_bound (r1 + 50) 32 ltac:(lia)) as B5.
    set (m := (r1 + 50) / 32) in *. set (q := (r1 + 50) mod 32) in *.
    clearbody m q.
    assert (Hy : 1 <= y <= 9999) by (subst y; lia).
    clearbody y leap.
    assert (Hm : 1 <= m <= 12) by lia.
    each_month m;
      match goal with
      | |- context [if ?t >? r1 then _ else _] =>
          destruct (Z.gtb_spec t r1)
      end;
      eexists _, _, _; (split; [reflexivity|]);
      repeat match goal with
             | |- context [Z.pos ?p - 1] =>
                 let v := eval vm_compute in (Z.pos p - 1) in
                 change (Z.pos p - 1) with v
             end;
      unfold ymd2ord; rewrite Hdby; month_tables; rewrite ?Hleap;
      destruct leap; cbv [Z.gtb Z.eqb Z.compare Pos.compare Pos.compare_cont Pos.eqb andb] in *; lia.
Qed.

Lemma dt_add_spec (d : datetime) (delta : timedelta) (d' : datetime) :
  dt_add d delta = Some d' ->
  valid d' /\ wall_micros d' = wall_micros d + delta.
Proof.
  unfold dt_add. cbv zeta.
  set (total := wall_micros d + delta).
  pose proof (Z.div_mod total 86400000000 ltac:(lia)) as E1.
  pose proof (Z.mod_pos_bound total 86400000000 ltac:(lia)) as B1.
  set (days := total / 86400000000) in *.
  set (rest := total mod 86400000000) in *.
  replace (total mod 1000000) with (rest mod 1000000).
  2:{ subst rest days. clear E1 B1. Z.div_mod_to_equations. lia. }
  pose proof (Z.div_mod rest 1000000 ltac:(lia)) as E2.
  pose proof (Z.mod_pos_bound rest 1000000 ltac:(lia)) as B2.
  set (secs := rest / 1000000) in *. set (us := rest mod 1000000) in *.
  pose proof (Z.div_mod secs 3600 ltac:(lia)) as E3.
  pose proof (Z.mod_pos_bound secs 3600 ltac:(lia)) as B3.
  set (hh := secs / 3600) in *. set (rem := secs mod 3600) in *.
  pose proof (Z.div_mod rem 60 ltac:(lia)) as E4.
  pose proof (Z.mod_pos_bound rem 60 ltac:(lia)) as B4.
  set (mm := rem / 60) in *. set (ss := rem mod 60) in *.
  clearbody days rest secs us hh rem mm ss.
  destruct ((0 <? days) && (days <=? MAXORDINAL)) eqn:Erange; [|discriminate].
  apply andb_true_iff in Erange. destruct Erange as [Hlo Hhi].
  apply Z.ltb_lt in Hlo. apply Z.leb_le in Hhi.
  destruct (ord2ymd_spec days ltac:(lia)) as (y & m & dd & Eo & Hy & Hm & Hd & Hord).
  rewrite Eo. intros H. injection H as <-.
  unfold valid, wall_micros, toordinal. cbn [year month day hour minute second microsecond].
  rewrite Hord. repeat split; try lia.
Qed.

Lemma dt_sub_spec (now : datetime) (delta : timedelta) (c : datetime) :
  dt_sub now delta = Some c ->
  valid c /\ instant c = instant now - delta.
Proof.
  unfold dt_sub, instant, instant_at. intros H.
  apply dt_add_spec in H. destruct H as [V E]. split; [exact V | lia].
Qed.

Lemma dt_ge_instant (a b : datetime) :
  valid a -> valid b -> (dt_ge a b <-> instant b <= instant a).
Proof.
  intros Va Vb. unfold dt_ge, instant, instant_at.
  rewrite dt_compare_wall by assumption.
  rewrite !Z.sub_0_r. rewrite <- Z.compare_ge_iff. 
  unfold Z.ge. reflexivity.
Qed.

End Calendar.

(* ------------------------------------------------------------------ *)
(** * Dictionaries *)

Section DictFacts.

Variable V : Type.
Implicit Types (d l : list (str * V)) (k : str) (v : V).

Lemma dict_mem_keys d k : Dict.mem k d = true <-> In k (Dict.keys d).
Proof.
  unfold Dict.mem, Dict.keys. rewrite existsb_exists, in_map_iff. split.
  - intros [kv [Hin He]]. apply str_eqb_eq in He. exists kv. split; assumption.
  - intros [kv [He Hin]]. exists kv. split; [exact Hin|]. apply str_eqb_eq, He.
Qed.

Lemma dict_mem_false d k : Dict.mem k d = false <-> ~ In k (Dict.keys d).
Proof.
  rewrite <- dict_mem_keys. destruct (Dict.mem k d); split; congruence || auto.
Qed.

Lemma dict_get_none d k : Dict.get d k = None <-> ~ In k (Dict.keys d).
Proof.
  induction d as [|[k' v'] d IH]; simpl.
  - split; auto.
  - destruct (str_eqb k' k) eqn:E.
    + apply str_eqb_eq in E. split; [discriminate | intros H; exfalso; auto].
    + rewrite IH. split.
      * intros H [<- | Hin]; [rewrite str_eqb_refl in E; discriminate | auto].
      * intros H Hin. apply H. right; exact Hin.
Qed.

Lemma dict_get_in d k v : Dict.get d k = Some v -> In (k, v) d.
Proof.
  induction d as [|[k' v'] d IH]; simpl; [discriminate|].
  destruct (str_eqb k' k) eqn:E.
  - apply str_eqb_eq in E. intros H; injection H as <-. left. congruence.
  - intros H. right. apply IH, H.
Qed.

Lemma dict_in_get d k v :
  NoDup (Dict.keys d) -> In (k, v) d -> Dict.get d k = Some v.
Proof.
  induction d as [|[k' v'] d IH]; simpl; intros Hnd Hin; [contradiction|].
  inversion Hnd as [|? ? Hnot Hnd']; subst.
  destruct Hin as [Heq | Hin].
  - injection Heq as -> ->. rewrite str_eqb_refl. reflexivity.
  - destruct (str_eqb k' k) eqn:E.
    + apply str_eqb_eq in E. subst k'. exfalso. apply Hnot.
      unfold Dict.keys. apply in_map_iff. exists (k, v). split; [reflexivity | exact Hin].
    + apply IH; assumption.
Qed.

Lemma dict_get_set_same d k v : Dict.get (Dict.set d k v) k = Some v.
Proof.
  induction d as [|[k' v'] d IH]; simpl.
  - rewrite str_eqb_refl. reflexivity.
  - destruct (str_eqb k' k) eqn:E; simpl; rewrite E; [reflexivity | exact IH].
Qed.

Lemma dict_get_set_other d k v k' :
  k' <> k -> Dict.get (Dict.set d k v) k' = Dict.get d k'.
Proof.
  intros Hne. induction d as [|[k0 v0] d IH]; simpl.
  - destruct (str_eqb k k') eqn:E; [|reflexivity].
    apply str_eqb_eq in E. congruence.
  - destruct (str_eqb k0 k) eqn:E; simpl.
    + apply str_eqb_eq in E. subst k0.
      destruct (str_eqb k k') eqn:E'; [|reflexivity].
      apply str_eqb_eq in E'. congruence.
    + rewrite IH. reflexivity.
Qed.

Lemma dict_keys_set d k v :
  Dict.keys (Dict.set d k v) =
  if Dict.mem k d then Dict.keys d else Dict.keys d ++ [k].
Proof.
  induction d as [|[k' v'] d IH]; simpl; [reflexivity|].
  unfold Dict.mem in *. simpl.
  destruct (str_eqb k' k) eqn:E; simpl; [reflexivity|].
  rewrite IH. destruct (existsb _ d); reflexivity.
Qed.

Lemma dict_set_nodup d k v :
  NoDup (Dict.keys d) -> NoDup (Dict.keys (Dict.set d k v)).
Proof.
  intros Hnd. rewrite dict_keys_set.
  destruct (Dict.mem k d) eqn:E; [exact Hnd|].
  apply dict_mem_false in E.
  apply NoDup_app; [exact Hnd | constructor; [intros [] | constructor] |].
  intros x Hx [<- | []]. contradiction.
Qed.

Lemma dict_set_fresh d k v :
  ~ In k (Dict.keys d) -> Dict.set d k v = d ++ [(k, v)].
Proof.
  induction d as [|[k' v'] d IH]; simpl; intros Hnot; [reflexivity|].
  destruct (str_eqb k' k) eqn:E.
  - apply str_eqb_eq in E. exfalso. apply Hnot. left; exact E.
  - rewrite IH; [reflexivity|]. intros Hin. apply Hnot. right; exact Hin.
Qed.

Lemma dict_update_nodup l d :
  NoDup (Dict.keys d) -> NoDup (Dict.keys (Dict.update d l)).
Proof.
  unfold Dict.update. revert d. induction l as [|[k v] l IH]; simpl; intros d Hnd.
  - exact Hnd.
  - apply IH, dict_set_nodup, Hnd.
Qed.

(** After [d.update(l)] a key holds the last value [l] gives it, or the
    value it had in [d]. *)
Lemma dict_get_update l d k :
  Dict.get (Dict.update d l) k =
  match Dict.get (rev l) k with
  | Some v => Some v
  | None => Dict.get d k
  end.
Proof.
  unfold Dict.update. revert d. induction l as [|[k0 v0] l IH]; intros d.
  - reflexivity.
  - cbn [fold_left fst snd rev]. rewrite IH.
    assert (Happ : forall (a b : list (str * V)), Dict.get (a ++ b) k =
              match Dict.get a k with Some v => Some v | None => Dict.get b k end).
    { intros a b. induction a as [|[ka va] a IHa]; simpl; [reflexivity|].
      destruct (str_eqb ka k); [reflexivity | exact IHa]. }
    rewrite Happ. destruct (Dict.get (rev l) k); [reflexivity|].
    simpl. destruct (str_eqb k0 k) eqn:E.
    + apply str_eqb_eq in E. subst k0. apply dict_get_set_same.
    + apply dict_get_set_other. intros ->. rewrite str_eqb_refl in E. discriminate.
Qed.

Lemma dict_of_items_nodup l : NoDup (Dict.keys (Dict.of_items l)).
Proof. apply (dict_update_nodup l []). constructor. Qed.

Lemma dict_get_of_items l k : Dict.get (Dict.of_items l) k = Dict.get (rev l) k.
Proof.
  change (Dict.of_items l) with (Dict.update [] l).
  rewrite dict_get_update. destruct (Dict.get (rev l) k); reflexivity.
Qed.

Lemma dict_in_of_items l k v : In (k, v) (Dict.of_items l) -> In (k, v) l.
Proof.
  intros Hin. apply dict_in_get in Hin; [|apply dict_of_items_nodup].
  rewrite dict_get_of_items in Hin. apply dict_get_in in Hin.
  apply in_rev. exact Hin.
Qed.

Lemma dict_keys_of_items l k :
  In k (Dict.keys (Dict.of_items l)) <-> In k (map fst l).
Proof.
  split.
  - intros Hin. unfold Dict.keys in Hin. apply in_map_iff in Hin.
    destruct Hin as [[k' v] [<- Hin]]. apply dict_in_of_items in Hin.
    apply in_map_iff. exists (k', v). split; [reflexivity | exact Hin].
  - intros Hin. destruct (Dict.get (Dict.of_items l) k) eqn:E.
    + apply dict_get_in in E. unfold Dict.keys. apply in_map_iff.
      exists (k, v). split; [reflexivity | exact E].
    + exfalso. rewrite dict_get_of_items in E. apply dict_get_none in E.
      apply E. unfold Dict.keys. rewrite map_rev. apply -> in_rev. exact Hin.
Qed.

(** Updating with fresh, distinct keys appends them in order. *)
Lemma dict_update_fresh l d :
  NoDup (Dict.keys l) ->
  (forall k, In k (Dict.keys l) -> ~ In k (Dict.keys d)) ->
  Dict.update d l = d ++ l.
Proof.
  unfold Dict.update. revert d.
  induction l as [|[k v] l IH]; intros d Hnd Hfresh.
  - simpl. rewrite app_nil_r. reflexivity.
  - cbn [fold_left fst snd]. inversion Hnd as [|? ? Hk Hnd']; subst.
    rewrite dict_set_fresh by (apply Hfresh; left; reflexivity).
    rewrite IH; [rewrite <- app_assoc; reflexivity | exact Hnd' |].
    intros k' Hin. unfold Dict.keys. rewrite map_app, in_app_iff.
    intros [Hd | [<- | []]].
    + apply (Hfresh k'); [right; exact Hin | exact Hd].
    + contradiction.
Qed.

Lemma dict_of_items_id l : NoDup (Dict.keys l) -> Dict.of_items l = l.
Proof.
  intros Hnd. change (Dict.of_items l) with (Dict.update [] l).
  rewrite dict_update_fresh; [reflexivity | exact Hnd | intros k _ []].
Qed.

Lemma dict_filter_nodup (p : str * V -> bool) l :
  NoDup (Dict.keys l) -> NoDup (Dict.keys (filter p l)).
Proof.
  induction l as [|[k v] l IH]; simpl; intros Hnd; [constructor|].
  inversion Hnd as [|? ? Hk Hnd']; subst.
  destruct (p (k, v)); simpl; [constructor|]; auto.
  intros Hin. apply Hk. unfold Dict.keys in *. apply in_map_iff in Hin.
  destruct Hin as [kv [E Hin]]. apply filter_In in Hin.
  apply in_map_iff. exists kv. tauto.
Qed.

End DictFacts.

(* ------------------------------------------------------------------ *)
(** * Sorting newest first *)

Section SortFacts.

Variable A : Type.
Variable key : A -> str.

Local Abbreviation desc := (descending key).

Lemma insert_desc_perm (x : A) (l : list A) :
  Permutation (insert_desc key x l) (x :: l).
Proof.
  induction l as [|y l IH]; simpl; [apply Permutation_refl|].
  destruct (str_compare (key x) (key y)); try apply Permutation_refl.
  eapply perm_trans; [apply perm_skip, IH | apply perm_swap].
Qed.

Lemma sorted_reverse_perm (l : list A) : Permutation (sorted_reverse key l) l.
Proof.
  induction l as [|x l IH]; simpl; [constructor|].
  eapply perm_trans; [apply insert_desc_perm | apply perm_skip, IH].
Qed.

Lemma sorted_reverse_in (l : list A) (x : A) :
  In x (sorted_reverse key l) <-> In x l.
Proof.
  split; apply Permutation_in;
    [ | apply Permutation_sym ]; apply sorted_reverse_perm.
Qed.

Lemma insert_desc_sorted (x : A) (l : list A) :
  StronglySorted desc l -> StronglySorted desc (insert_desc key x l).
Proof.
  induction l as [|y l IH]; intros Hs; simpl.
  - constructor; constructor.
  - inversion Hs as [|? ? Hs' Hall]; subst.
    destruct (str_compare (key x) (key y)) eqn:E.
    + constructor; [exact Hs|]. constructor.
      * unfold descending, str_ge. rewrite E. discriminate.
      * apply str_compare_eq in E. unfold descending in *. rewrite E. exact Hall.
    + constructor; [apply IH, Hs'|].
      apply Forall_forall. intros z Hz.
      apply (Permutation_in _ (insert_desc_perm x l)) in Hz.
      destruct Hz as [<- | Hz].
      * apply str_not_lt_ge, E.
      * rewrite Forall_forall in Hall. apply Hall, Hz.
    + constructor; [exact Hs|]. constructor.
      * unfold descending, str_ge. rewrite E. discriminate.
      * eapply Forall_impl; [|exact Hall]. intros z Hz. unfold descending in *.
        apply str_ge_trans with (key y); [|exact Hz].
        unfold str_ge. rewrite E. discriminate.
Qed.

Lemma sorted_reverse_sorted (l : list A) :
  StronglySorted desc (sorted_reverse key l).
Proof.
  induction l as [|x l IH]; simpl; [constructor|].
  apply insert_desc_sorted, IH.
Qed.

(** The sort is stable: the elements of one key keep their order. *)
Lemma insert_desc_stable (k : str) (x : A) (l : list A) :
  filter (fun a => str_eqb (key a) k) (insert_desc key x l) =
  filter (fun a => str_eqb (key a) k) (x :: l).
Proof.
  induction l as [|y l IH]; [reflexivity|].
  cbn [insert_desc]. destruct (str_compare (key x) (key y)) eqn:E; try reflexivity.
  cbn [filter] in *. rewrite IH.
  destruct (str_eqb (key x) k) eqn:Ex; destruct (str_eqb (key y) k) eqn:Ey;
    try reflexivity.
  apply str_eqb_eq in Ex. apply str_eqb_eq in Ey. subst.
  rewrite Ey, str_compare_refl in E. discriminate.
Qed.

Lemma sorted_reverse_stable (k : str) (l : list A) :
  filter (fun a => str_eqb (key a) k) (sorted_reverse key l) =
  filter (fun a => str_eqb (key a) k) l.
Proof.
  induction l as [|x l IH]; [reflexivity|].
  cbn [sorted_reverse fold_right]. rewrite insert_desc_stable.
  cbn [filter]. fold (sorted_reverse key l). rewrite IH. reflexivity.
Qed.

End SortFacts.

Section SortedLists.

Variable A : Type.

Lemma sorted_filter (R : A -> A -> Prop) (p : A -> bool) (l : list A) :
  StronglySorted R l -> StronglySorted R (filter p l).
Proof.
  induction 1 as [|x l Hs IH Hall]; simpl; [constructor|].
  destruct (p x); [|exact IH]. constructor; [exact IH|].
  rewrite Forall_forall in *. intros y Hy. apply Hall.
  apply filter_In in Hy. tauto.
Qed.

Lemma sorted_app (R : A -> A -> Prop) (l1 l2 : list A) :
  StronglySorted R (l1 ++ l2) ->
  StronglySorted R l1 /\ StronglySorted R l2 /\
  forall x y, In x l1 -> In y l2 -> R x y.
Proof.
  induction l1 as [|a l1 IH]; simpl; intros Hs.
  - repeat split; [constructor | exact Hs | intros x y []].
  - inversion Hs as [|? ? Hs' Hall]; subst.
    destruct (IH Hs') as (S1 & S2 & Hx). rewrite Forall_forall in Hall.
    repeat split; [constructor; [exact S1|] | exact S2 |].
    + apply Forall_forall. intros y Hy. apply Hall, in_or_app. left; exact Hy.
    + intros x y [<- | Hin] Hy; [apply Hall, in_or_app; right; exact Hy|].
      apply Hx; assumption.
Qed.

Lemma sorted_firstn (R : A -> A -> Prop) (n : nat) (l : list A) :
  StronglySorted R l -> StronglySorted R (firstn n l).
Proof.
  intros Hs. rewrite <- (firstn_skipn n l) in Hs.
  apply sorted_app in Hs. tauto.
Qed.

Lemma sorted_map (B : Type) (R : A -> A -> Prop) (R' : B -> B -> Prop)
  (f : A -> B) (l : list A) :
  (forall x y, R x y -> R' (f x) (f y)) ->
  StronglySorted R l -> StronglySorted R' (map f l).
Proof.
  intros Hf. induction 1 as [|x l Hs IH Hall]; simpl; constructor; [exact IH|].
  rewrite Forall_forall in *. intros y Hy. apply in_map_iff in Hy.
  destruct Hy as [z [<- Hz]]. apply Hf, Hall, Hz.
Qed.

End SortedLists.

(* ------------------------------------------------------------------ *)
(** * The merge *)

Section MergeFacts.

Lemma pairs_keys (events : list Event.t) :
  map fst (pairs events) = map Event.id events.
Proof. unfold pairs. rewrite map_map. reflexivity. Qed.

Lemma get_pairs (events : list Event.t) (k : str) :
  Dict.get (pairs events) k = find (fun e => str_eqb (Event.id e) k) events.
Proof.
  induction events as [|e events IH]; simpl; [reflexivity|].
  destruct (str_eqb (Event.id e) k); [reflexivity | exact IH].
Qed.

Lemma get_candidate (new_events : list Event.t) (k : str) :
  Dict.get (Dict.of_items (pairs new_events)) k = candidate new_events k.
Proof.
  rewrite dict_get_of_items. unfold candidate, pairs.
  rewrite <- map_rev. apply get_pairs.
Qed.

Lemma candidate_some (new_events : list Event.t) (k : str) (n : Event.t) :
  candidate new_events k = Some n -> In n new_events /\ Event.id n = k.
Proof.
  unfold candidate. intros H. apply find_some in H. destruct H as [Hin He].
  split; [apply in_rev, Hin | apply str_eqb_eq, He].
Qed.

Lemma candidate_none (new_events : list Event.t) (k : str) :
  candidate new_events k = None <-> ~ In k (map Event.id new_events).
Proof.
  rewrite <- get_candidate, dict_get_none, dict_keys_of_items, pairs_keys.
  reflexivity.
Qed.

Lemma candidate_exists (new_events : list Event.t) (k : str) :
  In k (map Event.id new_events) -> exists n, candidate new_events k = Some n.
Proof.
  intros Hin. destruct (candidate new_events k) eqn:E; [eauto|].
  apply candidate_none in E. contradiction.
Qed.

Lemma keyed_pairs (events : list Event.t) : keyed (Dict.of_items (pairs events)).
Proof.
  intros k v Hin. apply dict_in_of_items in Hin.
  unfold pairs in Hin. apply in_map_iff in Hin.
  destruct Hin as [e [He _]]. injection He as <- <-. reflexivity.
Qed.

Lemma load_existing_nodup (stored : option (list Event.t)) :
  NoDup (Dict.keys (load_existing stored)).
Proof.
  destruct stored as [events|]; simpl; [apply dict_of_items_nodup | constructor].
Qed.

Lemma load_existing_keyed (stored : option (list Event.t)) :
  keyed (load_existing stored).
Proof.
  destruct stored as [events|]; simpl; [apply keyed_pairs | intros k v []].
Qed.

Lemma carried_in (new_events : list Event.t) (existing : Dict.dict Event.t)
    (k : str) (v : Event.t) :
  In (k, v) (carried new_events existing) <->
  In (k, v) existing /\ ~ In k (map Event.id new_events).
Proof.
  unfold carried. rewrite filter_In, negb_true_iff, dict_mem_false,
    dict_keys_of_items, pairs_keys. reflexivity.
Qed.

(** With a well-formed stored dictionary the merged one is the candidates
    in order of first appearance followed by the carried events. *)
Lemma merge_app (new_events : list Event.t) (existing : Dict.dict Event.t) :
  NoDup (Dict.keys existing) ->
  merge new_events existing =
  Dict.of_items (pairs new_events) ++ carried new_events existing.
Proof.
  intros Hnd. unfold merge. cbv zeta.
  fold (carried new_events existing).
  assert (Hc : NoDup (Dict.keys (carried new_events existing)))
    by (apply dict_filter_nodup, Hnd).
  rewrite (dict_of_items_id _ _ Hc).
  apply dict_update_fresh; [exact Hc|].
  intros k Hin. unfold Dict.keys in Hin. apply in_map_iff in Hin.
  destruct Hin as [[k' v] [<- Hin]]. apply carried_in in Hin.
  rewrite dict_keys_of_items, pairs_keys. tauto.
Qed.

Lemma merge_nodup (new_events : list Event.t) (existing : Dict.dict Event.t) :
  NoDup (Dict.keys (merge new_events existing)).
Proof. unfold merge. apply dict_update_nodup, dict_of_items_nodup. Qed.

(** Every id of a candidate is a key of the merged dictionary and holds the
    candidate. *)
Lemma merge_get_candidate (new_events : list Event.t)
    (existing : Dict.dict Event.t) (k : str) (n : Event.t) :
  candidate new_events k = Some n ->
  Dict.get (merge new_events existing) k = Some n.
Proof.
  intros Hc. unfold merge. cbv zeta.
  rewrite dict_get_update.
  destruct (Dict.get (rev (Dict.of_items _)) k) as [v|] eqn:E.
  - exfalso. apply dict_get_in in E. apply in_rev in E.
    apply dict_in_of_items in E. apply filter_In in E. destruct E as [_ E].
    apply negb_true_iff, dict_mem_false in E. apply E.
    rewrite dict_keys_of_items, pairs_keys.
    apply candidate_some in Hc. destruct Hc as [Hin <-]. cbn [fst].
    apply in_map, Hin.
  - rewrite get_candidate. exact Hc.
Qed.

Lemma merge_in (new_events : list Event.t) (existing : Dict.dict Event.t)
    (k : str) (v : Event.t) :
  NoDup (Dict.keys existing) ->
  In (k, v) (merge new_events existing) ->
  candidate new_events k = Some v \/
  (~ In k (map Event.id new_events) /\ Dict.get existing k = Some v).
Proof.
  intros Hnd Hin. rewrite (merge_app _ _ Hnd) in Hin.
  apply in_app_or in Hin. destruct Hin as [Hin | Hin].
  - left. rewrite <- get_candidate.
    apply dict_in_get; [apply dict_of_items_nodup | exact Hin].
  - right. apply carried_in in Hin. destruct Hin as [Hin Hk].
    split; [exact Hk | apply dict_in_get; assumption].
Qed.

Lemma merge_keyed (new_events : list Event.t) (existing : Dict.dict Event.t) :
  NoDup (Dict.keys existing) -> keyed existing ->
  keyed (merge new_events existing).
Proof.
  intros Hnd Hk k v Hin. apply (merge_in _ _ _ _ Hnd) in Hin.
  destruct Hin as [Hc | [_ Hg]].
  - apply candidate_some in Hc. tauto.
  - apply Hk, dict_get_in, Hg.
Qed.

Lemma values_in (d : Dict.dict Event.t) (v : Event.t) :
  In v (Dict.values d) <-> exists k, In (k, v) d.
Proof.
  unfold Dict.values. rewrite in_map_iff. split.
  - intros [[k v'] [<- Hin]]. exists k. exact Hin.
  - intros [k Hin]. exists (k, v). split; [reflexivity | exact Hin].
Qed.

Lemma retained_in (merged : Dict.dict Event.t) (recent_cutoff : str) (v : Event.t) :
  In v (retained merged recent_cutoff) <->
  (exists k, In (k, v) merged) /\ str_ge (Event.timestamp v) recent_cutoff.
Proof.
  unfold retained. rewrite filter_In, sorted_reverse_in, values_in, str_geb_ge.
  reflexivity.
Qed.

Lemma retained_sorted (merged : Dict.dict Event.t) (recent_cutoff : str) :
  StronglySorted newest_first (retained merged recent_cutoff).
Proof.
  unfold retained. apply sorted_filter.
  apply (sorted_reverse_sorted Event.t Event.timestamp).
Qed.

Lemma mark_breaking_same (alert_cutoff : str) (e : Event.t) :
  Event.same_but_breaking (mark_breaking alert_cutoff e) e.
Proof. unfold Event.same_but_breaking. cbn. tauto. Qed.

Lemma final_in (new_events : list Event.t) (existing : Dict.dict Event.t)
    (recent_cutoff alert_cutoff : str) (e : Event.t) :
  In e (final_collection new_events existing recent_cutoff alert_cutoff) ->
  exists v, e = mark_breaking alert_cutoff v /\
            In v (retained (merge new_events existing) recent_cutoff).
Proof.
  unfold final_collection. rewrite in_map_iff. intros [v [<- Hin]].
  exists v. split; [reflexivity|].
  rewrite <- (firstn_skipn CAP (retained _ _)). apply in_or_app. left; exact Hin.
Qed.

End MergeFacts.

(* ------------------------------------------------------------------ *)
(** * Identity *)

Section IdentityFacts.

Local Open Scope Z_scope.

Lemma bytes_le_length (k : nat) (x : Z) : length (Md5.bytes_le k x) = k.
Proof. revert x; induction k as [|k IH]; intros x; simpl; [|rewrite IH]; reflexivity. Qed.

Lemma digest_length (msg : list Z) : length (Md5.digest msg) = 16%nat.
Proof.
  unfold Md5.digest. cbv zeta.
  destruct (Md5.blocks _ _ _) as [[[a b] c] d].
  rewrite !length_app, !bytes_le_length. reflexivity.
Qed.

Lemma hex_digit_is_hex (n : Z) : 0 <= n < 16 -> Md5.is_hex (Md5.hex_digit n).
Proof.
  intros Hn. unfold Md5.is_hex, Md5.hex_digit.
  destruct (Z.ltb_spec n 10); [left | right]; lia.
Qed.

Lemma hexdigest_length (msg : list Z) : length (Md5.hexdigest msg) = 32%nat.
Proof.
  unfold Md5.hexdigest.
  assert (H : forall l : list Z, length (flat_map Md5.hex_byte l) = (2 * length l)%nat).
  { induction l as [|b l IH]; simpl; [reflexivity|]. rewrite IH. lia. }
  rewrite H, digest_length. reflexivity.
Qed.

Lemma hexdigest_hex (msg : list Z) : Forall Md5.is_hex (Md5.hexdigest msg).
Proof.
  unfold Md5.hexdigest. induction (Md5.digest msg) as [|b l IH]; simpl.
  - constructor.
  - constructor; [|constructor; [|exact IH]];
      apply hex_digit_is_hex; apply Z.mod_pos_bound; lia.
Qed.

Lemma Forall_firstn_keep (A : Type) (P : A -> Prop) (n : nat) (l : list A) :
  Forall P l -> Forall P (firstn n l).
Proof.
  intros H. rewrite Forall_forall in *. intros x Hx. apply H.
  rewrite <- (firstn_skipn n l). apply in_or_app. left; exact Hx.
Qed.

Lemma encode_char_scalar (c : char) :
  Utf8.scalar c -> exists b, Utf8.encode_char c = Some b.
Proof.
  unfold Utf8.scalar, Utf8.encode_char. intros Hc. cbv zeta.
  destruct (Z.ltb_spec (Z.of_N c) 128); [eauto|].
  destruct (Z.ltb_spec (Z.of_N c) 2048); [eauto|].
  destruct (Z.ltb_spec (Z.of_N c) 65536).
  - destruct (Z.leb_spec 55296 (Z.of_N c)); destruct (Z.leb_spec (Z.of_N c) 57343);
      cbn [andb]; eauto. exfalso. lia.
  - destruct (Z.ltb_spec (Z.of_N c) 1114112); [eauto|]. exfalso. lia.
Qed.

Lemma encode_scalar (s : str) :
  Forall Utf8.scalar s -> exists b, Utf8.encode s = Some b.
Proof.
  induction 1 as [|c s Hc _ IH]; simpl; [eauto|].
  destruct (encode_char_scalar c Hc) as [b ->]. destruct IH as [bs ->]. eauto.
Qed.

Lemma digits_scalar (k : nat) :
  forall n, 0 <= n < 10 ^ Z.of_nat k -> Forall Utf8.scalar (digits k n).
Proof.
  induction k as [|k IH]; intros n Hn; cbn [digits]; [constructor|].
  set (p := 10 ^ Z.of_nat k) in *.
  assert (Hp : 0 < p) by (subst p; apply Z.pow_pos_nonneg; lia).
  assert (Hpow : 10 ^ Z.of_nat (S k) = 10 * p).
  { subst p. rewrite Nat2Z.inj_succ, Z.pow_succ_r by lia. reflexivity. }
  rewrite Hpow in Hn.
  constructor.
  - assert (0 <= n / p < 10).
    { split; [apply Z.div_pos; lia | apply Z.div_lt_upper_bound; lia]. }
    unfold Utf8.scalar, digit. left. lia.
  - apply IH. apply Z.mod_pos_bound. exact Hp.
Qed.

Lemma date_str_scalar (d : datetime) :
  valid d -> Forall Utf8.scalar (date_str (date_of d)).
Proof.
  intros (Y & M & D & _).
  pose proof (days_in_month_le (year d) (month d) M).
  unfold date_str, date_of.
  assert (Hdash : Forall Utf8.scalar (py "-"))
    by (constructor; [left; reflexivity | constructor]).
  repeat (apply Forall_app; split); try exact Hdash;
    apply digits_scalar; simpl; lia.
Qed.

(** C8.  The id is computed from the first 50 characters of the title and
    the calendar date alone: two titles that agree on their first 50
    characters, on two timestamps of the same date, get the same id,
    whatever the source and the time of day.  An id is a token of ten
    lower-case hexadecimal digits, and it is produced for every title whose
    first 50 characters can be encoded. *)
Theorem event_id_prefix_date (title1 title2 : str) (ts1 ts2 : datetime) :
  firstn 50 title1 = firstn 50 title2 ->
  date_of ts1 = date_of ts2 ->
  event_id title1 (date_of ts1) = event_id title2 (date_of ts2) /\
  (forall tok, event_id title1 (date_of ts1) = Some tok ->
               length tok = 10%nat /\ Forall Md5.is_hex tok) /\
  (Forall Utf8.scalar (firstn 50 title1) -> valid ts1 ->
   exists tok, event_id title1 (date_of ts1) = Some tok).
Proof.
  intros Ht Hd. split; [|split].
  - unfold event_id. rewrite Ht, Hd. reflexivity.
  - unfold event_id. intros tok H.
    destruct (Utf8.encode _) as [bytes|]; [|discriminate].
    assert (E : tok = firstn 10 (Md5.hexdigest bytes)) by congruence.
    rewrite E. clear H E. split.
    + rewrite length_firstn, hexdigest_length. reflexivity.
    + apply Forall_firstn_keep, hexdigest_hex.
  - intros Hs Hv. unfold event_id.
    destruct (encode_scalar (firstn 50 title1 ++ date_str (date_of ts1)))
      as [b ->]; [|eauto].
    apply Forall_app. split; [exact Hs | apply date_str_scalar, Hv].
Qed.

End IdentityFacts.

(* ------------------------------------------------------------------ *)
(** * Date parsing *)

Section ParseDateFacts.

Variable strptime : str -> str -> option (datetime * option timedelta).

Lemma parse_date_in_first (fmts : list str) (now : datetime) (s : str)
    (fields : datetime) (off : option timedelta) :
  first_parse strptime s fmts fields off ->
  parse_date_in strptime fmts now s = fields.
Proof.
  induction 1 as [fmt rest fields off H | fmt rest fields off H _ IH]; simpl;
    rewrite H; [reflexivity | exact IH].
Qed.

Lemma parse_date_in_none (fmts : list str) (now : datetime) (s : str) :
  no_parse strptime s fmts -> parse_date_in strptime fmts now s = now.
Proof.
  unfold no_parse. induction fmts as [|fmt rest IH]; intros H; simpl; [reflexivity|].
  rewrite (H fmt) by (left; reflexivity).
  apply IH. intros f Hf. apply H. right; exact Hf.
Qed.

(** Either some format applies first, or none does. *)
Lemma parse_cases (fmts : list str) (s : str) :
  (exists fields off, first_parse strptime s fmts fields off) \/
  no_parse strptime s fmts.
Proof.
  induction fmts as [|fmt rest IH].
  - right. intros f [].
  - destruct (strptime (strip s) fmt) as [[fields off]|] eqn:E.
    + left. exists fields, off. constructor. exact E.
    + destruct IH as [[fields [off H]] | H].
      * left. exists fields, off. apply FP_later; assumption.
      * right. intros f [<- | Hf]; [exact E | apply H, Hf].
Qed.

Lemma parse_date_valid (now : datetime) (s : str) :
  (forall s fmt fields off, strptime s fmt = Some (fields, off) -> valid fields) ->
  valid now -> valid (parse_date strptime now s).
Proof.
  intros Hsp Hnow. unfold parse_date.
  induction DATE_FORMATS as [|fmt rest IH]; simpl; [exact Hnow|].
  destruct (strptime (strip s) fmt) as [[fields off]|] eqn:E; [|exact IH].
  apply (Hsp _ _ _ _ E).
Qed.

(** C10.  When the first format that reads the string gives an explicit UTC
    offset, [parse_date] returns the wall-clock fields as they were read and
    labels them UTC: the instant it returns is later than the instant the
    string states by exactly the offset, so the two differ unless the offset
    is zero.  When no format reads the string, [parse_date] returns the
    current instant. *)
Theorem parse_date_wall_clock (now : datetime) (s : str)
    (fields : datetime) (off : timedelta) :
  (first_parse strptime s DATE_FORMATS fields (Some off) ->
   parse_date strptime now s = fields /\
   (instant (parse_date strptime now s) - instant_at fields off = off)%Z /\
   (off <> 0%Z -> instant (parse_date strptime now s) <> instant_at fields off)) /\
  (no_parse strptime s DATE_FORMATS -> parse_date strptime now s = now).
Proof.
  split.
  - intros H. unfold parse_date.
    rewrite (parse_date_in_first _ now _ _ _ H).
    unfold instant, instant_at. repeat split; lia.
  - apply parse_date_in_none.
Qed.

End ParseDateFacts.

(* ------------------------------------------------------------------ *)
(** * One run *)

Section RunFacts.

Variable str_lower : str -> str.
Variable ieq : char -> char -> bool.
Variable strptime : str -> str -> option (datetime * option timedelta).

Local Abbreviation run := (main str_lower ieq strptime).
Local Abbreviation collect := (ingest str_lower ieq strptime).

(** What a run that ends normally has computed. *)
Lemma main_some (clock : Clock.t) (items : list Item.t)
    (stored : option (list Event.t)) (final : list Event.t) (meta : Meta.t) :
  run clock items stored = Some (final, meta) ->
  exists cutoff new_events recent alert,
    dt_sub (Clock.at_start clock) (td_days 7) = Some cutoff /\
    collect clock cutoff (load_existing stored) items 0%nat [] [] = Some new_events /\
    dt_sub (Clock.at_retention clock) (td_hours 72) = Some recent /\
    dt_sub (Clock.at_alert clock) (td_hours 3) = Some alert /\
    final = final_collection new_events (load_existing stored)
              (isoformat recent) (isoformat alert) /\
    meta = summary clock final.
Proof.
  unfold main. intros H.
  destruct (dt_sub (Clock.at_start clock) (td_days 7)) as [cutoff|] eqn:E1;
    [|discriminate].
  destruct (ingest _ _ _ _ _ _ _ _ _ _) as [new_events|] eqn:E2; [|discriminate].
  destruct (dt_sub (Clock.at_retention clock) (td_hours 72)) as [recent|] eqn:E3;
    [|discriminate].
  destruct (dt_sub (Clock.at_alert clock) (td_hours 3)) as [alert|] eqn:E4;
    [|discriminate].
  injection H as <- <-.
  exists cutoff, new_events, recent, alert.
  repeat split; try reflexivity; assumption.
Qed.

(** Every timestamp the loop writes is a UTC datetime in ISO format. *)
Lemma ingest_wellformed (clock : Clock.t) (cutoff : datetime)
    (existing : Dict.dict Event.t) (items : list Item.t) :
  (forall s fmt fields off, strptime s fmt = Some (fields, off) -> valid fields) ->
  (forall i, valid (Clock.at_item clock i)) ->
  forall (i : nat) (seen : list str) (acc out : list Event.t),
    Forall (fun e => wellformed (Event.timestamp e)) acc ->
    collect clock cutoff existing items i seen acc = Some out ->
    Forall (fun e => wellformed (Event.timestamp e)) out.
Proof.
  intros Hsp Hclock. induction items as [|item items IH];
    intros i seen acc out Hacc H; simpl in H.
  - injection H as <-. exact Hacc.
  - destruct (str_eqb (Item.title item) [] || existsb _ seen);
      [apply (IH _ _ _ _ Hacc H)|].
    destruct (negb (relevant str_lower (Item.full item)));
      [apply (IH _ _ _ _ Hacc H)|].
    destruct (dt_ltb _ cutoff); [apply (IH _ _ _ _ Hacc H)|].
    destruct (estimate_cost ieq (Item.full item)) as [cost cost_label].
    destruct (event_id _ _) as [eid|]; [|discriminate].
    apply (IH _ _ _ _) in H; [exact H|].
    apply Forall_app. split; [exact Hacc|]. constructor; [|constructor].
    cbn [Event.timestamp]. eexists. split; [|reflexivity].
    apply parse_date_valid; [exact Hsp | apply Hclock].
Qed.

End RunFacts.

Section FinalFacts.

Implicit Types (new_events : list Event.t) (stored : option (list Event.t)).

Lemma final_from_merge new_events stored recent_cutoff alert_cutoff (e : Event.t) :
  In e (final_collection new_events (load_existing stored)
          recent_cutoff alert_cutoff) ->
  exists v, e = mark_breaking alert_cutoff v /\
            In (Event.id v, v) (merge new_events (load_existing stored)) /\
            str_ge (Event.timestamp v) recent_cutoff.
Proof.
  intros Hin. apply final_in in Hin. destruct Hin as [v [-> Hin]].
  apply retained_in in Hin. destruct Hin as [[k Hk] Hts].
  exists v. repeat split; [|exact Hts].
  rewrite (merge_keyed new_events (load_existing stored)
             (load_existing_nodup stored) (load_existing_keyed stored) k v Hk).
  exact Hk.
Qed.

(** C9.  A stored event whose id no candidate has, and which is still in
    the final collection, is there with every field as it was stored, the
    field is_breaking apart, which the run sets anew; in particular is_new
    keeps its stored value. *)
Theorem carried_forward_unchanged new_events stored
    (recent_cutoff alert_cutoff k : str) (p e : Event.t) :
  Dict.get (load_existing stored) k = Some p ->
  ~ In k (map Event.id new_events) ->
  In e (final_collection new_events (load_existing stored)
          recent_cutoff alert_cutoff) ->
  Event.id e = k ->
  e = mark_breaking alert_cutoff p /\
  Event.same_but_breaking e p /\
  Event.is_new e = Event.is_new p.
Proof.
  intros Hp Hk Hin Hid.
  destruct (final_from_merge _ _ _ _ _ Hin) as [v [-> [Hv _]]].
  cbn in Hid. rewrite Hid in Hv.
  apply (merge_in _ _ _ _ (load_existing_nodup stored)) in Hv.
  destruct Hv as [Hc | [_ Hg]].
  - exfalso. apply candidate_some in Hc. destruct Hc as [Hc Hidv].
    apply Hk. rewrite <- Hidv. apply in_map, Hc.
  - assert (v = p) by congruence. subst v.
    split; [reflexivity|]. split; [apply mark_breaking_same | reflexivity].
Qed.

(** C2, amended.  Every id of a candidate is a key of the merged
    dictionary and holds the candidate (the last one built with that id),
    whatever was stored under it.  An event of the final collection with
    that id is the candidate with is_breaking set, and the candidate is in
    the final collection when it passes the retention filter and no more
    than 200 events pass it. *)
Theorem candidates_override new_events stored
    (recent_cutoff alert_cutoff k : str) :
  In k (map Event.id new_events) ->
  exists n,
    candidate new_events k = Some n /\ In n new_events /\ Event.id n = k /\
    Dict.get (merge new_events (load_existing stored)) k = Some n /\
    (forall e,
       In e (final_collection new_events (load_existing stored)
               recent_cutoff alert_cutoff) ->
       Event.id e = k -> e = mark_breaking alert_cutoff n) /\
    (str_ge (Event.timestamp n) recent_cutoff ->
     (length (retained (merge new_events (load_existing stored)) recent_cutoff)
      <= CAP)%nat ->
     In (mark_breaking alert_cutoff n)
        (final_collection new_events (load_existing stored)
           recent_cutoff alert_cutoff)).
Proof.
  intros Hk. destruct (candidate_exists _ _ Hk) as [n Hn].
  pose proof (candidate_some _ _ _ Hn) as [Hin Hid].
  pose proof (merge_get_candidate _ (load_existing stored) _ _ Hn) as Hget.
  exists n. repeat split; try assumption.
  - intros e He Hide.
    destruct (final_from_merge _ _ _ _ _ He) as [v [-> [Hv _]]].
    cbn in Hide. rewrite Hide in Hv.
    apply dict_in_get in Hv; [|apply merge_nodup]. congruence.
  - intros Hts Hlen. unfold final_collection.
    apply in_map. rewrite firstn_all2 by exact Hlen.
    apply retained_in. split; [|exact Hts].
    exists k. apply dict_get_in, Hget.
Qed.

End FinalFacts.

(* ------------------------------------------------------------------ *)
(** * The final collection of a run *)

Section CollectionFacts.

Variable str_lower : str -> str.
Variable ieq : char -> char -> bool.
Variable strptime : str -> str -> option (datetime * option timedelta).

Local Abbreviation run := (main str_lower ieq strptime).

Lemma mark_breaking_timestamp (alert_cutoff : str) (e : Event.t) :
  Event.timestamp (mark_breaking alert_cutoff e) = Event.timestamp e.
Proof. reflexivity. Qed.

(** For timestamps this program writes, the string order is the order of
    the instants. *)
Lemma wellformed_ge (d c : datetime) :
  valid d -> valid c ->
  (str_ge (isoformat d) (isoformat c) <-> (instant c <= instant d)%Z).
Proof.
  intros Vd Vc. rewrite isoformat_ge by assumption.
  apply dt_ge_instant; assumption.
Qed.

(** C3.  In the collection a run writes, every event's timestamp is at or
    after the retention cutoff, which is the reading of the clock at the
    merge less 72 hours.  The test is on the stored timestamp at the time of
    the merge, so it holds for events carried over from the stored
    collection as for new ones: an event whose timestamp is a UTC datetime
    older than that is not in the collection. *)
Theorem retention_window (clock : Clock.t) (items : list Item.t)
    (stored : option (list Event.t)) (final : list Event.t) (meta : Meta.t) :
  run clock items stored = Some (final, meta) ->
  exists recent,
    dt_sub (Clock.at_retention clock) (td_hours 72) = Some recent /\
    forall e, In e final ->
      str_ge (Event.timestamp e) (isoformat recent) /\
      forall d, valid d -> Event.timestamp e = isoformat d ->
        dt_ge d recent /\
        (instant (Clock.at_retention clock) - td_hours 72 <= instant d)%Z.
Proof.
  intros H. apply main_some in H.
  destruct H as (cutoff & new_events & recent & alert & _ & _ & Hr & _ & -> & _).
  exists recent. split; [exact Hr|]. intros e He.
  apply final_in in He. destruct He as [v [-> Hv]].
  apply retained_in in Hv. destruct Hv as [_ Hts].
  rewrite mark_breaking_timestamp. split; [exact Hts|].
  intros d Vd Ed. rewrite Ed in Hts.
  apply dt_sub_spec in Hr. destruct Hr as [Vr Ir].
  split.
  - apply isoformat_ge; assumption.
  - rewrite <- Ir. apply wellformed_ge; assumption.
Qed.

(** C4.  The collection a run writes is in descending order of timestamp
    and has at most 200 events.  It is the first 200 of the survivors: the
    events of the dictionary merged from the candidates of the run and the
    stored collection that pass the retention filter of the run, taken
    newest first.  Every survivor that is cut off is at most as recent as
    every event that is kept, and 200 events are kept whenever more than 200
    survive. *)
Theorem newest_first_capped (clock : Clock.t) (items : list Item.t)
    (stored : option (list Event.t)) (final : list Event.t) (meta : Meta.t) :
  run clock items stored = Some (final, meta) ->
  StronglySorted newest_first final /\
  (length final <= 200)%nat /\
  exists cutoff new_events recent alert,
    dt_sub (Clock.at_start clock) (td_days 7) = Some cutoff /\
    ingest str_lower ieq strptime clock cutoff (load_existing stored)
      items 0 [] [] = Some new_events /\
    dt_sub (Clock.at_retention clock) (td_hours 72) = Some recent /\
    dt_sub (Clock.at_alert clock) (td_hours 3) = Some alert /\
    let merged := merge new_events (load_existing stored) in
    let survivors := retained merged (isoformat recent) in
    (forall v,
       In v survivors <->
       (exists k, In (k, v) merged) /\
       str_ge (Event.timestamp v) (isoformat recent)) /\
    StronglySorted newest_first survivors /\
    final = map (mark_breaking (isoformat alert)) (firstn 200 survivors) /\
    survivors = firstn 200 survivors ++ skipn 200 survivors /\
    length final = Nat.min 200 (length survivors) /\
    ((200 < length survivors)%nat -> length final = 200%nat) /\
    (forall kept dropped,
       In kept (firstn 200 survivors) -> In dropped (skipn 200 survivors) ->
       newest_first kept dropped) /\
    (forall a b da db,
       valid da -> valid db ->
       Event.timestamp a = isoformat da -> Event.timestamp b = isoformat db ->
       (newest_first a b <-> (instant db <= instant da)%Z)).
Proof.
  intros H. apply main_some in H.
  destruct H as (cutoff & new_events & recent & alert & E1 & E2 & E3 & E4 & -> & _).
  unfold final_collection. change CAP with 200%nat.
  set (merged := merge new_events (load_existing stored)).
  set (survivors := retained merged (isoformat recent)).
  assert (Hs : StronglySorted newest_first survivors)
    by apply retained_sorted.
  split; [|split].
  - apply sorted_map with (R := newest_first).
    + intros x y Hxy. exact Hxy.
    + apply sorted_firstn, Hs.
  - rewrite length_map, length_firstn. lia.
  - exists cutoff, new_events, recent, alert.
    split; [exact E1|]. split; [exact E2|]. split; [exact E3|].
    split; [exact E4|]. cbv zeta. fold merged. fold survivors.
    split; [intros v; apply retained_in|]. split; [exact Hs|].
    split; [reflexivity|].
    split; [symmetry; apply firstn_skipn|].
    split; [rewrite length_map, length_firstn; reflexivity|].
    split; [|split].
    + intros Hlen. rewrite length_map, length_firstn. lia.
    + rewrite <- (firstn_skipn 200 survivors) in Hs.
      apply sorted_app in Hs. apply Hs.
    + intros a b da db Va Vb Ea Eb. unfold newest_first, descending.
      rewrite Ea, Eb. apply wellformed_ge; assumption.
Qed.

(** C5.  In the collection a run writes, every event carries is_breaking,
    and it is true exactly when the severity is "high" and the timestamp is
    at or after the alert cutoff, the reading of the clock less 3 hours.
    The flag is set on the events of the final collection, whatever value
    they carried before. *)
Theorem breaking_flag (clock : Clock.t) (items : list Item.t)
    (stored : option (list Event.t)) (final : list Event.t) (meta : Meta.t) :
  run clock items stored = Some (final, meta) ->
  exists alert,
    dt_sub (Clock.at_alert clock) (td_hours 3) = Some alert /\
    forall e, In e final ->
      exists b,
        Event.is_breaking e = Some b /\
        (b = true <->
         Event.severity e = py "high" /\
         str_ge (Event.timestamp e) (isoformat alert)) /\
        forall d, valid d -> Event.timestamp e = isoformat d ->
          (str_ge (Event.timestamp e) (isoformat alert) <->
           (instant (Clock.at_alert clock) - td_hours 3 <= instant d)%Z).
Proof.
  intros H. apply main_some in H.
  destruct H as (cutoff & new_events & recent & alert & _ & _ & _ & Ha & -> & _).
  exists alert. split; [exact Ha|]. intros e He.
  apply final_in in He. destruct He as [v [-> _]].
  eexists. split; [reflexivity|]. cbn [Event.severity Event.timestamp mark_breaking
    Event.set_is_breaking]. split.
  - rewrite andb_true_iff, str_geb_ge, str_eqb_eq. tauto.
  - intros d Vd Ed. rewrite Ed.
    apply dt_sub_spec in Ha. destruct Ha as [Va Ia]. rewrite <- Ia.
    apply wellformed_ge; assumption.
Qed.

(** The timestamps of the collection stay UTC datetimes in ISO format from
    one run to the next. *)
Lemma final_wellformed (clock : Clock.t) (items : list Item.t)
    (stored : option (list Event.t)) (final : list Event.t) (meta : Meta.t) :
  (forall s fmt fields off, strptime s fmt = Some (fields, off) -> valid fields) ->
  (forall i, valid (Clock.at_item clock i)) ->
  (forall events p, stored = Some events -> In p events ->
                    wellformed (Event.timestamp p)) ->
  run clock items stored = Some (final, meta) ->
  forall e, In e final -> wellformed (Event.timestamp e).
Proof.
  intros Hsp Hclock Hstored H e He. apply main_some in H.
  destruct H as (cutoff & new_events & recent & alert & _ & Hing & _ & _ & -> & _).
  apply final_from_merge in He. destruct He as [v [-> [Hv _]]].
  rewrite mark_breaking_timestamp.
  apply (merge_in _ _ _ _ (load_existing_nodup stored)) in Hv.
  destruct Hv as [Hc | [_ Hg]].
  - apply candidate_some in Hc. destruct Hc as [Hin _].
    pose proof (ingest_wellformed str_lower ieq strptime clock cutoff
                  (load_existing stored) items Hsp Hclock 0%nat [] [] new_events
                  (Forall_nil _) Hing) as Hall.
    rewrite Forall_forall in Hall. apply Hall, Hin.
  - apply dict_get_in in Hg. destruct stored as [events|]; [|destruct Hg].
    simpl in Hg. apply dict_in_of_items in Hg. unfold pairs in Hg.
    apply in_map_iff in Hg. destruct Hg as [p [Hp Hin]].
    injection Hp as _ <-. apply (Hstored events p eq_refl Hin).
Qed.

End CollectionFacts.

(* ------------------------------------------------------------------ *)
(** * The summary *)

Section SummaryFacts.

(** With one reading of the clock for the whole sum, the sum is over the
    events at or after that reading with hour, minute and second set to
    zero. *)
Lemma today_cost_steady (now : datetime) (i : nat) (all_events : list Event.t) :
  today_cost (fun _ => now) i all_events =
  sum (map Event.cost_usd
         (filter (fun e => str_geb (Event.timestamp e) (today_cutoff now))
                 all_events)).
Proof.
  revert i. induction all_events as [|e l IH]; intros i; [reflexivity|].
  cbn [today_cost filter].
  destruct (str_geb (Event.timestamp e) (today_cutoff now)).
  - cbn [map sum fold_right]. rewrite IH. reflexivity.
  - apply IH.
Qed.

(** The cutoff of the sum keeps the microsecond of the reading: it is the
    start of the day only when the reading falls on a whole second. *)
Lemma today_cutoff_midnight (now : datetime) :
  microsecond now = 0%Z ->
  today_cutoff now = isoformat (mkdt (year now) (month now) (day now) 0 0 0 0).
Proof. intros H. unfold today_cutoff, replace_hms0. rewrite H. reflexivity. Qed.

End SummaryFacts.

(* ------------------------------------------------------------------ *)
(** * The program on concrete inputs *)

(** C7.  The run of 2 January 2024 at 10:00:00.5 keeps an event published
    at 00:00:00 of that day, with a cost of 500000.  The events of the
    final collection at or after 00:00 UTC of the day cost 550000 together;
    the summary counts 50000, because the cutoff of the sum keeps the
    microsecond of the clock and the event at midnight falls before it. *)
Theorem today_cost_skips_midnight :
  exists e,
    Sample.run Sample.clock0 Sample.items0 Sample.stored0 =
      Some (Sample.final0, Sample.meta0) /\
    In e Sample.final0 /\
    Event.timestamp e = isoformat (mkdt 2024 1 2 0 0 0 0) /\
    date_of (mkdt 2024 1 2 0 0 0 0) = date_of (Clock.at_today Sample.clock0 0) /\
    Event.cost_usd e = 500000%Z /\
    today_cutoff (Clock.at_today Sample.clock0 0) =
      isoformat (mkdt 2024 1 2 0 0 0 500000) /\
    sum (map Event.cost_usd
           (filter (fun e => str_geb (Event.timestamp e)
                               (isoformat (mkdt 2024 1 2 0 0 0 0)))
                   Sample.final0)) = 550000%Z /\
    Meta.today_extra_cost Sample.meta0 = 50000%Z.
Proof.
  exists (nth 1 Sample.final0 Sample.kept_event).
  split; [vm_compute; reflexivity|].
  split; [right; left; reflexivity|].
  repeat split; vm_compute; reflexivity.
Qed.

(** C2, as stated, fails: the run of 2 January 2024 builds a candidate from
    an item published five days before, which passes the ingestion cutoff
    of seven days, and no event of the final collection has its id. *)
Lemma candidate_missing_from_final :
  exists cutoff n,
    dt_sub (Clock.at_start Sample.clock0) (td_days 7) = Some cutoff /\
    ingest ascii_lower Re.ascii_ieq Sample.strptime Sample.clock0 cutoff
      (load_existing Sample.stored0) Sample.items0 0 [] [] =
      Some Sample.candidates0 /\
    Sample.run Sample.clock0 Sample.items0 Sample.stored0 =
      Some (Sample.final0, Sample.meta0) /\
    In n Sample.candidates0 /\
    ~ (exists e, In e Sample.final0 /\ Event.id e = Event.id n).
Proof.
  exists (mkdt 2023 12 26 10 0 0 500000), (nth 2 Sample.candidates0 Sample.kept_event).
  split; [vm_compute; reflexivity|].
  split; [vm_compute; reflexivity|].
  split; [vm_compute; reflexivity|].
  split; [right; right; left; reflexivity|].
  intros [e [Hin Hid]].
  destruct Hin as [<- | [<- | [<- | []]]]; vm_compute in Hid; discriminate Hid.
Qed.

Lemma classify_priority_witness :
  classify ascii_lower
    (py "Russia launches missile strike killing dozens in Kyiv") = py "high".
Proof.
  apply (classify_priority ascii_lower).
  exists (py "dozens"). split.
  - unfold HIGH_WORDS. apply in_map. simpl. tauto.
  - apply contains_spec. vm_compute. reflexivity.
Defined.

Lemma estimate_cost_first_match_witness :
  estimate_cost Re.ascii_ieq (py "Patriot battery fires missile at B-2") =
  (135000%Z, Some (py "B-2 bomber sortie/hr")).
Proof.
  refine (proj1 (estimate_cost_first_match Re.ascii_ieq _) 2%nat _ _ _ eq_refl _ _).
  - apply search_spec. vm_compute. reflexivity.
  - intros j p c l Hj Hn. apply search_false.
    destruct j as [|[|j]]; [| | lia];
      injection Hn as <- _ _; vm_compute; reflexivity.
Defined.

Lemma event_id_prefix_date_witness :
  event_id (py "Missile strike kills dozens in the north of the country, officials say")
           (date_of (mkdt 2024 1 2 0 0 0 0)) =
  event_id (py "Missile strike kills dozens in the north of the country: live")
           (date_of (mkdt 2024 1 2 9 30 0 0)).
Proof.
  apply (event_id_prefix_date _ _ (mkdt 2024 1 2 0 0 0 0) (mkdt 2024 1 2 9 30 0 0)).
  - vm_compute. reflexivity.
  - reflexivity.
Defined.

Lemma parse_date_wall_clock_witness :
  parse_date Sample.strptime Sample.now0 (py " 2024-01-02T00:00:00+02:00 ") =
    mkdt 2024 1 2 0 0 0 0 /\
  (instant (parse_date Sample.strptime Sample.now0
              (py " 2024-01-02T00:00:00+02:00 ")) -
   instant_at (mkdt 2024 1 2 0 0 0 0) (td_hours 2) = td_hours 2)%Z /\
  parse_date Sample.strptime Sample.now0 (py "yesterday") = Sample.now0.
Proof.
  pose proof (parse_date_wall_clock Sample.strptime Sample.now0
                (py " 2024-01-02T00:00:00+02:00 ")
                (mkdt 2024 1 2 0 0 0 0) (td_hours 2)) as [H1 _].
  pose proof (parse_date_wall_clock Sample.strptime Sample.now0
                (py "yesterday") (mkdt 2024 1 2 0 0 0 0) (td_hours 2)) as [_ H2].
  assert (F : first_parse Sample.strptime (py " 2024-01-02T00:00:00+02:00 ")
                DATE_FORMATS (mkdt 2024 1 2 0 0 0 0) (Some (td_hours 2))).
  { apply FP_later; [vm_compute; reflexivity|].
    apply FP_later; [vm_compute; reflexivity|].
    apply FP_here. vm_compute. reflexivity. }
  destruct (H1 F) as [E1 [E2 _]].
  split; [exact E1|]. split; [exact E2|].
  apply H2. intros fmt Hf.
  destruct Hf as [<- | [<- | [<- | [<- | []]]]]; vm_compute; reflexivity.
Defined.

Lemma retention_window_witness :
  exists recent,
    dt_sub (Clock.at_retention Sample.clock0) (td_hours 72) = Some recent /\
    forall e, In e Sample.final0 ->
      str_ge (Event.timestamp e) (isoformat recent) /\
      forall d, valid d -> Event.timestamp e = isoformat d ->
        dt_ge d recent /\
        (instant (Clock.at_retention Sample.clock0) - td_hours 72 <= instant d)%Z.
Proof.
  apply (retention_window ascii_lower Re.ascii_ieq Sample.strptime
           Sample.clock0 Sample.items0 Sample.stored0 Sample.final0 Sample.meta0).
  vm_compute. reflexivity.
Defined.

Lemma newest_first_capped_witness :
  StronglySorted newest_first SampleCap.final0 /\
  length SampleCap.final0 = 200%nat /\
  skipn 200 (retained (merge [] (load_existing SampleCap.stored0))
               (isoformat (mkdt 2023 12 30 10 0 0 500000))) =
    [SampleCap.event_at 0] /\
  Forall (fun kept => newest_first kept (SampleCap.event_at 0))
         (firstn 200 (retained (merge [] (load_existing SampleCap.stored0))
                        (isoformat (mkdt 2023 12 30 10 0 0 500000)))).
Proof.
  pose proof (newest_first_capped ascii_lower Re.ascii_ieq Sample.strptime
                Sample.clock0 [] SampleCap.stored0
                SampleCap.final0 SampleCap.meta0) as H.
  assert (R : main ascii_lower Re.ascii_ieq Sample.strptime
                Sample.clock0 [] SampleCap.stored0 =
              Some (SampleCap.final0, SampleCap.meta0))
    by (vm_compute; reflexivity).
  destruct (H R) as [Hs [_ Hrun]].
  destruct Hrun as (cutoff & new_events & recent & alert & _ & E2 & E3 & _ & Hrest).
  cbn [ingest] in E2. injection E2 as <-.
  assert (Er : recent = mkdt 2023 12 30 10 0 0 500000).
  { vm_compute in E3. injection E3 as <-. reflexivity. }
  subst recent. cbv zeta in Hrest.
  destruct Hrest as (_ & _ & _ & _ & _ & Hfull & Hcut & _).
  assert (Hdrop : skipn 200 (retained (merge [] (load_existing SampleCap.stored0))
                               (isoformat (mkdt 2023 12 30 10 0 0 500000))) =
                  [SampleCap.event_at 0])
    by (vm_compute; reflexivity).
  split; [exact Hs|]. split; [|split; [exact Hdrop|]].
  - apply Hfull. vm_compute. lia.
  - apply Forall_forall. intros kept Hkept. apply (Hcut kept).
    + exact Hkept.
    + rewrite Hdrop. left. reflexivity.
Defined.

Lemma breaking_flag_witness :
  exists alert,
    dt_sub (Clock.at_alert Sample.clock0) (td_hours 3) = Some alert /\
    forall e, In e Sample.final0 ->
      exists b,
        Event.is_breaking e = Some b /\
        (b = true <->
         Event.severity e = py "high" /\
         str_ge (Event.timestamp e) (isoformat alert)) /\
        forall d, valid d -> Event.timestamp e = isoformat d ->
          (str_ge (Event.timestamp e) (isoformat alert) <->
           (instant (Clock.at_alert Sample.clock0) - td_hours 3 <= instant d)%Z).
Proof.
  apply (breaking_flag ascii_lower Re.ascii_ieq Sample.strptime
           Sample.clock0 Sample.items0 Sample.stored0 Sample.final0 Sample.meta0).
  vm_compute. reflexivity.
Defined.

Lemma carried_forward_unchanged_witness :
  let e := nth 2 Sample.final0 Sample.stale_event in
  Event.same_but_breaking e Sample.kept_event /\
  Event.is_new e = Event.is_new Sample.kept_event /\
  Event.is_breaking Sample.kept_event = Some true /\
  Event.is_breaking e = Some false.
Proof.
  intros e.
  destruct (carried_forward_unchanged Sample.candidates0 Sample.stored0
              (isoformat (mkdt 2023 12 30 10 0 0 500000))
              (isoformat (mkdt 2024 1 2 7 0 0 500000))
              (Event.id Sample.kept_event) Sample.kept_event e)
    as [_ [H1 H2]].
  - vm_compute. reflexivity.
  - vm_compute. intros [H | [H | [H | []]]]; discriminate H.
  - vm_compute. right; right; left; reflexivity.
  - vm_compute. reflexivity.
  - split; [exact H1|]. split; [exact H2|]. split; reflexivity.
Defined.

Lemma candidates_override_witness :
  let k := Event.id (nth 1 Sample.candidates0 Sample.kept_event) in
  exists n,
    candidate Sample.candidates0 k = Some n /\
    Dict.get (merge Sample.candidates0 (load_existing Sample.stored0)) k = Some n /\
    In (mark_breaking (isoformat (mkdt 2024 1 2 7 0 0 500000)) n) Sample.final0.
Proof.
  intros k.
  destruct (candidates_override Sample.candidates0 Sample.stored0
              (isoformat (mkdt 2023 12 30 10 0 0 500000))
              (isoformat (mkdt 2024 1 2 7 0 0 500000)) k)
    as [n [Hc [_ [_ [Hg [_ Hfinal]]]]]].
  - vm_compute. right; left; reflexivity.
  - exists n. split; [exact Hc|]. split; [exact Hg|].
    assert (En : n = nth 1 Sample.candidates0 Sample.kept_event).
    { vm_compute in Hc. injection Hc as <-. vm_compute. reflexivity. }
    subst n.
    assert (Hin : In (mark_breaking (isoformat (mkdt 2024 1 2 7 0 0 500000))
                        (nth 1 Sample.candidates0 Sample.kept_event))
                     (final_collection Sample.candidates0
                        (load_existing Sample.stored0)
                        (isoformat (mkdt 2023 12 30 10 0 0 500000))
                        (isoformat (mkdt 2024 1 2 7 0 0 500000)))).
    { apply Hfinal.
      - vm_compute. discriminate.
      - vm_compute. lia. }
    vm_compute in Hin |- *. exact Hin.
Defined.

(* ------------------------------------------------------------------ *)
(** * Further properties of the merge *)

Section ListFacts.

Variables A B : Type.

Lemma NoDup_map_filter (key : A -> B) (keep : A -> bool) (xs : list A) :
  NoDup (map key xs) -> NoDup (map key (filter keep xs)).
Proof.
  intros Hnd. induction xs as [|x xs IH]; cbn [filter map] in *; [constructor|].
  inversion Hnd as [|? ? Hx Hrest]; subst.
  destruct (keep x); cbn [map]; [constructor|]; auto.
  intros Hin. apply Hx. apply in_map_iff in Hin.
  destruct Hin as [y [Ey Hy]]. apply filter_In in Hy.
  apply in_map_iff. exists y. tauto.
Qed.

Lemma NoDup_map_firstn (f : A -> B) (n : nat) (l : list A) :
  NoDup (map f l) -> NoDup (map f (firstn n l)).
Proof.
  revert n. induction l as [|x l IH]; intros [|n] H; simpl; try constructor.
  - inversion H as [|? ? Hx Hl]; subst. intros Hin. apply Hx.
    apply in_map_iff in Hin. destruct Hin as [y [Ey Hy]].
    apply in_map_iff. exists y. split; [exact Ey|].
    rewrite <- (firstn_skipn n l). apply in_or_app. left; exact Hy.
  - inversion H; subst. apply IH. assumption.
Qed.

Lemma filter_comm (p q : A -> bool) (l : list A) :
  filter p (filter q l) = filter q (filter p l).
Proof.
  induction l as [|x l IH]; simpl; [reflexivity|].
  destruct (p x) eqn:Ep; destruct (q x) eqn:Eq; simpl;
    rewrite ?Ep, ?Eq, IH; reflexivity.
Qed.

Lemma filter_all (p : A -> bool) (l : list A) :
  (forall x, In x l -> p x = true) -> filter p l = l.
Proof.
  induction l as [|x l IH]; simpl; intros H; [reflexivity|].
  rewrite (H x) by (left; reflexivity). f_equal. apply IH.
  intros y Hy. apply H. right; exact Hy.
Qed.

Lemma filter_none (p : A -> bool) (l : list A) :
  (forall x, In x l -> p x = false) -> filter p l = [].
Proof.
  induction l as [|x l IH]; simpl; intros H; [reflexivity|].
  rewrite (H x) by (left; reflexivity). apply IH.
  intros y Hy. apply H. right; exact Hy.
Qed.

End ListFacts.

Section SortedInput.

Variable A : Type.
Variable key : A -> str.

(** Sorting a list that is in descending order leaves it as it is. *)
Lemma sorted_reverse_sorted_id (l : list A) :
  StronglySorted (descending key) l -> sorted_reverse key l = l.
Proof.
  induction 1 as [|x l Hs IH Hall]; [reflexivity|].
  cbn [sorted_reverse fold_right]. fold (sorted_reverse key l). rewrite IH.
  destruct l as [|y l']; [reflexivity|].
  cbn [insert_desc]. inversion Hall as [|? ? Hxy _]; subst.
  unfold descending, str_ge in Hxy.
  destruct (str_compare (key x) (key y)); try reflexivity. congruence.
Qed.

End SortedInput.

Section MergeMore.

Implicit Types (new_events : list Event.t) (stored : option (list Event.t)).

Lemma keyed_values_ids (d : Dict.dict Event.t) :
  keyed d -> map Event.id (Dict.values d) = Dict.keys d.
Proof.
  unfold keyed, Dict.values, Dict.keys. induction d as [|[k v] d IH]; intros H;
    [reflexivity|].
  simpl. rewrite (H k v) by (left; reflexivity). f_equal.
  apply IH. intros k' v' Hin. apply H. right; exact Hin.
Qed.

Lemma mark_breaking_ids (alert_cutoff : str) (l : list Event.t) :
  map Event.id (map (mark_breaking alert_cutoff) l) = map Event.id l.
Proof. rewrite map_map. reflexivity. Qed.

(** X1.  The collection a run writes holds at most one event per id. *)
Theorem final_ids_unique new_events stored (recent_cutoff alert_cutoff : str) :
  NoDup (map Event.id
           (final_collection new_events (load_existing stored)
              recent_cutoff alert_cutoff)).
Proof.
  unfold final_collection, retained. rewrite mark_breaking_ids.
  apply NoDup_map_firstn, NoDup_map_filter.
  apply (Permutation_NoDup
           (l := map Event.id (Dict.values (merge new_events (load_existing stored))))).
  - apply Permutation_map, Permutation_sym, sorted_reverse_perm.
  - rewrite keyed_values_ids.
    + apply merge_nodup.
    + apply merge_keyed; [apply load_existing_nodup | apply load_existing_keyed].
Qed.

(** X2.  [load_existing] keys the stored events by id: a missing or
    unreadable file gives a dictionary without keys; otherwise the keys are
    the ids of the stored events, each once, and an id held by several
    stored events gives the last of them. *)
Theorem load_existing_lookup (events : list Event.t) (k : str) :
  Dict.get (load_existing None) k = None /\
  Dict.get (load_existing (Some events)) k =
    find (fun e => str_eqb (Event.id e) k) (rev events) /\
  (Dict.mem k (load_existing (Some events)) = true <->
   In k (map Event.id events)) /\
  NoDup (Dict.keys (load_existing (Some events))).
Proof.
  split; [reflexivity|]. split; [apply get_candidate|].
  split; [|apply (load_existing_nodup (Some events))].
  cbn [load_existing]. rewrite dict_mem_keys, dict_keys_of_items, pairs_keys.
  reflexivity.
Qed.

(** X3.  After lines 167-168 an id holds the candidate built with it, the
    last one if there are several, and otherwise what the stored collection
    holds for it. *)
Theorem merge_lookup new_events stored (k : str) :
  Dict.get (merge new_events (load_existing stored)) k =
  match candidate new_events k with
  | Some n => Some n
  | None => Dict.get (load_existing stored) k
  end.
Proof.
  destruct (candidate new_events k) as [n|] eqn:Ec.
  - apply merge_get_candidate, Ec.
  - apply candidate_none in Ec.
    destruct (Dict.get (load_existing stored) k) as [v|] eqn:Eg.
    + apply dict_in_get; [apply merge_nodup|].
      rewrite merge_app by apply load_existing_nodup.
      apply in_or_app. right. apply carried_in.
      split; [apply dict_get_in, Eg | exact Ec].
    + destruct (Dict.get (merge new_events (load_existing stored)) k) as [v|] eqn:Em;
        [|reflexivity].
      apply dict_get_in in Em.
      apply (merge_in _ _ _ _ (load_existing_nodup stored)) in Em.
      destruct Em as [Hc | [_ Hg]]; [|congruence].
      apply candidate_some in Hc. destruct Hc as [Hin Hid].
      exfalso. apply Ec. rewrite <- Hid. apply in_map, Hin.
Qed.

(** X4.  When no more than 200 events pass the retention filter, the final
    collection holds exactly the events of the merged dictionary whose
    timestamp is at or after the cutoff, each with is_breaking set: nothing
    inside the window is lost. *)
Theorem final_membership new_events stored (recent_cutoff alert_cutoff : str)
    (e : Event.t) :
  (length (retained (merge new_events (load_existing stored)) recent_cutoff)
   <= CAP)%nat ->
  (In e (final_collection new_events (load_existing stored)
           recent_cutoff alert_cutoff) <->
   exists v,
     Dict.get (merge new_events (load_existing stored)) (Event.id v) = Some v /\
     str_ge (Event.timestamp v) recent_cutoff /\
     e = mark_breaking alert_cutoff v).
Proof.
  intros Hlen. split.
  - intros Hin. apply final_from_merge in Hin.
    destruct Hin as [v [-> [Hv Hts]]]. exists v.
    split; [apply dict_in_get; [apply merge_nodup | exact Hv]|].
    split; [exact Hts | reflexivity].
  - intros [v [Hg [Hts ->]]]. unfold final_collection.
    apply in_map. rewrite firstn_all2 by exact Hlen.
    apply retained_in. split; [|exact Hts].
    exists (Event.id v). apply dict_get_in, Hg.
Qed.

(** X5.  A run without candidates on a stored collection that is as a run
    writes it (one event per id, newest first) returns the stored events
    that are still inside the window, in the same order, with is_breaking
    set anew. *)
Theorem rerun_keeps_order (events : list Event.t)
    (recent_cutoff alert_cutoff : str) :
  NoDup (map Event.id events) ->
  StronglySorted newest_first events ->
  final_collection [] (load_existing (Some events)) recent_cutoff alert_cutoff =
  map (mark_breaking alert_cutoff)
      (firstn CAP
         (filter (fun e => str_geb (Event.timestamp e) recent_cutoff) events)).
Proof.
  intros Hnd Hs. unfold final_collection, retained.
  assert (Hk : NoDup (Dict.keys (pairs events))).
  { unfold Dict.keys. rewrite pairs_keys. exact Hnd. }
  assert (Hm : merge [] (load_existing (Some events)) = pairs events).
  { rewrite merge_app by apply load_existing_nodup.
    cbn [load_existing]. rewrite (dict_of_items_id _ _ Hk).
    unfold carried. cbn. apply filter_all. reflexivity. }
  rewrite Hm.
  assert (Hv : Dict.values (pairs events) = events).
  { unfold Dict.values, pairs. rewrite map_map. cbn. apply map_id. }
  rewrite Hv, (sorted_reverse_sorted_id _ _ _ Hs). reflexivity.
Qed.

(** X6.  The sort is stable: the retained events of one timestamp are in
    the order of the merged dictionary, the candidates in order of first
    appearance and then the stored events in stored order. *)
Theorem ties_keep_order (merged : Dict.dict Event.t) (recent_cutoff t : str) :
  filter (fun e => str_eqb (Event.timestamp e) t) (retained merged recent_cutoff) =
  if str_geb t recent_cutoff
  then filter (fun e => str_eqb (Event.timestamp e) t) (Dict.values merged)
  else [].
Proof.
  unfold retained. rewrite filter_comm, sorted_reverse_stable.
  destruct (str_geb t recent_cutoff) eqn:E.
  - apply filter_all. intros x Hx. apply filter_In in Hx.
    destruct Hx as [_ Hx]. apply str_eqb_eq in Hx. rewrite Hx. exact E.
  - apply filter_none. intros x Hx. apply filter_In in Hx.
    destruct Hx as [_ Hx]. apply str_eqb_eq in Hx. rewrite Hx. exact E.
Qed.

End MergeMore.

(* ------------------------------------------------------------------ *)
(** * The loop over the feed items *)

Section IngestFacts.

Variable str_lower : str -> str.
Variable ieq : char -> char -> bool.
Variable strptime : str -> str -> option (datetime * option timedelta).

Local Abbreviation collect := (ingest str_lower ieq strptime).
Local Abbreviation admitted := (admissible str_lower strptime).
Local Abbreviation made := (built str_lower ieq strptime).
Local Abbreviation post := (loop_post str_lower ieq strptime).

Lemma existsb_str_eqb (p : str) (seen : list str) :
  existsb (str_eqb p) seen = true <-> In p seen.
Proof.
  rewrite existsb_exists. split.
  - intros [x [Hin He]]. apply str_eqb_eq in He. subst x. exact Hin.
  - intros Hin. exists p. split; [exact Hin | apply str_eqb_refl].
Qed.

Lemma firstn_40_200 (t : str) : firstn 40 (firstn 200 t) = firstn 40 t.
Proof. rewrite firstn_firstn. reflexivity. Qed.

(** An item the loop passes over: the rest of the loop decides. *)
Lemma loop_post_skip (clock : Clock.t) (cutoff : datetime)
    (existing : Dict.dict Event.t) (item : Item.t) (items : list Item.t)
    (i : nat) (seen : list str) (acc out : list Event.t) :
  seen_inv seen acc ->
  (admitted clock cutoff i item -> In (firstn 40 (Item.title item)) seen) ->
  post clock cutoff existing items (S i) seen acc out ->
  post clock cutoff existing (item :: items) i seen acc out.
Proof.
  intros Hinv Hhead [[added [Eo Hadd]] [Hnd [Hall Hfirst]]].
  split; [|split; [exact Hnd|split]].
  - exists added. split; [exact Eo|].
    eapply Forall_impl; [|exact Hadd].
    intros e [j [it [Hn [Ha Hb]]]]. exists (S j), it.
    rewrite Nat.add_succ_r.
    split; [exact Hn | split; [exact Ha | exact Hb]].
  - intros [|j] it Hn Ha.
    + injection Hn as <-. rewrite Nat.add_0_r in Ha.
      rewrite Eo, map_app. apply in_or_app. left. apply Hinv, Hhead, Ha.
    + rewrite Nat.add_succ_r in Ha. apply (Hall j it Hn Ha).
  - intros [|j] it Hn Ha Hnew Hearlier.
    + injection Hn as <-. rewrite Nat.add_0_r in Ha.
      exfalso. apply Hnew, Hhead, Ha.
    + rewrite Nat.add_succ_r in *.
      apply (Hfirst j it Hn Ha Hnew).
      intros j' it' Hlt Hn' Ha'. apply (Hearlier (S j') it').
      * lia.
      * exact Hn'.
      * rewrite Nat.add_succ_r. exact Ha'.
Qed.

Lemma ingest_inv (clock : Clock.t) (cutoff : datetime)
    (existing : Dict.dict Event.t) (items : list Item.t) :
  forall (i : nat) (seen : list str) (acc out : list Event.t),
    seen_inv seen acc ->
    collect clock cutoff existing items i seen acc = Some out ->
    post clock cutoff existing items i seen acc out.
Proof.
  induction items as [|item items IH]; intros i seen acc out Hinv H.
  - simpl in H. injection H as <-. split; [|split; [|split]].
    + exists []. rewrite app_nil_r. split; [reflexivity | constructor].
    + apply Hinv.
    + intros [|j] it Hn; discriminate Hn.
    + intros [|j] it Hn; discriminate Hn.
  - cbn [ingest] in H.
    destruct (str_eqb (Item.title item) []) eqn:Eempty.
    { cbn [orb] in H. apply loop_post_skip; [exact Hinv| |apply IH; assumption].
      intros [Ht _]. apply str_eqb_eq in Eempty. contradiction. }
    cbn [orb] in H.
    destruct (existsb (str_eqb (firstn 40 (Item.title item))) seen) eqn:Eseen.
    { apply loop_post_skip; [exact Hinv| |apply IH; assumption].
      intros _. apply existsb_str_eqb, Eseen. }
    destruct (relevant str_lower (Item.full item)) eqn:Erel; cbn [negb] in H.
    2:{ apply loop_post_skip; [exact Hinv| |apply IH; assumption].
        intros [_ [Hr _]]. congruence. }
    destruct (dt_ltb (parse_date strptime (Clock.at_item clock i) (Item.pub item))
                     cutoff) eqn:Eold.
    { apply loop_post_skip; [exact Hinv| |apply IH; assumption].
      intros [_ [_ Ho]]. unfold item_time in Ho. congruence. }
    destruct (estimate_cost ieq (Item.full item)) as [cost cost_label] eqn:Ecost.
    destruct (event_id (Item.title item) _) as [eid|] eqn:Eid; [|discriminate].
    set (e := Event.mk eid (firstn 200 (Item.title item)) (Item.source item)
                (Item.link item) (firstn 300 (Item.desc item))
                (isoformat (parse_date strptime (Clock.at_item clock i)
                              (Item.pub item)))
                (classify str_lower (Item.full item)) cost cost_label
                (negb (Dict.mem eid existing)) None) in *.
    assert (Hpe : prefix40 e = firstn 40 (Item.title item))
      by apply firstn_40_200.
    assert (Hfresh : ~ In (firstn 40 (Item.title item)) seen).
    { intros Hin. apply existsb_str_eqb in Hin. congruence. }
    assert (Hinv' : seen_inv (firstn 40 (Item.title item) :: seen) (acc ++ [e])).
    { destruct Hinv as [Hs Hnd]. split.
      - intros p. rewrite map_app, in_app_iff. cbn [map In]. rewrite Hpe.
        rewrite <- Hs. tauto.
      - rewrite map_app. cbn [map]. rewrite Hpe.
        apply NoDup_app; [exact Hnd | constructor; [intros [] | constructor] |].
        intros p Hp [<- | []]. apply Hfresh, Hs, Hp. }
    destruct (IH (S i) _ _ out Hinv' H) as [[added [Eo Hadd]] [Hnd [Hall Hfirst]]].
    assert (Hadm : admitted clock cutoff i item).
    { split; [|split; [exact Erel | exact Eold]].
      intros Ht. rewrite Ht in Eempty. discriminate. }
    assert (Hmade : made clock existing i item e).
    { unfold built, item_time. subst e.
      cbn [Event.id Event.title Event.source Event.url Event.description
           Event.timestamp Event.severity Event.cost_usd Event.cost_label
           Event.is_new Event.is_breaking].
      rewrite Ecost, Eid. repeat split; reflexivity. }
    assert (Hine : In e out).
    { rewrite Eo. apply in_or_app. left. apply in_or_app. right. left. reflexivity. }
    split; [|split; [exact Hnd|split]].
    + exists (e :: added). rewrite Eo, <- app_assoc. split; [reflexivity|].
      constructor.
      * exists 0%nat, item. rewrite Nat.add_0_r.
        split; [reflexivity|]. split; [exact Hadm | exact Hmade].
      * eapply Forall_impl; [|exact Hadd].
        intros e' [j [it [Hn [Ha Hb]]]]. exists (S j), it.
        rewrite Nat.add_succ_r.
        split; [exact Hn | split; [exact Ha | exact Hb]].
    + intros [|j] it Hn Ha.
      * injection Hn as <-. rewrite <- Hpe. apply in_map, Hine.
      * rewrite Nat.add_succ_r in Ha. apply (Hall j it Hn Ha).
    + intros [|j] it Hn Ha Hnew Hearlier.
      * injection Hn as <-. rewrite Nat.add_0_r. exists e. split; assumption.
      * rewrite Nat.add_succ_r in *. apply (Hfirst j it Hn Ha).
        -- intros [Heq | Hin]; [|exact (Hnew Hin)].
           apply (Hearlier 0%nat item); [lia | reflexivity | | exact Heq].
           rewrite Nat.add_0_r. exact Hadm.
        -- intros j' it' Hlt Hn' Ha'. apply (Hearlier (S j') it').
           ++ lia.
           ++ exact Hn'.
           ++ rewrite Nat.add_succ_r. exact Ha'.
Qed.

Lemma seen_inv_start : seen_inv [] [].
Proof. split; [intros p; reflexivity | constructor]. Qed.

End IngestFacts.

(* ------------------------------------------------------------------ *)
(** * What the cost table gives *)

Section CostRange.

Variable ieq : char -> char -> bool.

Lemma estimate_cost_in_cases (table : list (Re.regex * Z * str)) (text : str) :
  (estimate_cost_in ieq table text = (0%Z, None) /\
   forall p c l, In (p, c, l) table -> ~ Re.found ieq p text) \/
  (exists p c l,
     In (p, c, l) table /\ Re.found ieq p text /\
     estimate_cost_in ieq table text = (c, Some l)).
Proof.
  induction table as [|[[p0 c0] l0] table IH]; simpl.
  - left. split; [reflexivity | intros p c l []].
  - destruct (Re.search ieq p0 text) eqn:E0.
    + right. exists p0, c0, l0.
      split; [left; reflexivity|]. split; [apply search_spec, E0 | reflexivity].
    + destruct IH as [[Hz Hno] | [p [c [l [Hin [Hf He]]]]]].
      * left. split; [exact Hz|]. intros p c l [Heq | Hin].
        -- injection Heq as <- _ _. apply search_false, E0.
        -- apply (Hno p c l Hin).
      * right. exists p, c, l. split; [right; exact Hin|]. split; assumption.
Qed.

Lemma table_costs :
  Forall (fun entry => (10000 <= snd (fst entry) <= 2000000000)%Z) WEAPON_COSTS.
Proof. unfold WEAPON_COSTS. repeat constructor; cbn; lia. Qed.

(** X7.  The estimate is either cost 0 without a label, exactly when no
    pattern of the table is found in the text, or the cost and label of an
    entry of the table whose pattern is found; a cost from the table lies
    between 10 000 and 2 000 000 000, so the cost is never negative and it is
    0 exactly when the label is absent. *)
Theorem estimate_cost_range (text : str) :
  (0 <= fst (estimate_cost ieq text))%Z /\
  (fst (estimate_cost ieq text) = 0%Z <-> snd (estimate_cost ieq text) = None) /\
  (snd (estimate_cost ieq text) = None <->
   forall p c l, In (p, c, l) WEAPON_COSTS -> ~ Re.found ieq p text) /\
  (forall label,
     snd (estimate_cost ieq text) = Some label ->
     exists pattern,
       In (pattern, fst (estimate_cost ieq text), label) WEAPON_COSTS /\
       Re.found ieq pattern text /\
       (10000 <= fst (estimate_cost ieq text) <= 2000000000)%Z).
Proof.
  unfold estimate_cost.
  destruct (estimate_cost_in_cases WEAPON_COSTS text)
    as [[Hz Hno] | [p [c [l [Hin [Hf He]]]]]].
  - rewrite Hz. cbn [fst snd]. split; [lia|]. split; [tauto|].
    split; [tauto|]. intros label H. discriminate H.
  - rewrite He. cbn [fst snd].
    pose proof table_costs as Hc. rewrite Forall_forall in Hc.
    specialize (Hc _ Hin). cbn [fst snd] in Hc.
    split; [lia|]. split; [split; [lia | discriminate]|].
    split.
    + split; [discriminate|]. intros Hno. exfalso. apply (Hno p c l Hin Hf).
    + intros label H. injection H as <-. exists p. tauto.
Qed.

End CostRange.

(* ------------------------------------------------------------------ *)
(** * The candidates of a run *)

Section CandidateFacts.

Variable str_lower : str -> str.
Variable ieq : char -> char -> bool.
Variable strptime : str -> str -> option (datetime * option timedelta).

Local Abbreviation collect := (ingest str_lower ieq strptime).
Local Abbreviation admitted := (admissible str_lower strptime).
Local Abbreviation made := (built str_lower ieq strptime).

Lemma ingest_built (clock : Clock.t) (cutoff : datetime)
    (existing : Dict.dict Event.t) (items : list Item.t)
    (new_events : list Event.t) (e : Event.t) :
  collect clock cutoff existing items 0 [] [] = Some new_events ->
  In e new_events ->
  exists j item,
    nth_error items j = Some item /\
    admitted clock cutoff j item /\
    made clock existing j item e.
Proof.
  intros H He.
  destruct (ingest_inv str_lower ieq strptime clock cutoff existing items
              0 [] [] new_events (seen_inv_start) H) as [[added [Eo Hadd]] _].
  simpl in Eo. subst added. rewrite Forall_forall in Hadd.
  exact (Hadd e He).
Qed.

(** X8.  Every candidate is built from an item of the feeds that has a
    title, mentions a conflict keyword and is not older than the ingestion
    cutoff: its fields are those lines 149-164 compute from that item. *)
Theorem candidates_from_items (clock : Clock.t) (cutoff : datetime)
    (existing : Dict.dict Event.t) (items : list Item.t)
    (new_events : list Event.t) (e : Event.t) :
  collect clock cutoff existing items 0 [] [] = Some new_events ->
  In e new_events ->
  exists j item,
    nth_error items j = Some item /\
    admitted clock cutoff j item /\
    made clock existing j item e.
Proof.
  intros Hrun He.
  pose proof (ingest_inv str_lower ieq strptime clock cutoff existing items
                0 [] [] new_events seen_inv_start Hrun) as Hpost.
  destruct Hpost as [[added [Eout Hadded]] _].
  cbn [app] in Eout. rewrite <- Eout in Hadded.
  rewrite Forall_forall in Hadded. apply Hadded, He.
Qed.

(** X9.  No two candidates of a run share the first 40 characters of
    their title.  Every admissible item has a candidate with the first 40
    characters of its title, and the first admissible item with a given
    prefix is the one a candidate is built from: the first occurrence
    wins. *)
Theorem first_occurrence_wins (clock : Clock.t) (cutoff : datetime)
    (existing : Dict.dict Event.t) (items : list Item.t)
    (new_events : list Event.t) :
  collect clock cutoff existing items 0 [] [] = Some new_events ->
  NoDup (map prefix40 new_events) /\
  (forall j item,
     nth_error items j = Some item -> admitted clock cutoff j item ->
     In (firstn 40 (Item.title item)) (map prefix40 new_events)) /\
  (forall j item,
     nth_error items j = Some item -> admitted clock cutoff j item ->
     (forall j' item',
        (j' < j)%nat -> nth_error items j' = Some item' ->
        admitted clock cutoff j' item' ->
        firstn 40 (Item.title item') <> firstn 40 (Item.title item)) ->
     exists e, In e new_events /\ made clock existing j item e).
Proof.
  intros H.
  destruct (ingest_inv str_lower ieq strptime clock cutoff existing items
              0 [] [] new_events (seen_inv_start) H) as [_ [Hnd [Hall Hfirst]]].
  split; [exact Hnd|]. split; [exact Hall|].
  intros j item Hn Ha Hearlier.
  apply (Hfirst j item Hn Ha); [intros [] | exact Hearlier].
Qed.

(** X10.  A candidate is marked new exactly when no stored event has its
    id. *)
Theorem candidate_is_new (clock : Clock.t) (cutoff : datetime)
    (stored : option (list Event.t)) (items : list Item.t)
    (new_events : list Event.t) (e : Event.t) :
  collect clock cutoff (load_existing stored) items 0 [] [] = Some new_events ->
  In e new_events ->
  (Event.is_new e = false <->
   exists events p,
     stored = Some events /\ In p events /\ Event.id p = Event.id e).
Proof.
  intros H He.
  destruct (ingest_built _ _ _ _ _ _ H He) as [j [item [_ [_ Hb]]]].
  destruct Hb as (_ & _ & _ & _ & _ & _ & _ & _ & Hnew & _).
  rewrite Hnew, negb_false_iff, dict_mem_keys.
  destruct stored as [events|]; cbn [load_existing].
  - rewrite dict_keys_of_items, pairs_keys, in_map_iff. split.
    + intros [p [Hp Hin]]. exists events, p. tauto.
    + intros [events' [p [Es [Hin Hp]]]]. injection Es as <-.
      exists p. tauto.
  - split; [intros [] | intros [events [p [Es _]]]; discriminate Es].
Qed.

Lemma dt_ltb_false_ge (a b : datetime) : dt_ltb a b = false <-> dt_ge a b.
Proof.
  unfold dt_ltb, dt_ge. destruct (dt_compare a b); split;
    congruence || discriminate || auto.
Qed.

(** X11.  A candidate's timestamp is a UTC datetime in ISO format, at most
    seven days before the reading of the clock at the start of the run. *)
Theorem candidates_within_week (clock : Clock.t) (cutoff : datetime)
    (existing : Dict.dict Event.t) (items : list Item.t)
    (new_events : list Event.t) (e : Event.t) :
  (forall s fmt fields off, strptime s fmt = Some (fields, off) -> valid fields) ->
  (forall i, valid (Clock.at_item clock i)) ->
  dt_sub (Clock.at_start clock) (td_days 7) = Some cutoff ->
  collect clock cutoff existing items 0 [] [] = Some new_events ->
  In e new_events ->
  exists d,
    valid d /\ Event.timestamp e = isoformat d /\
    (instant (Clock.at_start clock) - td_days 7 <= instant d)%Z.
Proof.
  intros Hsp Hclock Hcut H He.
  destruct (ingest_built _ _ _ _ _ _ H He) as [j [item [_ [Ha Hb]]]].
  destruct Ha as (_ & _ & Hold).
  destruct Hb as (_ & _ & _ & _ & _ & Hts & _).
  exists (item_time strptime clock j item).
  assert (Vd : valid (item_time strptime clock j item))
    by (apply parse_date_valid; [exact Hsp | apply Hclock]).
  apply dt_sub_spec in Hcut. destruct Hcut as [Vc Ic].
  split; [exact Vd|]. split; [exact Hts|].
  rewrite <- Ic. apply dt_ge_instant; try assumption.
  apply dt_ltb_false_ge, Hold.
Qed.

Lemma event_id_token (title : str) (d : date) (tok : str) :
  event_id title d = Some tok -> length tok = 10%nat /\ Forall Md5.is_hex tok.
Proof.
  unfold event_id. intros H.
  destruct (Utf8.encode _) as [bytes|]; [|discriminate].
  assert (E : tok = firstn 10 (Md5.hexdigest bytes)) by congruence.
  rewrite E. split.
  - rewrite length_firstn, hexdigest_length. reflexivity.
  - apply Forall_firstn_keep, hexdigest_hex.
Qed.

Lemma classify_range (text : str) :
  classify str_lower text = py "high" \/
  classify str_lower text = py "medium" \/
  classify str_lower text = py "low".
Proof.
  unfold classify. cbv zeta.
  destruct (count_in HIGH_WORDS _ >=? 1)%Z; [tauto|].
  destruct (count_in MEDIUM_WORDS _ >=? 1)%Z; tauto.
Qed.

(** X12.  A candidate has a title of 1 to 200 characters, a description
    of at most 300, an id of ten hexadecimal digits, one of the three
    severities, a cost that is 0 without a label or positive with the label
    of the table, and no is_breaking yet. *)
Theorem candidate_shape (clock : Clock.t) (cutoff : datetime)
    (existing : Dict.dict Event.t) (items : list Item.t)
    (new_events : list Event.t) (e : Event.t) :
  collect clock cutoff existing items 0 [] [] = Some new_events ->
  In e new_events ->
  (1 <= length (Event.title e) <= 200)%nat /\
  (length (Event.description e) <= 300)%nat /\
  length (Event.id e) = 10%nat /\ Forall Md5.is_hex (Event.id e) /\
  (Event.severity e = py "high" \/ Event.severity e = py "medium" \/
   Event.severity e = py "low") /\
  (Event.cost_usd e = 0%Z /\ Event.cost_label e = None \/
   (10000 <= Event.cost_usd e)%Z /\
   exists pattern label,
     Event.cost_label e = Some label /\
     In (pattern, Event.cost_usd e, label) WEAPON_COSTS) /\
  Event.is_breaking e = None.
Proof.
  intros H He.
  destruct (ingest_built _ _ _ _ _ _ H He) as [j [item [_ [Ha Hb]]]].
  destruct Ha as (Hne & _ & _).
  destruct Hb as (Hid & Ht & _ & _ & Hd & _ & Hsev & Hcost & _ & Hbr).
  split; [|split; [|split; [|split; [|split; [|split]]]]].
  - rewrite Ht, length_firstn. destruct (Item.title item); [contradiction|].
    cbn [length]. lia.
  - rewrite Hd, length_firstn. lia.
  - apply (event_id_token _ _ _ Hid).
  - apply (event_id_token _ _ _ Hid).
  - rewrite Hsev. apply classify_range.
  - unfold estimate_cost in Hcost.
    destruct (estimate_cost_in_cases ieq WEAPON_COSTS (Item.full item))
      as [[Hz _] | [p [c [l [Hin [_ Hc]]]]]].
    + left. rewrite Hz in Hcost. injection Hcost as -> ->. tauto.
    + right. rewrite Hc in Hcost. injection Hcost as -> ->.
      pose proof table_costs as Ht'. rewrite Forall_forall in Ht'.
      specialize (Ht' _ Hin). cbn [fst snd] in Ht'.
      split; [lia|]. exists p, l. split; [reflexivity | exact Hin].
  - exact Hbr.
Qed.

End CandidateFacts.

(* ------------------------------------------------------------------ *)
(** * When a run ends normally *)

Section Totality.

Local Open Scope Z_scope.

Lemma toordinal_bounds (d : datetime) :
  valid d -> 1 <= toordinal d <= MAXORDINAL.
Proof.
  intros (Y & M & D & _). unfold toordinal, MAXORDINAL.
  pose proof (ymd2ord_compare (year d) (month d) (day d) 1 1 1 M D
                ltac:(lia) ltac:(cbn; lia)) as Hlo.
  pose proof (ymd2ord_compare (year d) (month d) (day d) 9999 12 31 M D
                ltac:(lia) ltac:(cbn; lia)) as Hhi.
  pose proof (days_in_month_le (year d) (month d) M) as Hdim.
  change (ymd2ord 1 1 1) with 1 in Hlo.
  change (ymd2ord 9999 12 31) with 3652059 in Hhi.
  split.
  - apply Z.ge_le. unfold Z.ge. rewrite Hlo.
    destruct (Z.compare_spec (year d) 1); try lia; try discriminate.
    destruct (Z.compare_spec (month d) 1); try lia; try discriminate.
    destruct (Z.compare_spec (day d) 1); try lia; discriminate.
  - unfold Z.le. rewrite Hhi.
    destruct (Z.compare_spec (year d) 9999); try lia; try discriminate.
    destruct (Z.compare_spec (month d) 12); try lia; try discriminate.
    destruct (Z.compare_spec (day d) 31); try lia; discriminate.
Qed.

Lemma toordinal_after_year_one (d : datetime) :
  valid d -> 2 <= year d -> 366 <= toordinal d.
Proof.
  intros (Y & M & D & _) Hy. unfold toordinal.
  pose proof (ymd2ord_compare (year d) (month d) (day d) 2 1 1 M D
                ltac:(lia) ltac:(cbn; lia)) as Hlo.
  change (ymd2ord 2 1 1) with 366 in Hlo.
  apply Z.ge_le. unfold Z.ge. rewrite Hlo.
  destruct (Z.compare_spec (year d) 2); try lia; try discriminate.
  destruct (Z.compare_spec (month d) 1); try lia; try discriminate.
  destruct (Z.compare_spec (day d) 1); try lia; discriminate.
Qed.

(** Subtracting up to a year from a datetime after year 1 does not
    overflow. *)
Lemma dt_sub_succeeds (now : datetime) (delta : timedelta) :
  valid now -> 2 <= year now -> 0 <= delta <= td_days 365 ->
  exists c, dt_sub now delta = Some c.
Proof.
  intros V Hy Hd.
  pose proof (toordinal_bounds now V) as Hb.
  pose proof (toordinal_after_year_one now V Hy) as Hlo.
  destruct V as (_ & _ & _ & Hh & Hm & Hs & Hu).
  unfold dt_sub, dt_add, td_days, MAXORDINAL in *. cbv zeta.
  set (total := wall_micros now + - delta).
  assert (Ht : 1 * 86400000000 <= total < (MAXORDINAL + 1) * 86400000000).
  { subst total. unfold wall_micros, MAXORDINAL. lia. }
  assert (Hdays : 1 <= total / 86400000000 <= 3652059).
  { unfold MAXORDINAL in Ht. split.
    - apply Z.div_le_lower_bound; lia.
    - assert (total / 86400000000 < 3652060); [|lia].
      apply Z.div_lt_upper_bound; lia. }
  destruct (Z.ltb_spec 0 (total / 86400000000)); [|lia].
  destruct (Z.leb_spec (total / 86400000000) 3652059); [|lia].
  cbn [andb]. destruct (ord2ymd _) as [[y m] dd]. eauto.
Qed.

End Totality.

Section RunTotality.

Variable str_lower : str -> str.
Variable ieq : char -> char -> bool.
Variable strptime : str -> str -> option (datetime * option timedelta).

Lemma ingest_succeeds (clock : Clock.t) (cutoff : datetime)
    (existing : Dict.dict Event.t) (items : list Item.t) :
  (forall s fmt fields off, strptime s fmt = Some (fields, off) -> valid fields) ->
  (forall i, valid (Clock.at_item clock i)) ->
  (forall item, In item items ->
                Forall Utf8.scalar (firstn 50 (Item.title item))) ->
  forall (i : nat) (seen : list str) (acc : list Event.t),
    exists out,
      ingest str_lower ieq strptime clock cutoff existing items i seen acc =
      Some out.
Proof.
  intros Hsp Hclock. induction items as [|item items IH]; intros Htitles i seen acc.
  - simpl. eauto.
  - assert (IH' := IH (fun it Hin => Htitles it (or_intror Hin))).
    cbn [ingest].
    destruct (str_eqb (Item.title item) [] || existsb _ seen); [apply IH'|].
    destruct (negb (relevant str_lower (Item.full item))); [apply IH'|].
    destruct (dt_ltb _ cutoff); [apply IH'|].
    destruct (estimate_cost ieq (Item.full item)) as [cost cost_label].
    unfold event_id.
    destruct (encode_scalar
                (firstn 50 (Item.title item) ++
                 date_str (date_of (parse_date strptime (Clock.at_item clock i)
                                      (Item.pub item))))) as [bytes ->].
    + apply Forall_app. split; [apply Htitles; left; reflexivity|].
      apply date_str_scalar, parse_date_valid; [exact Hsp | apply Hclock].
    + apply IH'.
Qed.

(** X13.  On a run without a stored collection (the file is missing or
    cannot be read) the program ends normally, with a collection and a
    summary, whenever the clock gives valid datetimes after year 1,
    [strptime] gives valid fields and no title has a surrogate among its
    first 50 characters. *)
Theorem main_succeeds (clock : Clock.t) (items : list Item.t) :
  (forall s fmt fields off, strptime s fmt = Some (fields, off) -> valid fields) ->
  (forall i, valid (Clock.at_item clock i)) ->
  valid (Clock.at_start clock) -> (2 <= year (Clock.at_start clock))%Z ->
  valid (Clock.at_retention clock) -> (2 <= year (Clock.at_retention clock))%Z ->
  valid (Clock.at_alert clock) -> (2 <= year (Clock.at_alert clock))%Z ->
  (forall item, In item items ->
                Forall Utf8.scalar (firstn 50 (Item.title item))) ->
  exists final meta,
    main str_lower ieq strptime clock items None = Some (final, meta).
Proof.
  intros Hsp Hclock V1 Y1 V2 Y2 V3 Y3 Htitles. unfold main.
  destruct (dt_sub_succeeds _ (td_days 7) V1 Y1) as [cutoff ->];
    [unfold td_days; lia|].
  destruct (ingest_succeeds clock cutoff (load_existing None) items
              Hsp Hclock Htitles 0%nat [] []) as [new_events ->].
  destruct (dt_sub_succeeds _ (td_hours 72) V2 Y2) as [recent ->];
    [unfold td_hours, td_days; lia|].
  destruct (dt_sub_succeeds _ (td_hours 3) V3 Y3) as [alert ->];
    [unfold td_hours, td_days; lia|].
  eauto.
Qed.

End RunTotality.

(* ------------------------------------------------------------------ *)
(** * The summary of a run *)

Section SummaryMore.

Local Open Scope Z_scope.

Lemma count_length (p : Event.t -> bool) (l : list Event.t) :
  count p l = Z.of_nat (length (filter p l)).
Proof.
  unfold count, sum. induction (filter p l) as [|x f IH]; [reflexivity|].
  cbn [map fold_right length]. rewrite IH. lia.
Qed.

Lemma filter_length_mono (A : Type) (p q : A -> bool) (l : list A) :
  (forall x, In x l -> p x = true -> q x = true) ->
  (length (filter p l) <= length (filter q l))%nat.
Proof.
  induction l as [|x l IH]; intros H; [apply Nat.le_refl|].
  assert (IH' : (length (filter p l) <= length (filter q l))%nat).
  { apply IH. intros y Hy. apply H. right; exact Hy. }
  cbn [filter]. destruct (p x) eqn:Ep.
  - rewrite (H x (or_introl eq_refl) Ep). cbn [length]. lia.
  - destruct (q x); cbn [length]; lia.
Qed.

Variable str_lower : str -> str.
Variable ieq : char -> char -> bool.
Variable strptime : str -> str -> option (datetime * option timedelta).

(** X14.  In the summary of a run, event_count is the size of the
    collection, high_count the number of its events of severity "high" and
    breaking_count the number of its events flagged breaking; since a
    breaking event is of high severity, 0 <= breaking_count <= high_count <=
    event_count <= 200. *)
Theorem summary_counts (clock : Clock.t) (items : list Item.t)
    (stored : option (list Event.t)) (final : list Event.t) (meta : Meta.t) :
  main str_lower ieq strptime clock items stored = Some (final, meta) ->
  Meta.event_count meta = Z.of_nat (length final) /\
  Meta.high_count meta =
    Z.of_nat (length (filter (fun e => str_eqb (Event.severity e) (py "high"))
                             final)) /\
  Meta.breaking_count meta =
    Z.of_nat (length (filter (fun e => match Event.is_breaking e with
                                       | Some b => b
                                       | None => false
                                       end) final)) /\
  0 <= Meta.breaking_count meta <= Meta.high_count meta /\
  Meta.high_count meta <= Meta.event_count meta <= 200.
Proof.
  intros H. apply main_some in H.
  destruct H as (cutoff & new_events & recent & alert & _ & _ & _ & _ & Ef & ->).
  unfold summary. cbn [Meta.event_count Meta.high_count Meta.breaking_count].
  rewrite !count_length.
  split; [reflexivity|]. split; [reflexivity|]. split; [reflexivity|].
  assert (Hbh : (length (filter (fun e => match Event.is_breaking e with
                                          | Some b => b
                                          | None => false
                                          end) final)
                 <= length (filter (fun e => str_eqb (Event.severity e) (py "high"))
                                   final))%nat).
  { apply filter_length_mono. intros e He Hb. rewrite Ef in He.
    apply final_in in He. destruct He as [v [-> _]].
    cbn in Hb |- *. apply andb_true_iff in Hb. apply Hb. }
  pose proof (List.filter_length_le
                (fun e => str_eqb (Event.severity e) (py "high")) final) as Hhe.
  assert (Hcap : (length final <= 200)%nat).
  { rewrite Ef. unfold final_collection. rewrite length_map, length_firstn.
    change CAP with 200%nat. lia. }
  clear Ef.
  generalize dependent (length (filter (fun e => match Event.is_breaking e with
                                       | Some b => b
                                       | None => false
                                       end) final)).
  generalize dependent (length (filter (fun e => str_eqb (Event.severity e)
                                                   (py "high")) final)).
  intros nh Hhe nb Hbh. lia.
Qed.

(** Whether line 185 counts an event with a well-formed timestamp. *)
Lemma counted_today (now d : datetime) :
  valid now -> valid d ->
  (str_geb (isoformat d) (today_cutoff now) = true <->
   instant (start_of_day now) + microsecond now <= instant d).
Proof.
  intros Vn Vd.
  assert (Vc : valid (replace_hms0 now)).
  { destruct Vn as (Y & M & D & _ & _ & _ & U).
    unfold valid, replace_hms0. cbn. repeat split; try lia; assumption. }
  unfold today_cutoff. rewrite str_geb_ge, wellformed_ge by assumption.
  unfold instant, instant_at, wall_micros, toordinal, replace_hms0, start_of_day.
  cbn [year month day hour minute second microsecond]. lia.
Qed.

(** X15.  The sum of line 184 counts an event with a well-formed
    timestamp exactly when its instant is at or after 00:00:00 of the day
    of the clock plus the microseconds of the clock reading.  When every
    reading taken during the sum falls on a whole second of one day, the sum
    is over the events at or after 00:00 UTC of that day. *)
Theorem today_cost_window (at_today : nat -> datetime) (day0 : datetime)
    (events : list Event.t) :
  (forall now d,
     valid now -> valid d ->
     (str_geb (isoformat d) (today_cutoff now) = true <->
      instant (start_of_day now) + microsecond now <= instant d)) /\
  ((forall i, microsecond (at_today i) = 0 /\
              start_of_day (at_today i) = day0) ->
   forall i,
     today_cost at_today i events =
     sum (map Event.cost_usd
            (filter (fun e => str_geb (Event.timestamp e) (isoformat day0))
                    events))).
Proof.
  split; [apply counted_today|].
  intros Hclock. induction events as [|e l IH]; intros i; [reflexivity|].
  cbn [today_cost filter].
  destruct (Hclock i) as [Hu Hd].
  rewrite (today_cutoff_midnight _ Hu). fold (start_of_day (at_today i)).
  rewrite Hd.
  destruct (str_geb (Event.timestamp e) (isoformat day0)).
  - cbn [map sum fold_right]. rewrite IH. reflexivity.
  - apply IH.
Qed.

(** X16.  For the timestamps this program writes, comparing them as
    strings, as the sort and the cutoffs do, is comparing the instants they
    denote. *)
Theorem timestamp_order_is_time_order (a b : datetime) :
  valid a -> valid b ->
  str_compare (isoformat a) (isoformat b) = (instant a ?= instant b).
Proof.
  intros Va Vb. rewrite isoformat_compare, dt_compare_wall by assumption.
  unfold instant, instant_at. rewrite !Z.sub_0_r. reflexivity.
Qed.

End SummaryMore.

(* ------------------------------------------------------------------ *)
(** * Date parsing and white space *)

Section ParseDateMore.

Variable strptime : str -> str -> option (datetime * option timedelta).

Lemma lstrip_blank (ws x : str) : blank ws -> lstrip (ws ++ x) = lstrip x.
Proof.
  induction 1 as [|c ws Hc _ IH]; [reflexivity|].
  cbn [app lstrip]. rewrite Hc. exact IH.
Qed.

Lemma lstrip_all_blank (ws : str) : blank ws -> lstrip ws = [].
Proof.
  intros H. rewrite <- (app_nil_r ws). rewrite lstrip_blank by exact H.
  reflexivity.
Qed.

Lemma lstrip_app_cases (s x : str) :
  (blank s /\ lstrip (s ++ x) = lstrip x) \/
  (lstrip s <> [] /\ lstrip (s ++ x) = lstrip s ++ x).
Proof.
  induction s as [|c s IH].
  - left. split; [constructor | reflexivity].
  - cbn [app lstrip]. destruct (is_space c) eqn:Ec.
    + destruct IH as [[Hb He] | [Hn He]].
      * left. split; [constructor; assumption | exact He].
      * right. split; assumption.
    + right. split; [discriminate | reflexivity].
Qed.

Lemma blank_rev (ws : str) : blank ws -> blank (rev ws).
Proof.
  unfold blank. rewrite !Forall_forall. intros H c Hc. apply H, in_rev, Hc.
Qed.

Lemma strip_padding (ws1 s ws2 : str) :
  blank ws1 -> blank ws2 -> strip (ws1 ++ s ++ ws2) = strip s.
Proof.
  intros H1 H2. unfold strip. rewrite lstrip_blank by exact H1.
  destruct (lstrip_app_cases s ws2) as [[Hb He] | [Hn He]]; rewrite He.
  - rewrite (lstrip_all_blank ws2 H2), (lstrip_all_blank s Hb). reflexivity.
  - rewrite rev_app_distr, lstrip_blank by (apply blank_rev, H2). reflexivity.
Qed.

Lemma parse_date_in_strip (fmts : list str) (now : datetime) (s s' : str) :
  strip s = strip s' ->
  parse_date_in strptime fmts now s = parse_date_in strptime fmts now s'.
Proof.
  intros E. induction fmts as [|fmt rest IH]; [reflexivity|].
  cbn [parse_date_in]. rewrite E, IH. reflexivity.
Qed.

(** X17.  [parse_date] does not see white space around the published
    string, and what it returns is a valid datetime whenever [strptime]
    gives valid fields and the clock a valid reading. *)
Theorem parse_date_robust (now : datetime) (ws1 s ws2 : str) :
  blank ws1 -> blank ws2 ->
  parse_date strptime now (ws1 ++ s ++ ws2) = parse_date strptime now s /\
  ((forall s fmt fields off, strptime s fmt = Some (fields, off) -> valid fields) ->
   valid now -> valid (parse_date strptime now (ws1 ++ s ++ ws2))).
Proof.
  intros H1 H2. split.
  - apply parse_date_in_strip, strip_padding; assumption.
  - intros Hsp Hnow. apply parse_date_valid; assumption.
Qed.

End ParseDateMore.

(* ------------------------------------------------------------------ *)
(** * Feed items *)

Section FeedFacts.

Import Feed.

Lemma starts_tag_inv (c : char) (s : str) :
  starts_tag (c :: s) ->
  c = lt /\ In gt s /\ exists d s', s = d :: s' /\ d <> gt.
Proof.
  intros [mid [post [E [Hne Hno]]]]. injection E as -> ->.
  split; [reflexivity|]. split.
  - apply in_or_app. right. left. reflexivity.
  - destruct mid as [|d mid]; [contradiction|].
    exists d, (mid ++ gt :: post). split; [reflexivity|].
    intros ->. apply Hno. left. reflexivity.
Qed.

Lemma has_tag_cons (c : char) (s : str) :
  has_tag (c :: s) -> starts_tag (c :: s) \/ has_tag s.
Proof.
  intros [pre [rest [E Hs]]]. destruct pre as [|p pre].
  - left. simpl in E. rewrite E. exact Hs.
  - right. injection E as _ ->. exists pre, rest. split; [reflexivity | exact Hs].
Qed.

Lemma has_tag_nil : ~ has_tag [].
Proof.
  intros [pre [rest [E [mid [post [Er _]]]]]]. subst rest.
  destruct pre; discriminate E.
Qed.

Lemma has_tag_gt (s : str) : has_tag s -> In gt s.
Proof.
  intros [pre [rest [-> [mid [post [-> _]]]]]].
  apply in_or_app. right. right. apply in_or_app. right. left. reflexivity.
Qed.

Lemma strip_tags_from_tagless (s : str) :
  ~ has_tag (strip_tags_from None s) /\
  forall b, ~ In gt b -> ~ has_tag (strip_tags_from (Some b) s).
Proof.
  induction s as [|c s [IHn IHs]].
  - split; [apply has_tag_nil|].
    intros b Hb H. apply has_tag_gt in H. destruct H as [H | H].
    + discriminate H.
    + contradiction.
  - split.
    + cbn [strip_tags_from]. destruct (char_eqb c lt) eqn:Ec.
      * apply IHs. intros [].
      * intros H. apply has_tag_cons in H. destruct H as [H | H]; [|auto].
        apply starts_tag_inv in H. destruct H as [-> _].
        unfold char_eqb in Ec. rewrite N.eqb_refl in Ec. discriminate.
    + intros b Hb. cbn [strip_tags_from]. destruct (char_eqb c gt) eqn:Ec.
      * destruct b as [|d b]; [|exact IHn].
        intros H. apply has_tag_cons in H. destruct H as [H | H].
        -- apply starts_tag_inv in H.
           destruct H as (_ & _ & d & s' & E & Hd). injection E as <- _.
           apply Hd. reflexivity.
        -- apply has_tag_cons in H. destruct H as [H | H]; [|auto].
           apply starts_tag_inv in H. destruct H as [E _]. discriminate E.
      * apply IHs. intros Hin. apply in_app_or in Hin.
        destruct Hin as [Hin | [Heq | []]]; [auto|].
        rewrite Heq in Ec. unfold char_eqb in Ec.
        rewrite N.eqb_refl in Ec. discriminate.
Qed.

Lemma strip_tags_from_inside (mid post b : str) :
  ~ In gt mid -> b ++ mid <> [] ->
  strip_tags_from (Some b) (mid ++ gt :: post) = strip_tags_from None post.
Proof.
  revert b. induction mid as [|d mid IH]; intros b Hno Hne.
  - cbn [app strip_tags_from]. unfold char_eqb. rewrite N.eqb_refl.
    rewrite app_nil_r in Hne. destruct b; [contradiction | reflexivity].
  - cbn [app strip_tags_from].
    destruct (char_eqb d gt) eqn:Ed.
    + exfalso. apply Hno. left. apply char_eqb_eq, Ed.
    + apply IH.
      * intros Hin. apply Hno. right; exact Hin.
      * destruct b; discriminate.
Qed.

Lemma strip_tags_outside (a rest : str) :
  ~ In lt a -> strip_tags (a ++ rest) = a ++ strip_tags rest.
Proof.
  unfold strip_tags. induction a as [|c a IH]; intros Hno; [reflexivity|].
  cbn [app strip_tags_from]. destruct (char_eqb c lt) eqn:Ec.
  - exfalso. apply Hno. left. apply char_eqb_eq, Ec.
  - rewrite IH; [reflexivity|]. intros Hin. apply Hno. right; exact Hin.
Qed.

(** X18.  What line 102 leaves of a description holds no tag: nowhere in
    it does [<[^>]+>] match. *)
Theorem strip_tags_no_tag (s : str) : ~ has_tag (strip_tags s).
Proof. apply strip_tags_from_tagless. Qed.

(** X19.  Line 102 takes out the tags and nothing else: text without [<]
    is returned as it is, and text up to the first [<] is kept and the tag
    that opens there dropped, with the rest treated the same way. *)
Theorem strip_tags_removes (a mid rest : str) :
  ~ In lt a ->
  strip_tags a = a /\
  (mid <> [] -> ~ In gt mid ->
   strip_tags (a ++ lt :: mid ++ gt :: rest) = a ++ strip_tags rest).
Proof.
  intros Ha. split.
  - rewrite <- (app_nil_r a) at 1. rewrite strip_tags_outside by exact Ha.
    cbn. apply app_nil_r.
  - intros Hne Hno. rewrite strip_tags_outside by exact Ha. f_equal.
    unfold strip_tags. cbn [strip_tags_from].
    change (char_eqb lt lt) with true. cbv iota.
    apply strip_tags_from_inside; [exact Hno|].
    destruct mid; [contradiction | discriminate].
Qed.

Lemma fetch_feed_length (name : str) (doc : document) :
  (length (fetch_feed name doc) <= 30)%nat.
Proof.
  destruct doc as [[rss entries]|]; cbn [fetch_feed length]; [|lia].
  rewrite length_map, length_firstn. lia.
Qed.

Lemma all_items_length (feeds : list (str * document)) :
  (length (all_items feeds) <= 30 * length feeds)%nat.
Proof.
  unfold all_items. induction feeds as [|[name doc] feeds IH]; [simpl; lia|].
  cbn [flat_map length fst snd]. rewrite length_app.
  pose proof (fetch_feed_length name doc). lia.
Qed.

Lemma fetch_feed_source (name : str) (doc : document) (item : Item.t) :
  In item (fetch_feed name doc) -> Item.source item = name.
Proof.
  destruct doc as [[rss entries]|]; cbn [fetch_feed]; [|intros []].
  intros Hin. apply in_map_iff in Hin. destruct Hin as [el [<- _]]. reflexivity.
Qed.

Lemma all_items_source (feeds : list (str * document)) (item : Item.t) :
  In item (all_items feeds) -> In (Item.source item) (map fst feeds).
Proof.
  unfold all_items. intros Hin. apply in_flat_map in Hin.
  destruct Hin as [[name doc] [Hf Hin]]. cbn [fst snd] in Hin.
  apply fetch_feed_source in Hin. rewrite Hin.
  apply in_map_iff. exists (name, doc). split; [reflexivity | exact Hf].
Qed.

(** The items that carry the name of one feed are those of that feed, when
    the feeds have distinct names. *)
Lemma all_items_of_feed (feeds : list (str * document)) (name : str) :
  NoDup (map fst feeds) ->
  (length (filter (fun it => str_eqb (Item.source it) name) (all_items feeds))
   <= 30)%nat.
Proof.
  unfold all_items. induction feeds as [|[n doc] feeds IH]; intros Hnd;
    [simpl; lia|].
  inversion Hnd as [|? ? Hn Hrest]; subst.
  cbn [flat_map fst snd]. rewrite filter_app, length_app.
  destruct (str_eqb n name) eqn:En.
  - apply str_eqb_eq in En. subst n.
    rewrite (filter_none _ _ (flat_map _ feeds)).
    + pose proof (List.filter_length_le
                    (fun it => str_eqb (Item.source it) name)
                    (fetch_feed name doc)).
      pose proof (fetch_feed_length name doc). cbn [length]. lia.
    + intros it Hit. apply (all_items_source feeds) in Hit.
      destruct (str_eqb (Item.source it) name) eqn:E; [|reflexivity].
      apply str_eqb_eq in E. rewrite E in Hit. contradiction.
  - rewrite (filter_none _ _ (fetch_feed n doc)).
    + cbn [length]. apply (IH Hrest).
    + intros it Hit. apply fetch_feed_source in Hit. rewrite Hit. exact En.
Qed.

Lemma feeds_distinct : NoDup FEEDS.
Proof.
  unfold FEEDS. cbn [map].
  repeat (constructor;
          [ cbn [In]; intros H;
            repeat (destruct H as [H | H]; [vm_compute in H; discriminate H|]);
            exact H
          | ]).
  constructor.
Qed.

Lemma combine_names (A B : Type) (names : list A) (docs : list B) :
  NoDup names -> NoDup (map fst (combine names docs)) /\
  forall x, In x (map fst (combine names docs)) -> In x names.
Proof.
  revert docs. induction names as [|n names IH]; intros docs Hnd.
  - split; [constructor | intros x []].
  - destruct docs as [|d docs]; [split; [constructor | intros x []]|].
    inversion Hnd as [|? ? Hn Hrest]; subst.
    destruct (IH docs Hrest) as [Hd Hin]. cbn [combine map fst]. split.
    + constructor; [|exact Hd]. intros H. apply Hn, Hin, H.
    + intros x [<- | Hx]; [left; reflexivity | right; apply Hin, Hx].
Qed.

(** X20.  A feed that cannot be downloaded or parsed gives no items; a
    feed gives at most 30.  Every item carries the name of its feed, a text
    that is its title, a space and its description, and a description
    without tags. *)
Theorem fetch_feed_items (name : str) (doc : document) :
  fetch_feed name None = [] /\
  (length (fetch_feed name doc) <= 30)%nat /\
  forall item, In item (fetch_feed name doc) ->
    Item.source item = name /\
    Item.full item = Item.title item ++ py " " ++ Item.desc item /\
    ~ has_tag (Item.desc item).
Proof.
  split; [reflexivity|]. split; [apply fetch_feed_length|].
  intros item Hin. destruct doc as [[rss entries]|]; [|destruct Hin].
  cbn [fetch_feed] in Hin. apply in_map_iff in Hin.
  destruct Hin as [el [<- _]]. unfold item_of. cbn.
  split; [reflexivity|]. split; [reflexivity|]. apply strip_tags_no_tag.
Qed.

End FeedFacts.

Section Bounds.

Variable str_lower : str -> str.
Variable ieq : char -> char -> bool.
Variable strptime : str -> str -> option (datetime * option timedelta).

Lemma ingest_length (clock : Clock.t) (cutoff : datetime)
    (existing : Dict.dict Event.t) (items : list Item.t) :
  forall (i : nat) (seen : list str) (acc out : list Event.t),
    ingest str_lower ieq strptime clock cutoff existing items i seen acc = Some out ->
    (length out <= length acc + length items)%nat.
Proof.
  induction items as [|item items IH]; intros i seen acc out H.
  - simpl in H. injection H as <-. simpl. lia.
  - cbn [ingest] in H. cbn [length].
    destruct (str_eqb (Item.title item) [] || existsb _ seen);
      [apply IH in H; lia|].
    destruct (negb (relevant str_lower (Item.full item)));
      [apply IH in H; lia|].
    destruct (dt_ltb _ cutoff); [apply IH in H; lia|].
    destruct (estimate_cost ieq (Item.full item)) as [cost cost_label].
    destruct (event_id _ _) as [eid|]; [|discriminate].
    apply IH in H. rewrite length_app in H. cbn [length] in H. lia.
Qed.

Lemma ingest_by_source (clock : Clock.t) (cutoff : datetime)
    (existing : Dict.dict Event.t) (name : str) (items : list Item.t) :
  forall (i : nat) (seen : list str) (acc out : list Event.t),
    ingest str_lower ieq strptime clock cutoff existing items i seen acc = Some out ->
    (length (filter (fun e => str_eqb (Event.source e) name) out)
     <= length (filter (fun e => str_eqb (Event.source e) name) acc)
        + length (filter (fun it => str_eqb (Item.source it) name) items))%nat.
Proof.
  induction items as [|item items IH]; intros i seen acc out H.
  - simpl in H. injection H as <-. simpl. lia.
  - cbn [ingest] in H.
    assert (Hle : (length (filter (fun it => str_eqb (Item.source it) name) items)
                   <= length (filter (fun it => str_eqb (Item.source it) name)
                                     (item :: items)))%nat).
    { cbn [filter]. destruct (str_eqb (Item.source item) name); cbn [length]; lia. }
    destruct (str_eqb (Item.title item) [] || existsb _ seen);
      [apply IH in H; lia|].
    destruct (negb (relevant str_lower (Item.full item)));
      [apply IH in H; lia|].
    destruct (dt_ltb _ cutoff); [apply IH in H; lia|].
    destruct (estimate_cost ieq (Item.full item)) as [cost cost_label].
    destruct (event_id _ _) as [eid|]; [|discriminate].
    apply IH in H. rewrite filter_app, length_app in H.
    cbn [filter Event.source] in H |- *.
    destruct (str_eqb (Item.source item) name); cbn [length] in H |- *; lia.
Qed.

Lemma ingest_sources (clock : Clock.t) (cutoff : datetime)
    (existing : Dict.dict Event.t) (items : list Item.t)
    (new_events : list Event.t) (e : Event.t) :
  ingest str_lower ieq strptime clock cutoff existing items 0 [] [] =
    Some new_events ->
  In e new_events ->
  exists item, In item items /\ Event.source e = Item.source item.
Proof.
  intros H He.
  destruct (ingest_built str_lower ieq strptime _ _ _ _ _ _ H He)
    as [j [item [Hn [_ Hb]]]].
  exists item. split; [apply (nth_error_In _ _ Hn)|].
  destruct Hb as (_ & _ & Hsrc & _). exact Hsrc.
Qed.

(** X21.  A run builds at most one candidate per feed item, each under the
    name of the feed of its item; so it builds at most 30 candidates per
    feed, as many at most as the feed gave items, and at most 240 from the
    eight feeds of [FEEDS], which is more than the 200 events the collection
    keeps. *)
Theorem candidates_bounded (clock : Clock.t) (cutoff : datetime)
    (existing : Dict.dict Event.t) (docs : list Feed.document)
    (new_events : list Event.t) :
  length docs = length Feed.FEEDS ->
  ingest str_lower ieq strptime clock cutoff existing
    (Feed.all_items (combine Feed.FEEDS docs)) 0 [] [] = Some new_events ->
  (length new_events <= length (Feed.all_items (combine Feed.FEEDS docs)))%nat /\
  (forall e, In e new_events -> In (Event.source e) Feed.FEEDS) /\
  (forall name,
     (length (filter (fun e => str_eqb (Event.source e) name) new_events)
      <= length (filter (fun it => str_eqb (Item.source it) name)
                        (Feed.all_items (combine Feed.FEEDS docs))))%nat) /\
  (forall name,
     (length (filter (fun e => str_eqb (Event.source e) name) new_events)
      <= 30)%nat) /\
  (length new_events <= 240)%nat.
Proof.
  intros Hd H.
  destruct (combine_names _ _ Feed.FEEDS docs feeds_distinct) as [Hnd Hnames].
  assert (Hper : forall name,
    (length (filter (fun e => str_eqb (Event.source e) name) new_events)
     <= length (filter (fun it => str_eqb (Item.source it) name)
                       (Feed.all_items (combine Feed.FEEDS docs))))%nat).
  { intros name. pose proof (ingest_by_source _ _ _ name _ _ _ _ _ H) as Hs.
    cbn [filter length] in Hs. lia. }
  split; [|split; [|split; [exact Hper|split]]].
  - apply ingest_length in H. cbn [length] in H. lia.
  - intros e He. destruct (ingest_sources _ _ _ _ _ _ H He) as [item [Hin Hsrc]].
    rewrite Hsrc. apply Hnames, all_items_source, Hin.
  - intros name. pose proof (Hper name).
    pose proof (all_items_of_feed (combine Feed.FEEDS docs) name Hnd). lia.
  - apply ingest_length in H. cbn [length] in H.
    pose proof (all_items_length (combine Feed.FEEDS docs)) as Hl.
    rewrite length_combine, Hd, Nat.min_id in Hl.
    change (length Feed.FEEDS) with 8%nat in Hl. lia.
Qed.

End Bounds.

(* ------------------------------------------------------------------ *)
(** * The timestamps of the collection *)

Section Wellformed.

Variable str_lower : str -> str.
Variable ieq : char -> char -> bool.
Variable strptime : str -> str -> option (datetime * option timedelta).

(** X22.  The timestamps stay well formed from one run to the next: when
    every stored timestamp is a UTC datetime in ISO format, so is every
    timestamp of the collection the run writes, which is what the string
    comparisons of the next run rely on. *)
Theorem timestamps_stay_wellformed (clock : Clock.t) (items : list Item.t)
    (stored : option (list Event.t)) (final : list Event.t) (meta : Meta.t) :
  (forall s fmt fields off, strptime s fmt = Some (fields, off) -> valid fields) ->
  (forall i, valid (Clock.at_item clock i)) ->
  (forall events p, stored = Some events -> In p events ->
                    wellformed (Event.timestamp p)) ->
  main str_lower ieq strptime clock items stored = Some (final, meta) ->
  forall e, In e final -> wellformed (Event.timestamp e).
Proof. apply final_wellformed. Qed.

End Wellformed.

(* ------------------------------------------------------------------ *)
(** * The further properties on concrete inputs *)

Lemma sample_strptime_valid (s fmt : str) (fields : datetime)
    (off : option timedelta) :
  Sample.strptime s fmt = Some (fields, off) -> valid fields.
Proof.
  unfold Sample.strptime.
  destruct (_ && _ && _ && _ && _ && _ && _ && _)%bool; [|discriminate].
  destruct (Sample.number (Sample.slice 0 4 s) 0) as [y|]; [|discriminate].
  destruct (Sample.number (Sample.slice 5 7 s) 0) as [m|]; [|discriminate].
  destruct (Sample.number (Sample.slice 8 10 s) 0) as [d|]; [|discriminate].
  destruct (Sample.number (Sample.slice 11 13 s) 0) as [hh|]; [|discriminate].
  destruct (Sample.number (Sample.slice 14 16 s) 0) as [mm|]; [|discriminate].
  destruct (Sample.number (Sample.slice 17 19 s) 0) as [ss|]; [|discriminate].
  destruct (Sample.number (Sample.slice 20 22 s) 0) as [oh|]; [|discriminate].
  destruct (Sample.number (Sample.slice 23 25 s) 0) as [om|]; [|discriminate].
  cbv zeta.
  destruct (validb (mkdt y m d hh mm ss 0) && (oh <=? 23)%Z && (om <=? 59)%Z)
    eqn:E; [|discriminate].
  apply andb_true_iff in E. destruct E as [E _].
  apply andb_true_iff in E. destruct E as [E _]. apply validb_valid in E.
  destruct (str_eqb _ (py "+")).
  - intros H. injection H as <- _. exact E.
  - destruct (str_eqb _ (py "-")); [|discriminate].
    intros H. injection H as <- _. exact E.
Qed.

Lemma sample_clock_valid (i : nat) : valid (Clock.at_item Sample.clock0 i).
Proof. apply validb_valid. reflexivity. Qed.

Lemma py_scalar (s : string) : Forall Utf8.scalar (py s).
Proof.
  unfold py. apply Forall_forall. intros c Hc. apply in_map_iff in Hc.
  destruct Hc as [a [<- _]]. left.
  pose proof (N_ascii_bounded a). lia.
Qed.

Lemma final_membership_witness :
  In (nth 0 Sample.final0 Sample.stale_event)
     (final_collection Sample.candidates0 (load_existing Sample.stored0)
        (isoformat (mkdt 2023 12 30 10 0 0 500000))
        (isoformat (mkdt 2024 1 2 7 0 0 500000))) <->
  exists v,
    Dict.get (merge Sample.candidates0 (load_existing Sample.stored0))
             (Event.id v) = Some v /\
    str_ge (Event.timestamp v) (isoformat (mkdt 2023 12 30 10 0 0 500000)) /\
    nth 0 Sample.final0 Sample.stale_event =
      mark_breaking (isoformat (mkdt 2024 1 2 7 0 0 500000)) v.
Proof.
  apply (final_membership Sample.candidates0 Sample.stored0).
  vm_compute. lia.
Defined.

Lemma rerun_keeps_order_witness :
  final_collection [] (load_existing (Some Sample.final0))
    (isoformat (mkdt 2024 1 1 9 0 0 0)) (isoformat (mkdt 2024 1 2 9 0 0 0)) =
  map (mark_breaking (isoformat (mkdt 2024 1 2 9 0 0 0)))
      (firstn CAP
         (filter (fun e => str_geb (Event.timestamp e)
                             (isoformat (mkdt 2024 1 1 9 0 0 0)))
                 Sample.final0)).
Proof.
  apply rerun_keeps_order.
  - vm_compute.
    constructor; [intros [H | [H | []]]; discriminate H|].
    constructor; [intros [H | []]; discriminate H|].
    constructor; [intros []|]. constructor.
  - unfold Sample.final0.
    repeat (constructor;
            [|repeat (constructor; [vm_compute; discriminate|]); constructor]).
    constructor.
Defined.

Lemma estimate_cost_range_witness :
  exists pattern,
    In (pattern, 500000%Z, py "Missile (generic est.)") WEAPON_COSTS /\
    Re.found Re.ascii_ieq pattern (py "Missile strike kills dozens") /\
    (10000 <= 500000 <= 2000000000)%Z.
Proof.
  destruct (estimate_cost_range Re.ascii_ieq (py "Missile strike kills dozens"))
    as (_ & _ & _ & H).
  apply (H (py "Missile (generic est.)")). vm_compute. reflexivity.
Defined.

Lemma candidates_from_items_witness :
  exists j item,
    nth_error Sample.items0 j = Some item /\
    admissible ascii_lower Sample.strptime Sample.clock0 SampleFeed.cutoff0 j item /\
    built ascii_lower Re.ascii_ieq Sample.strptime Sample.clock0
      (load_existing Sample.stored0) j item
      (nth 2 Sample.candidates0 Sample.stale_event).
Proof.
  apply (candidates_from_items ascii_lower Re.ascii_ieq Sample.strptime
           Sample.clock0 SampleFeed.cutoff0 (load_existing Sample.stored0)
           Sample.items0 Sample.candidates0).
  - vm_compute. reflexivity.
  - right. right. left. reflexivity.
Defined.

Lemma first_occurrence_wins_witness :
  NoDup (map prefix40 Sample.candidates0) /\
  exists e,
    In e Sample.candidates0 /\
    built ascii_lower Re.ascii_ieq Sample.strptime Sample.clock0
      (load_existing Sample.stored0) 1 Sample.fresh_item e.
Proof.
  destruct (first_occurrence_wins ascii_lower Re.ascii_ieq Sample.strptime
              Sample.clock0 SampleFeed.cutoff0 (load_existing Sample.stored0)
              Sample.items0 Sample.candidates0) as [Hnd [_ Hfirst]].
  - vm_compute. reflexivity.
  - split; [exact Hnd|].
    apply (Hfirst 1%nat Sample.fresh_item).
    + reflexivity.
    + split; [vm_compute; discriminate|]. split; vm_compute; reflexivity.
    + intros j' item' Hlt Hn _.
      destruct j' as [|j']; [|lia].
      injection Hn as <-. vm_compute. discriminate.
Defined.

Lemma candidate_is_new_witness :
  Event.is_new (nth 0 Sample.candidates0 Sample.stale_event) = false <->
  exists events p,
    Sample.stored0 = Some events /\ In p events /\
    Event.id p = Event.id (nth 0 Sample.candidates0 Sample.stale_event).
Proof.
  apply (candidate_is_new ascii_lower Re.ascii_ieq Sample.strptime
           Sample.clock0 SampleFeed.cutoff0 Sample.stored0 Sample.items0
           Sample.candidates0).
  - vm_compute. reflexivity.
  - left. reflexivity.
Defined.

Lemma candidates_within_week_witness :
  exists d,
    valid d /\
    Event.timestamp (nth 2 Sample.candidates0 Sample.stale_event) = isoformat d /\
    (instant (Clock.at_start Sample.clock0) - td_days 7 <= instant d)%Z.
Proof.
  apply (candidates_within_week ascii_lower Re.ascii_ieq Sample.strptime
           Sample.clock0 SampleFeed.cutoff0 (load_existing Sample.stored0)
           Sample.items0 Sample.candidates0).
  - apply sample_strptime_valid.
  - apply sample_clock_valid.
  - vm_compute. reflexivity.
  - vm_compute. reflexivity.
  - right. right. left. reflexivity.
Defined.

Lemma candidate_shape_witness :
  let e := nth 1 Sample.candidates0 Sample.stale_event in
  (1 <= length (Event.title e) <= 200)%nat /\
  length (Event.id e) = 10%nat /\
  Event.is_breaking e = None.
Proof.
  intros e.
  destruct (candidate_shape ascii_lower Re.ascii_ieq Sample.strptime
              Sample.clock0 SampleFeed.cutoff0 (load_existing Sample.stored0)
              Sample.items0 Sample.candidates0 e)
    as (H1 & _ & H3 & _ & _ & _ & H7).
  - vm_compute. reflexivity.
  - right. left. reflexivity.
  - split; [exact H1|]. split; [exact H3 | exact H7].
Defined.

Lemma main_succeeds_witness :
  exists final meta,
    main ascii_lower Re.ascii_ieq Sample.strptime Sample.clock0 Sample.items0
      None = Some (final, meta).
Proof.
  apply main_succeeds.
  - apply sample_strptime_valid.
  - apply sample_clock_valid.
  - apply validb_valid. reflexivity.
  - vm_compute. discriminate.
  - apply validb_valid. reflexivity.
  - vm_compute. discriminate.
  - apply validb_valid. reflexivity.
  - vm_compute. discriminate.
  - intros item [<- | [<- | [<- | []]]];
      apply Forall_firstn_keep, py_scalar.
Defined.

Lemma summary_counts_witness :
  Meta.event_count Sample.meta0 = 3%Z /\
  (0 <= Meta.breaking_count Sample.meta0 <= Meta.high_count Sample.meta0)%Z /\
  (Meta.high_count Sample.meta0 <= Meta.event_count Sample.meta0 <= 200)%Z.
Proof.
  destruct (summary_counts ascii_lower Re.ascii_ieq Sample.strptime
              Sample.clock0 Sample.items0 Sample.stored0
              Sample.final0 Sample.meta0) as (H1 & _ & _ & H4 & H5).
  - vm_compute. reflexivity.
  - split; [exact H1|]. split; [exact H4 | exact H5].
Defined.

Lemma today_cost_window_witness :
  today_cost (fun _ => mkdt 2024 1 2 10 0 0 0) 0 Sample.final0 =
  sum (map Event.cost_usd
         (filter (fun e => str_geb (Event.timestamp e)
                             (isoformat (mkdt 2024 1 2 0 0 0 0)))
                 Sample.final0)).
Proof.
  destruct (today_cost_window (fun _ => mkdt 2024 1 2 10 0 0 0)
              (mkdt 2024 1 2 0 0 0 0) Sample.final0) as [_ H].
  apply H. intros i. split; reflexivity.
Defined.

Lemma timestamp_order_is_time_order_witness :
  str_compare (isoformat (mkdt 2024 1 2 0 0 0 0))
              (isoformat (mkdt 2024 1 2 0 0 0 500000)) =
  (instant (mkdt 2024 1 2 0 0 0 0) ?= instant (mkdt 2024 1 2 0 0 0 500000))%Z.
Proof.
  apply timestamp_order_is_time_order; apply validb_valid; reflexivity.
Defined.

Lemma parse_date_robust_witness :
  parse_date Sample.strptime Sample.now0
    (py "  " ++ py "2024-01-02T09:00:00+00:00" ++ [10%N]) =
  parse_date Sample.strptime Sample.now0 (py "2024-01-02T09:00:00+00:00").
Proof.
  apply (parse_date_robust Sample.strptime Sample.now0).
  - repeat constructor.
  - repeat constructor.
Defined.

Lemma strip_tags_removes_witness :
  Feed.strip_tags (py "Strike on " ++ Feed.lt :: py "b" ++ Feed.gt :: py "Kyiv") =
  py "Strike on " ++ Feed.strip_tags (py "Kyiv").
Proof.
  apply (strip_tags_removes (py "Strike on ") (py "b") (py "Kyiv")).
  - vm_compute. intros H.
    repeat (destruct H as [H | H]; [discriminate H|]). exact H.
  - discriminate.
  - vm_compute. intros [H | []]. discriminate H.
Defined.

Lemma fetch_feed_items_witness :
  let item := nth 0 SampleFeed.items0 Sample.old_item in
  Item.source item = py "Reuters World" /\
  Item.full item = Item.title item ++ py " " ++ Item.desc item /\
  ~ Feed.has_tag (Item.desc item).
Proof.
  intros item.
  destruct (fetch_feed_items (py "Reuters World")
              (Some ([SampleFeed.element0], []))) as (_ & _ & H).
  apply H. left. reflexivity.
Defined.

Lemma candidates_bounded_witness :
  (length SampleFeed.candidates0 <= length SampleFeed.items0)%nat /\
  (length (filter (fun e => str_eqb (Event.source e) (py "Reuters World"))
                  SampleFeed.candidates0) <= 30)%nat /\
  (length SampleFeed.candidates0 <= 240)%nat.
Proof.
  destruct (candidates_bounded ascii_lower Re.ascii_ieq Sample.strptime
              Sample.clock0 SampleFeed.cutoff0 (load_existing Sample.stored0)
              SampleFeed.docs0 SampleFeed.candidates0)
    as (H1 & _ & _ & H4 & H5).
  - reflexivity.
  - vm_compute. reflexivity.
  - split; [exact H1|]. split; [apply H4 | exact H5].
Defined.

Lemma timestamps_stay_wellformed_witness :
  Forall (fun e => wellformed (Event.timestamp e)) Sample.final0.
Proof.
  apply Forall_forall.
  apply (timestamps_stay_wellformed ascii_lower Re.ascii_ieq Sample.strptime
           Sample.clock0 Sample.items0 Sample.stored0 Sample.final0 Sample.meta0).
  - apply sample_strptime_valid.
  - apply sample_clock_valid.
  - intros events p Es Hin. injection Es as <-.
    destruct Hin as [<- | [<- | []]].
    + exists (mkdt 2024 1 1 8 0 0 0).
      split; [apply validb_valid; reflexivity | vm_compute; reflexivity].
    + exists (mkdt 2023 12 29 8 0 0 0).
      split; [apply validb_valid; reflexivity | vm_compute; reflexivity].
  - vm_compute. reflexivity.
Defined.
